(** * Real-time correlative scan matcher (2D): candidate enumeration,
      scoring and selection

    Shallow embedding of
    [cartographer/mapping/internal/2d/scan_matching/real_time_correlative_scan_matcher_2d.cc].

    Conventions of the embedding.
    - [int] is [Z].  Signed overflow is undefined in C++ and the indices
      handled here are grid-cell offsets and candidate counts, so no
      wrap-around is written out.
    - [float] and [double] are the real numbers [R]: the model has no
      rounding, no infinities and no NaN.  [std::exp] is [exp],
      [std::abs] is [Rabs], [std::hypot a b] is [sqrt (a * a + b * b)] and
      [common::Pow2 a] is [a * a].
      Rounding can merge two different real scores into one float and
      underflow can turn a positive product into 0: the sign and the
      monotonicity of penalized scores are therefore stated with non-strict
      inequalities, which rounding keeps.
      In [R] a quotient by 0 is 0; at run time it is an infinity or NaN.
      The code can form two quotients with a zero divisor.  One is the
      [0 / 0] of the probability-grid score of an empty scan: it is 0 in
      [R] and NaN at run time, and fails the positivity check either way.
      The other is the per-point quotient of the TSDF overload by
      [GetMaxCorrespondenceCost()] when that cost is 0: the embedding of the
      TSDF overload records the divisors of its quotients, so that a run
      without a zero divisor can be told from one that the real numbers do
      not follow.
    - A call either returns or stops the process.  [outcome] records which
      of the two happened and, for a stop, at which program point: a failed
      glog [CHECK], an uncaught exception or an undefined operation. *)

From Stdlib Require Import ZArith List Sorted Reals Lra Lia Bool.
From Equations Require Import Equations.
Import ListNotations.

(** ** Outcomes of a call *)

Inductive failure : Type :=
| CHECK_pose_estimate_not_null   (* CHECK(pose_estimate != nullptr) *)
| CHECK_GE_candidate_score       (* CHECK_GE(candidate_score, 0.f) *)
| CHECK_GT_candidate_score       (* CHECK_GT(candidate_score, 0.f) *)
| CHECK_EQ_num_candidates        (* CHECK_EQ(candidates.size(), num_candidates) *)
| length_error                   (* std::vector::reserve beyond max_size *)
| index_out_of_range             (* operator[] past the end of a vector *)
| dereference_end                (* *max_element of an empty range *)
| bad_static_cast                (* static_cast to a class the object is not of *)
| SearchParameters_precondition. (* the SearchParameters constructor stopped *)

Inductive outcome (A : Type) : Type :=
| Returns (a : A)
| Aborts (f : failure).

Arguments Returns {A} a.
Arguments Aborts {A} f.

Definition bind {A B} (m : outcome A) (k : A -> outcome B) : outcome B :=
  match m with
  | Returns a => k a
  | Aborts f => Aborts f
  end.

Declare Scope outcome_scope.
Delimit Scope outcome_scope with outcome.
Notation "x <- m ;; k" := (bind m (fun x => k))
  (at level 61, m at next level, right associativity) : outcome_scope.
Notation "m ;;; k" := (bind m (fun _ => k))
  (at level 61, right associativity) : outcome_scope.

Definition fatal {A} (o : outcome A) : Prop :=
  match o with
  | Returns _ => False
  | Aborts _ => True
  end.

(** [v[i]] on a [std::vector] with an [int] index. *)
Definition at_index {A} (v : list A) (i : Z) : option A :=
  if (i <? 0)%Z then None else nth_error v (Z.to_nat i).

Definition inspect {A} (a : A) : {b : A | a = b} := exist _ a eq_refl.

(** ** Data model *)

(** Modelled from the spec: [LinearBounds], [SearchParameters] and
    [Candidate2D] are declared in [correlative_scan_matcher_2d.h], which is
    not part of the sources at hand.  The fields are those the code reads
    ([num_scans], [linear_bounds[i].min_x] ...), completed from section 3 of
    the specification: the resolution, the index of the zero rotation and the
    angular step. *)
Record LinearBounds : Type := {
  min_x : Z;
  max_x : Z;
  min_y : Z;
  max_y : Z
}.

Record SearchParameters : Type := {
  num_angular_perturbations : Z;
  angular_perturbation_step_size : R;
  resolution : R;
  num_scans : Z;
  linear_bounds : list LinearBounds
}.

Record Candidate2D : Type := {
  scan_index : Z;
  x_index_offset : Z;
  y_index_offset : Z;
  x : R;
  y : R;
  orientation : R;
  score : R
}.

(** Modelled from the spec: the rotation assigned to a scan index,
    "(scan_index - centerIndex) x angular_step" (section 4.2). *)
Definition scan_rotation (search_parameters : SearchParameters)
    (init_scan_index : Z) : R :=
  (IZR (init_scan_index - num_angular_perturbations search_parameters)
   * angular_perturbation_step_size search_parameters)%R.

(** Modelled from the spec: the constructor
    [Candidate2D(scan_index, x_index_offset, y_index_offset, search_parameters)],
    "x, y (real-valued offsets = index_offset x resolution), orientation (the
    rotation angle for scan_index), score (... initially undefined)"
    (section 3).  The unset score is 0 here. *)
Definition Candidate2D_new (init_scan_index init_x_index_offset
    init_y_index_offset : Z) (search_parameters : SearchParameters)
    : Candidate2D :=
  {| scan_index := init_scan_index;
     x_index_offset := init_x_index_offset;
     y_index_offset := init_y_index_offset;
     x := (IZR init_x_index_offset * resolution search_parameters)%R;
     y := (IZR init_y_index_offset * resolution search_parameters)%R;
     orientation := scan_rotation search_parameters init_scan_index;
     score := 0%R |}.

(** ** Loops *)

(** [for (int i = lo; i <= hi; ++i) acc = body i acc;] *)
Equations? for_le {A} (i hi : Z) (body : Z -> A -> A) (acc : A) : A
    by wf (Z.to_nat (hi + 1 - i)) lt :=
  for_le i hi body acc with Z_le_gt_dec i hi := {
    | left _ := for_le (i + 1) hi body (body i acc);
    | right _ := acc }.
Proof. lia. Qed.

(** [for (int scan_index = i; scan_index != n; ++scan_index)] where every
    iteration reads [linear_bounds[scan_index]]: reading past the end of the
    vector stops the loop with [index_out_of_range]. *)
Equations? for_scans {A} (bounds : list LinearBounds) (i n : Z)
    (body : Z -> LinearBounds -> A -> A) (acc : A) : outcome A
    by wf (Z.to_nat (Z.of_nat (length bounds) - i)) lt :=
  for_scans bounds i n body acc with Z.eq_dec i n := {
    | left _ := Returns acc;
    | right _ with inspect (at_index bounds i) := {
        | exist _ None _ := Aborts index_out_of_range;
        | exist _ (Some b) e :=
            for_scans bounds (i + 1) n body (body i b acc) } }.
Proof.
  unfold at_index in e.
  destruct (i <? 0)%Z eqn:Hi; [discriminate|].
  apply Z.ltb_ge in Hi.
  assert (Z.to_nat i < length bounds)%nat
    by (apply nth_error_Some; congruence).
  lia.
Qed.

(** ** GenerateExhaustiveSearchCandidates *)

(** [candidates.reserve(num_candidates)]: the [int] argument is converted to
    [size_t], so a negative count asks for more than [max_size()] and
    [reserve] throws [std::length_error], which nothing catches. *)
Definition reserve (candidates : list Candidate2D) (n : Z)
    : outcome (list Candidate2D) :=
  if (n <? 0)%Z then Aborts length_error else Returns candidates.

Definition CHECK_EQ (site : failure) (a b : Z) : outcome unit :=
  if (a =? b)%Z then Returns tt else Aborts site.

Definition count_body (scan_index : Z) (b : LinearBounds)
    (num_candidates : Z) : Z :=
  let num_linear_x_candidates := (max_x b - min_x b + 1)%Z in
  let num_linear_y_candidates := (max_y b - min_y b + 1)%Z in
  (num_candidates + num_linear_x_candidates * num_linear_y_candidates)%Z.

Definition emplace_back (search_parameters : SearchParameters)
    (scan_index x_index_offset y_index_offset : Z)
    (candidates : list Candidate2D) : list Candidate2D :=
  candidates ++
  [Candidate2D_new scan_index x_index_offset y_index_offset search_parameters].

Definition enumerate_body (search_parameters : SearchParameters)
    (scan_index : Z) (b : LinearBounds) (candidates : list Candidate2D)
    : list Candidate2D :=
  for_le (min_x b) (max_x b)
    (fun x_index_offset candidates =>
       for_le (min_y b) (max_y b)
         (fun y_index_offset candidates =>
            emplace_back search_parameters scan_index x_index_offset
              y_index_offset candidates)
         candidates)
    candidates.

Definition GenerateExhaustiveSearchCandidates
    (search_parameters : SearchParameters) : outcome (list Candidate2D) :=
  (num_candidates <-
     for_scans (linear_bounds search_parameters) 0
       (num_scans search_parameters) count_body 0%Z ;;
   candidates <- reserve [] num_candidates ;;
   candidates <-
     for_scans (linear_bounds search_parameters) 0
       (num_scans search_parameters) (enumerate_body search_parameters)
       candidates ;;
   CHECK_EQ CHECK_EQ_num_candidates (Z.of_nat (length candidates))
     num_candidates ;;;
   Returns candidates)%outcome.

(** ** Grids *)

(** Modelled from the spec: the grid collaborator of section 6.  A grid
    reports its variant tag and its limits (of which only the resolution is
    read here); a probability grid returns the occupancy probability of a
    cell; a signed-distance grid returns the pair (signed distance, weight)
    of a cell and reports its maximum correspondence cost.  A cell index
    ([Eigen::Array2i]) is a pair of integers.  [UNKNOWN_GRID_TYPE] stands for
    any tag other than the two named ones. *)
Inductive GridType : Type :=
| PROBABILITY_GRID
| TSDF
| UNKNOWN_GRID_TYPE.

Record MapLimits : Type := {
  MapLimits_resolution : R
}.

Definition Array2i : Type := (Z * Z)%type.

Record ProbabilityGrid : Type := {
  ProbabilityGrid_limits : MapLimits;
  GetProbability : Array2i -> R
}.

Record TSDF2D : Type := {
  TSDF2D_limits : MapLimits;
  GetTSDAndWeight : Array2i -> R * R;
  GetMaxCorrespondenceCost : R
}.

Inductive Grid2D : Type :=
| Grid2D_ProbabilityGrid (probability_grid : ProbabilityGrid)
| Grid2D_TSDF2D (tsdf : TSDF2D)
| Grid2D_unknown (l : MapLimits).

Definition GetGridType (grid : Grid2D) : GridType :=
  match grid with
  | Grid2D_ProbabilityGrid _ => PROBABILITY_GRID
  | Grid2D_TSDF2D _ => TSDF
  | Grid2D_unknown _ => UNKNOWN_GRID_TYPE
  end.

Definition limits (grid : Grid2D) : MapLimits :=
  match grid with
  | Grid2D_ProbabilityGrid g => ProbabilityGrid_limits g
  | Grid2D_TSDF2D g => TSDF2D_limits g
  | Grid2D_unknown l => l
  end.

(** [static_cast<const ProbabilityGrid&>(grid)] and
    [static_cast<const TSDF2D&>(grid)]: undefined when the object is not of
    the target class. *)
Definition static_cast_ProbabilityGrid (grid : Grid2D)
    : option ProbabilityGrid :=
  match grid with
  | Grid2D_ProbabilityGrid g => Some g
  | _ => None
  end.

Definition static_cast_TSDF2D (grid : Grid2D) : option TSDF2D :=
  match grid with
  | Grid2D_TSDF2D g => Some g
  | _ => None
  end.

Definition DiscreteScan2D : Type := list Array2i.

Local Open Scope R_scope.

Definition CHECK_GE (site : failure) (a b : R) : outcome unit :=
  if Rle_dec b a then Returns tt else Aborts site.

Definition CHECK_GT (site : failure) (a b : R) : outcome unit :=
  if Rlt_dec b a then Returns tt else Aborts site.

Definition proposed_xy_index (xy_index : Array2i)
    (x_index_offset y_index_offset : Z) : Array2i :=
  (fst xy_index + x_index_offset, snd xy_index + y_index_offset)%Z.

Definition normalized_tsd_score (tsdf : TSDF2D) (tsd : R) : R :=
  (GetMaxCorrespondenceCost tsdf - Rabs tsd) / GetMaxCorrespondenceCost tsdf.

(** One iteration of the loop of the TSDF overload; the state is the pair
    ([candidate_score], [summed_weight]). *)
Definition tsdf_step (tsdf : TSDF2D) (x_index_offset y_index_offset : Z)
    (acc : R * R) (xy_index : Array2i) : R * R :=
  let tsd_and_weight :=
    GetTSDAndWeight tsdf
      (proposed_xy_index xy_index x_index_offset y_index_offset) in
  let weight := snd tsd_and_weight in
  (fst acc + normalized_tsd_score tsdf (fst tsd_and_weight) * weight,
   snd acc + weight).

(** The float divisions of the TSDF overload are recorded by their divisors,
    in the order in which the quotients are formed: one per scan point, by
    [GetMaxCorrespondenceCost()], and the one of [candidate_score /=
    summed_weight], which is reached only past the guard
    [if (summed_weight == 0.f) return 0.f;].  A float quotient by zero is an
    infinity or NaN, for which the real numbers have no value: the model
    follows a run as long as no recorded divisor is 0. *)
Definition tsdf_step_logged (tsdf : TSDF2D)
    (x_index_offset y_index_offset : Z) (acc : R * R * list R)
    (xy_index : Array2i) : R * R * list R :=
  (tsdf_step tsdf x_index_offset y_index_offset (fst acc) xy_index,
   snd acc ++ [GetMaxCorrespondenceCost tsdf]).

(** The run of the TSDF overload: its outcome and the divisors of the
    quotients it formed. *)
Definition ComputeCandidateScore_TSDF2D_run (tsdf : TSDF2D)
    (discrete_scan : DiscreteScan2D) (x_index_offset y_index_offset : Z)
    : outcome R * list R :=
  let acc :=
    fold_left (tsdf_step_logged tsdf x_index_offset y_index_offset)
      discrete_scan ((0, 0), []) in
  let candidate_score := fst (fst acc) in
  let summed_weight := snd (fst acc) in
  let divisors := snd acc in
  if Req_dec_T summed_weight 0 then (Returns 0, divisors)
  else
    let candidate_score := candidate_score / summed_weight in
    ((CHECK_GE CHECK_GE_candidate_score candidate_score 0 ;;;
      Returns candidate_score)%outcome,
     divisors ++ [summed_weight]).

Definition ComputeCandidateScore_TSDF2D (tsdf : TSDF2D)
    (discrete_scan : DiscreteScan2D) (x_index_offset y_index_offset : Z)
    : outcome R :=
  fst (ComputeCandidateScore_TSDF2D_run tsdf discrete_scan x_index_offset
         y_index_offset).

Definition probability_step (probability_grid : ProbabilityGrid)
    (x_index_offset y_index_offset : Z) (candidate_score : R)
    (xy_index : Array2i) : R :=
  let probability :=
    GetProbability probability_grid
      (proposed_xy_index xy_index x_index_offset y_index_offset) in
  candidate_score + probability.

Definition ComputeCandidateScore_ProbabilityGrid
    (probability_grid : ProbabilityGrid) (discrete_scan : DiscreteScan2D)
    (x_index_offset y_index_offset : Z) : outcome R :=
  let candidate_score :=
    fold_left (probability_step probability_grid x_index_offset
                 y_index_offset) discrete_scan 0 in
  let candidate_score := candidate_score / INR (length discrete_scan) in
  (CHECK_GT CHECK_GT_candidate_score candidate_score 0 ;;;
   Returns candidate_score)%outcome.

(** ** The candidate vector as a mutable object

    [ScoreCandidates] receives a pointer to the candidate vector and updates
    it in place.  The heap holds the vector and the trace of the stores made
    to it: a store is the assignment of a value to the [score] field of the
    candidate at some position (the code assigns no other field). *)

Record store_event : Type := {
  stored_at : nat;
  stored_value : R
}.

Record heap : Type := {
  candidates_of : list Candidate2D;
  trace : list store_event
}.

Definition M (A : Type) : Type := heap -> outcome (A * heap).

Definition ret {A} (a : A) : M A := fun h => Returns (a, h).

Definition mbind {A B} (m : M A) (k : A -> M B) : M B :=
  fun h =>
    match m h with
    | Returns (a, h') => k a h'
    | Aborts f => Aborts f
    end.

Definition lift {A} (o : outcome A) : M A :=
  fun h =>
    match o with
    | Returns a => Returns (a, h)
    | Aborts f => Aborts f
    end.

Definition lift_option {A} (site : failure) (o : option A) : outcome A :=
  match o with
  | Some a => Returns a
  | None => Aborts site
  end.

Declare Scope heap_scope.
Delimit Scope heap_scope with heap.
Notation "x <- m ;; k" := (mbind m (fun x => k))
  (at level 61, m at next level, right associativity) : heap_scope.
Notation "m ;;; k" := (mbind m (fun _ => k))
  (at level 61, right associativity) : heap_scope.

Definition set_score (c : Candidate2D) (v : R) : Candidate2D :=
  {| scan_index := scan_index c;
     x_index_offset := x_index_offset c;
     y_index_offset := y_index_offset c;
     x := x c;
     y := y c;
     orientation := orientation c;
     score := v |}.

Fixpoint update_nth {A} (i : nat) (f : A -> A) (l : list A) : list A :=
  match l, i with
  | [], _ => []
  | a :: l', O => f a :: l'
  | a :: l', S i' => a :: update_nth i' f l'
  end.

(** Reading the candidate the loop reference is bound to. *)
Definition load (i : nat) : M Candidate2D :=
  fun h => lift (lift_option index_out_of_range
                   (nth_error (candidates_of h) i)) h.

(** [candidate.score = v] and [candidate.score *= ...]. *)
Definition store_score (i : nat) (v : R) : M unit :=
  fun h =>
    Returns (tt,
      {| candidates_of := update_nth i (fun c => set_score c v)
                            (candidates_of h);
         trace := trace h ++ [ {| stored_at := i; stored_value := v |} ] |}).

(** [for (Candidate2D& candidate : *candidates)]: the positions
    [i, i + 1, ..., i + n - 1] in turn. *)
Fixpoint for_each (n i : nat) (body : nat -> M unit) : M unit :=
  match n with
  | O => ret tt
  | S n' => (body i ;;; for_each n' (S i) body)%heap
  end.

(** ** ScoreCandidates *)

(** Modelled from the spec: the configuration
    [proto::RealTimeCorrelativeScanMatcherOptions], with the four options of
    section 6. *)
Record RealTimeCorrelativeScanMatcherOptions : Type := {
  linear_search_window : R;
  angular_search_window : R;
  translation_delta_cost_weight : R;
  rotation_delta_cost_weight : R
}.

Definition Pow2 (a : R) : R := a * a.

Definition hypot (a b : R) : R := sqrt (a * a + b * b).

(** The factor the raw score is multiplied with. *)
Definition penalty (options_ : RealTimeCorrelativeScanMatcherOptions)
    (candidate : Candidate2D) : R :=
  exp (- Pow2 (hypot (x candidate) (y candidate)
                 * translation_delta_cost_weight options_
               + Rabs (orientation candidate)
                 * rotation_delta_cost_weight options_)).

(** The [switch] on the grid type: each of the two cases stores the result
    of its overload of [ComputeCandidateScore]; there is no [default], so any
    other tag leaves the switch without a store. *)
Definition score_switch (grid : Grid2D)
    (discrete_scans : list DiscreteScan2D) (i : nat)
    (candidate : Candidate2D) : M unit :=
  match GetGridType grid with
  | PROBABILITY_GRID =>
      (raw <- lift
         (probability_grid <-
            lift_option bad_static_cast
              (static_cast_ProbabilityGrid grid) ;;
          discrete_scan <-
            lift_option index_out_of_range
              (at_index discrete_scans (scan_index candidate)) ;;
          ComputeCandidateScore_ProbabilityGrid probability_grid
            discrete_scan (x_index_offset candidate)
            (y_index_offset candidate))%outcome ;;
       store_score i raw)%heap
  | TSDF =>
      (raw <- lift
         (tsdf <-
            lift_option bad_static_cast (static_cast_TSDF2D grid) ;;
          discrete_scan <-
            lift_option index_out_of_range
              (at_index discrete_scans (scan_index candidate)) ;;
          ComputeCandidateScore_TSDF2D tsdf discrete_scan
            (x_index_offset candidate) (y_index_offset candidate))%outcome ;;
       store_score i raw)%heap
  | UNKNOWN_GRID_TYPE => ret tt
  end.

Definition score_candidate (options_ : RealTimeCorrelativeScanMatcherOptions)
    (grid : Grid2D) (discrete_scans : list DiscreteScan2D) (i : nat)
    : M unit :=
  (candidate <- load i ;;
   score_switch grid discrete_scans i candidate ;;;
   candidate <- load i ;;
   store_score i (score candidate * penalty options_ candidate))%heap.

Definition ScoreCandidates (options_ : RealTimeCorrelativeScanMatcherOptions)
    (grid : Grid2D) (discrete_scans : list DiscreteScan2D)
    (search_parameters : SearchParameters) : M unit :=
  fun h =>
    for_each (length (candidates_of h)) 0
      (score_candidate options_ grid discrete_scans) h.

(** ** std::max_element on the candidate vector *)

(** Modelled from the spec: [Candidate2D::operator<], declared with the
    struct; "candidates compare by score only" (section 3). *)
Definition Candidate2D_lt (a b : Candidate2D) : bool :=
  if Rlt_dec (score a) (score b) then true else false.

(** [std::max_element(first, last)] with [operator<]: [largest] starts at
    the first position and moves to a later position only when the element
    there is greater.  The result is a position; for an empty vector it is
    the end position. *)
Fixpoint max_element_loop (largest : nat) (largest_candidate : Candidate2D)
    (first : nat) (rest : list Candidate2D) : nat :=
  match rest with
  | [] => largest
  | c :: rest' =>
      if Candidate2D_lt largest_candidate c
      then max_element_loop first c (S first) rest'
      else max_element_loop largest largest_candidate (S first) rest'
  end.

Definition max_element (candidates : list Candidate2D) : nat :=
  match candidates with
  | [] => 0%nat
  | c :: rest => max_element_loop 0 c 1 rest
  end.

(** ** Match *)

(** Modelled from the spec: "Rigid2DPose: translation (x, y) in map/world
    units + rotation angle" (section 3); the types themselves come from
    Eigen and [transform/rigid_transform.h]. *)
Record Rotation2D : Type := { angle : R }.

(** [Eigen::Rotation2D::operator*]: the angles add up. *)
Definition Rotation2D_mul (a b : Rotation2D) : Rotation2D :=
  {| angle := angle a + angle b |}.

Record Rigid2d : Type := {
  translation : R * R;
  rotation : Rotation2D
}.

Section Match.

(** The collaborators of [Match] that live in other translation units:
    the point cloud and its rotation about the z axis by an angle, the
    constructor of [SearchParameters] (which may stop the process),
    [GenerateRotatedScans] and [DiscretizeScans]. *)
Variable PointCloud : Type.
Variable TransformPointCloud : PointCloud -> R -> PointCloud.
Variable SearchParameters_new :
  R -> R -> PointCloud -> R -> option SearchParameters.
Variable GenerateRotatedScans :
  PointCloud -> SearchParameters -> list PointCloud.
Variable DiscretizeScans :
  MapLimits -> list PointCloud -> R * R -> list DiscreteScan2D.

Variable options_ : RealTimeCorrelativeScanMatcherOptions.

(** [pose_estimate] is a pointer: [None] is the null pointer and [Some p]
    points to an object holding [p].  A returning call yields the object's
    new contents and the returned score. *)
Definition Match (initial_pose_estimate : Rigid2d)
    (point_cloud : PointCloud) (grid : Grid2D)
    (pose_estimate : option Rigid2d) : outcome (Rigid2d * R) :=
  match pose_estimate with
  | None => Aborts CHECK_pose_estimate_not_null
  | Some _ =>
      let initial_rotation := rotation initial_pose_estimate in
      let rotated_point_cloud :=
        TransformPointCloud point_cloud (angle initial_rotation) in
      (search_parameters <-
         lift_option SearchParameters_precondition
           (SearchParameters_new (linear_search_window options_)
              (angular_search_window options_) rotated_point_cloud
              (MapLimits_resolution (limits grid))) ;;
       let rotated_scans :=
         GenerateRotatedScans rotated_point_cloud search_parameters in
       let discrete_scans :=
         DiscretizeScans (limits grid) rotated_scans
           (translation initial_pose_estimate) in
       candidates <- GenerateExhaustiveSearchCandidates search_parameters ;;
       scored <-
         ScoreCandidates options_ grid discrete_scans search_parameters
           {| candidates_of := candidates; trace := [] |} ;;
       let candidates := candidates_of (snd scored) in
       best_candidate <-
         lift_option dereference_end
           (nth_error candidates (max_element candidates)) ;;
       Returns
         ({| translation :=
               (fst (translation initial_pose_estimate) + x best_candidate,
                snd (translation initial_pose_estimate) + y best_candidate);
             rotation :=
               Rotation2D_mul initial_rotation
                 {| angle := orientation best_candidate |} |},
          score best_candidate))%outcome
  end.

(** The search parameters and the discrete scans [Match] works with. *)
Definition Match_search_parameters (initial_pose_estimate : Rigid2d)
    (point_cloud : PointCloud) (grid : Grid2D) : option SearchParameters :=
  SearchParameters_new (linear_search_window options_)
    (angular_search_window options_)
    (TransformPointCloud point_cloud
       (angle (rotation initial_pose_estimate)))
    (MapLimits_resolution (limits grid)).

Definition Match_discrete_scans (initial_pose_estimate : Rigid2d) (point_cloud : PointCloud)
    (grid : Grid2D) (search_parameters : SearchParameters)
    : list DiscreteScan2D :=
  DiscretizeScans (limits grid)
    (GenerateRotatedScans
       (TransformPointCloud point_cloud
          (angle (rotation initial_pose_estimate)))
       search_parameters)
    (translation initial_pose_estimate).

End Match.

Arguments Match {PointCloud} TransformPointCloud SearchParameters_new
  GenerateRotatedScans DiscretizeScans options_ initial_pose_estimate
  point_cloud grid pose_estimate.
Arguments Match_search_parameters {PointCloud} TransformPointCloud
  SearchParameters_new options_ initial_pose_estimate point_cloud grid.
Arguments Match_discrete_scans {PointCloud} TransformPointCloud
  GenerateRotatedScans DiscretizeScans initial_pose_estimate point_cloud grid
  search_parameters.

(** * The specification's vocabulary and the inputs of the examples *)

Local Open Scope Z_scope.

(** ** Integer ranges and indexed bounds *)

(** The integers [lo, lo + 1, ..., hi]. *)
Definition Zrange (lo hi : Z) : list Z :=
  map (fun k => lo + Z.of_nat k) (seq 0 (Z.to_nat (hi + 1 - lo))).

(** The bounds paired with their rotation index, counted from [i]. *)
Fixpoint indexed (i : Z) (l : list LinearBounds) : list (Z * LinearBounds) :=
  match l with
  | [] => []
  | b :: l' => (i, b) :: indexed (i + 1) l'
  end.

(** ** The search window in the words of the specification *)

(** The rotation indices [0 .. num_scans - 1], each with its bounds. *)
Definition rotations (search_parameters : SearchParameters)
    : list (Z * LinearBounds) :=
  indexed 0 (firstn (Z.to_nat (num_scans search_parameters))
               (linear_bounds search_parameters)).

(** "(max_x - min_x + 1) x (max_y - min_y + 1)" *)
Definition num_linear_candidates (b : LinearBounds) : Z :=
  (max_x b - min_x b + 1) * (max_y b - min_y b + 1).

(** "the sum over rotation indices of (max_x - min_x + 1) x (max_y - min_y + 1)" *)
Definition precomputed_total (search_parameters : SearchParameters) : Z :=
  fold_right Z.add 0
    (map (fun p => num_linear_candidates (snd p))
       (rotations search_parameters)).

(** "every (scan_index, x_index_offset, y_index_offset) triple within the
    bounds, in nested order (scan_index outer, x_index_offset middle,
    y_index_offset inner)" *)
Definition linear_offsets (b : LinearBounds) : list (Z * Z) :=
  flat_map (fun x_index_offset =>
              map (fun y_index_offset => (x_index_offset, y_index_offset))
                (Zrange (min_y b) (max_y b)))
    (Zrange (min_x b) (max_x b)).

Definition triples (search_parameters : SearchParameters)
    : list (Z * Z * Z) :=
  flat_map (fun p => map (fun xy => (fst p, fst xy, snd xy))
                       (linear_offsets (snd p)))
    (rotations search_parameters).

Definition candidate_of_triple (search_parameters : SearchParameters)
    (t : Z * Z * Z) : Candidate2D :=
  Candidate2D_new (fst (fst t)) (snd (fst t)) (snd t) search_parameters.

(** There is one bound per rotation index. *)
Definition scans_in_range (search_parameters : SearchParameters) : Prop :=
  0 <= num_scans search_parameters
       <= Z.of_nat (length (linear_bounds search_parameters)).

(** The bounds are inclusive: each interval holds at least its end points. *)
Definition bounds_ordered (b : LinearBounds) : Prop :=
  min_x b <= max_x b /\ min_y b <= max_y b.

Definition window_well_formed (search_parameters : SearchParameters) : Prop :=
  scans_in_range search_parameters /\
  Forall (fun p => bounds_ordered (snd p)) (rotations search_parameters).

(** The order of the nested loops: lexicographic, scan index first, then
    the x offset, then the y offset. *)
Definition offsets_lt (a b : Z * Z) : Prop :=
  fst a < fst b \/ (fst a = fst b /\ snd a < snd b).

Definition triple_lt (a b : Z * Z * Z) : Prop :=
  fst (fst a) < fst (fst b) \/
  (fst (fst a) = fst (fst b) /\
   offsets_lt (snd (fst a), snd a) (snd (fst b), snd b)).

(** ** Search windows of the examples *)

(** The search window of the specification's scenario: one rotation and a
    linear window of one cell, hence the bounds [-1, 1] x [-1, 1]. *)
Definition window_3x3 : SearchParameters :=
  {| num_angular_perturbations := 0;
     angular_perturbation_step_size := 1;
     resolution := 1;
     num_scans := 1;
     linear_bounds :=
       [ {| min_x := -1; max_x := 1; min_y := -1; max_y := 1 |} ] |}.

(** A window whose bounds are inverted in both directions: the loops produce
    nothing, while the product of the two (negative) widths is 1. *)
Definition window_inverted : SearchParameters :=
  {| num_angular_perturbations := 0;
     angular_perturbation_step_size := 1;
     resolution := 1;
     num_scans := 1;
     linear_bounds :=
       [ {| min_x := 1; max_x := -1; min_y := 1; max_y := -1 |} ] |}.

Definition index_triple (c : Candidate2D) : Z * Z * Z :=
  (scan_index c, x_index_offset c, y_index_offset c).

Local Open Scope R_scope.

(** ** The scores in the words of the specification *)

Definition Rsum (l : list R) : R := fold_right Rplus 0 l.

(** "the arithmetic mean" *)
Definition mean (l : list R) : R := Rsum l / INR (length l).

(** "the grid's occupancy probability at the point's cell index shifted by
    (dx, dy)", for every point of the scan. *)
Definition queried_probabilities (probability_grid : ProbabilityGrid)
    (discrete_scan : DiscreteScan2D) (dx dy : Z) : list R :=
  map (fun xy_index =>
         GetProbability probability_grid (proposed_xy_index xy_index dx dy))
    discrete_scan.

(** "the weight-weighted average" of a list of (value, weight) pairs. *)
Definition weighted_average (l : list (R * R)) : R :=
  Rsum (map (fun vw => fst vw * snd vw) l) / Rsum (map snd l).

(** The per-point value "(maxCorrespondenceCost - |signedDistance|) /
    maxCorrespondenceCost" with the weight of the cell, for every point of
    the scan. *)
Definition tsdf_samples (tsdf : TSDF2D) (discrete_scan : DiscreteScan2D)
    (dx dy : Z) : list (R * R) :=
  map (fun xy_index =>
         let tsd_and_weight :=
           GetTSDAndWeight tsdf (proposed_xy_index xy_index dx dy) in
         (normalized_tsd_score tsdf (fst tsd_and_weight),
          snd tsd_and_weight))
    discrete_scan.

Definition summed_weight (tsdf : TSDF2D) (discrete_scan : DiscreteScan2D)
    (dx dy : Z) : R :=
  Rsum (map snd (tsdf_samples tsdf discrete_scan dx dy)).

(** Modelled from the spec: the invariants of a signed-distance grid,
    "each cell holds a signed truncated distance value and a non-negative
    confidence weight; a fixed maximum-correspondence-cost bounds distance
    magnitude" (section 3); the cost is positive. *)
Definition TSDF2D_well_formed (tsdf : TSDF2D) : Prop :=
  0 < GetMaxCorrespondenceCost tsdf /\
  forall xy_index,
    Rabs (fst (GetTSDAndWeight tsdf xy_index))
    <= GetMaxCorrespondenceCost tsdf /\
    0 <= snd (GetTSDAndWeight tsdf xy_index).

(** ** Uniform grids *)

(** The grid of the specification's end-to-end scenario: every cell holds
    the probability 0.6 and the resolution is 0.05. *)
Definition uniform_grid (p : R) : ProbabilityGrid :=
  {| ProbabilityGrid_limits := {| MapLimits_resolution := 5 / 100 |};
     GetProbability := fun _ => p |}.

(** A signed-distance grid every cell of which holds the same distance and
    weight. *)
Definition uniform_tsdf (max_correspondence_cost tsd weight : R) : TSDF2D :=
  {| TSDF2D_limits := {| MapLimits_resolution := 5 / 100 |};
     GetTSDAndWeight := fun _ => (tsd, weight);
     GetMaxCorrespondenceCost := max_correspondence_cost |}.

(** ** ScoreCandidates, candidate by candidate *)

(** The value held by [candidate.score] when the [switch] is left. *)
Definition raw_score (grid : Grid2D) (discrete_scans : list DiscreteScan2D)
    (candidate : Candidate2D) : outcome R :=
  match grid with
  | Grid2D_ProbabilityGrid probability_grid =>
      (discrete_scan <-
         lift_option index_out_of_range
           (at_index discrete_scans (scan_index candidate)) ;;
       ComputeCandidateScore_ProbabilityGrid probability_grid discrete_scan
         (x_index_offset candidate) (y_index_offset candidate))%outcome
  | Grid2D_TSDF2D tsdf =>
      (discrete_scan <-
         lift_option index_out_of_range
           (at_index discrete_scans (scan_index candidate)) ;;
       ComputeCandidateScore_TSDF2D tsdf discrete_scan
         (x_index_offset candidate) (y_index_offset candidate))%outcome
  | Grid2D_unknown _ => Returns (score candidate)
  end.

(** The stores made for the candidate at position [i]. *)
Definition stores_of (grid : Grid2D) (i : nat) (raw final : R)
    : list store_event :=
  match GetGridType grid with
  | UNKNOWN_GRID_TYPE => []
  | _ => [ {| stored_at := i; stored_value := raw |} ]
  end ++ [ {| stored_at := i; stored_value := final |} ].

Fixpoint score_all (options_ : RealTimeCorrelativeScanMatcherOptions)
    (grid : Grid2D) (discrete_scans : list DiscreteScan2D) (i : nat)
    (l : list Candidate2D) : outcome (list Candidate2D * list store_event) :=
  match l with
  | [] => Returns ([], [])
  | c :: l' =>
      (raw <- raw_score grid discrete_scans c ;;
       rest <- score_all options_ grid discrete_scans (S i) l' ;;
       Returns (set_score c (raw * penalty options_ c) :: fst rest,
                stores_of grid i raw (raw * penalty options_ c)
                ++ snd rest))%outcome
  end.

(** The stores of a trace that go to position [i]. *)
Definition stores_at (i : nat) (tr : list store_event) : list store_event :=
  filter (fun e => Nat.eqb (stored_at e) i) tr.

(** All fields but the score agree. *)
Definition same_pose (c c' : Candidate2D) : Prop :=
  scan_index c' = scan_index c /\
  x_index_offset c' = x_index_offset c /\
  y_index_offset c' = y_index_offset c /\
  x c' = x c /\ y c' = y c /\ orientation c' = orientation c.

(** ** The end-to-end scenario of the specification

    A uniform probability grid (every cell 0.6, resolution 0.05), an empty
    search window, hence one candidate with zero offsets, and a scan of one
    point. *)
Definition window_single : SearchParameters :=
  {| num_angular_perturbations := 0;
     angular_perturbation_step_size := 1;
     resolution := 5 / 100;
     num_scans := 1;
     linear_bounds :=
       [ {| min_x := 0; max_x := 0; min_y := 0; max_y := 0 |} ] |}.

Definition scenario_candidate : Candidate2D :=
  Candidate2D_new 0 0 0 window_single.

Definition scenario_options : RealTimeCorrelativeScanMatcherOptions :=
  {| linear_search_window := 0;
     angular_search_window := 0;
     translation_delta_cost_weight := 1 / 10;
     rotation_delta_cost_weight := 1 / 10 |}.

Definition scenario_grid : Grid2D :=
  Grid2D_ProbabilityGrid (uniform_grid (6 / 10)).

Definition scenario_scans : list DiscreteScan2D := [ [(2, 2)%Z] ].

(** ** Three claims as they are worded *)

(** The claim as worded: every candidate's score field is stored to exactly
    once. *)
Definition stores_each_score_once : Prop :=
  forall (options_ : RealTimeCorrelativeScanMatcherOptions) (grid : Grid2D)
         (discrete_scans : list DiscreteScan2D)
         (search_parameters : SearchParameters) (h h' : heap) (u : unit)
         (stores : list store_event),
    ScoreCandidates options_ grid discrete_scans search_parameters h
    = Returns (u, h') ->
    trace h' = trace h ++ stores ->
    forall i, (i < length (candidates_of h))%nat ->
              length (stores_at i stores) = 1%nat.

(** The claim as worded: a grid of another tag that reaches the switch stops
    the process. *)
Definition unknown_grid_type_is_fatal : Prop :=
  forall (options_ : RealTimeCorrelativeScanMatcherOptions) (grid : Grid2D)
         (discrete_scans : list DiscreteScan2D)
         (search_parameters : SearchParameters) (h : heap),
    GetGridType grid = UNKNOWN_GRID_TYPE ->
    candidates_of h <> [] ->
    fatal (ScoreCandidates options_ grid discrete_scans search_parameters h).

Definition unknown_grid : Grid2D :=
  Grid2D_unknown {| MapLimits_resolution := 5 / 100 |}.

(** The argument of the exponential, before squaring. *)
Definition displacement_cost (options_ : RealTimeCorrelativeScanMatcherOptions)
    (c : Candidate2D) : R :=
  hypot (x c) (y c) * translation_delta_cost_weight options_
  + Rabs (orientation c) * rotation_delta_cost_weight options_.

(** The claim as worded: whatever the raw score and the weights, a larger
    hypot(x, y) gives a strictly smaller final score. *)
Definition penalty_strict_in_translation : Prop :=
  forall (options_ : RealTimeCorrelativeScanMatcherOptions) (raw : R)
         (c1 c2 : Candidate2D),
    hypot (x c1) (y c1) < hypot (x c2) (y c2) ->
    Rabs (orientation c1) = Rabs (orientation c2) ->
    raw * penalty options_ c2 < raw * penalty options_ c1.

(** A configuration that switches the penalty off. *)
Definition options_without_penalty : RealTimeCorrelativeScanMatcherOptions :=
  {| linear_search_window := 1;
     angular_search_window := 0;
     translation_delta_cost_weight := 0;
     rotation_delta_cost_weight := 0 |}.

(** ** Where a call can stop *)

Definition enumeration_failure (f : failure) : Prop :=
  f = index_out_of_range \/ f = length_error \/ f = CHECK_EQ_num_candidates.

Definition scoring_failure (f : failure) : Prop :=
  f = index_out_of_range \/ f = CHECK_GT_candidate_score \/
  f = CHECK_GE_candidate_score.

(** ** The end-to-end scenario through Match *)

(** Collaborators for the scenario: a point cloud of planar points that the
    rotation by the initial angle 0 leaves as it is, search parameters of an
    empty window, and the one point discretized into the cell (2, 2). *)
Definition scenario_PointCloud : Type := list (R * R).

Definition scenario_TransformPointCloud (point_cloud : scenario_PointCloud)
    (angle : R) : scenario_PointCloud := point_cloud.

Definition scenario_SearchParameters_new (linear_search_window
    angular_search_window : R) (point_cloud : scenario_PointCloud)
    (resolution : R) : option SearchParameters := Some window_single.

Definition scenario_GenerateRotatedScans (point_cloud : scenario_PointCloud)
    (search_parameters : SearchParameters) : list scenario_PointCloud :=
  [point_cloud].

Definition scenario_DiscretizeScans (l : MapLimits)
    (scans : list scenario_PointCloud) (initial_translation : R * R)
    : list DiscreteScan2D := scenario_scans.

Definition scenario_initial_pose : Rigid2d :=
  {| translation := (1 / 10, 1 / 10); rotation := {| angle := 0 |} |}.

Definition scenario_Match (pose_estimate : option Rigid2d)
    : outcome (Rigid2d * R) :=
  Match scenario_TransformPointCloud scenario_SearchParameters_new
    scenario_GenerateRotatedScans scenario_DiscretizeScans scenario_options
    scenario_initial_pose [(0, 0)] scenario_grid pose_estimate.

(** ** Vocabulary of the further properties *)

(** The scan with every cell index moved by [(dx, dy)]. *)
Definition shift_scan (discrete_scan : DiscreteScan2D) (dx dy : Z)
    : DiscreteScan2D :=
  map (fun xy_index => proposed_xy_index xy_index dx dy) discrete_scan.

(** Whether the cell a scan point falls into, after the offset, carries
    weight. *)
Definition has_weight (tsdf : TSDF2D) (dx dy : Z) (xy_index : Array2i)
    : bool :=
  if Req_dec_T
       (snd (GetTSDAndWeight tsdf (proposed_xy_index xy_index dx dy))) 0
  then false else true.

(** A probability grid with two levels: 0.1 left of the y axis and 0.9 on
    and right of it. *)
Definition two_level_grid : ProbabilityGrid :=
  {| ProbabilityGrid_limits := {| MapLimits_resolution := 5 / 100 |};
     GetProbability :=
       fun xy_index =>
         if (fst xy_index <? 0)%Z then 1 / 10 else 9 / 10 |}.

(** A probability grid that is empty (probability 0) left of the y axis. *)
Definition half_empty_grid : ProbabilityGrid :=
  {| ProbabilityGrid_limits := {| MapLimits_resolution := 5 / 100 |};
     GetProbability :=
       fun xy_index => if (fst xy_index <? 0)%Z then 0 else 9 / 10 |}.

(** [c'] is [c] after scoring: the same candidate with the score replaced
    by its raw score times its penalty factor. *)
Definition scored_as (options_ : RealTimeCorrelativeScanMatcherOptions)
    (grid : Grid2D) (discrete_scans : list DiscreteScan2D)
    (c c' : Candidate2D) : Prop :=
  exists raw,
    raw_score grid discrete_scans c = Returns raw /\
    c' = set_score c (raw * penalty options_ c).

Definition outcome_map {A B} (f : A -> B) (o : outcome A) : outcome B :=
  match o with
  | Returns a => Returns (f a)
  | Aborts e => Aborts e
  end.

(** What a call of [ScoreCandidates] leaves to its caller: the candidate
    vector, or the point at which the process stopped. *)
Definition scored_candidates (o : outcome (unit * heap))
    : outcome (list Candidate2D) :=
  outcome_map (fun r => candidates_of (snd r)) o.

(** A candidate of the scenario whose scan index points past the discrete
    scans. *)
Definition stray_candidate : Candidate2D :=
  Candidate2D_new 5 0 0 window_single.

(** The search parameters with another vector of linear bounds. *)
Definition with_linear_bounds (search_parameters : SearchParameters)
    (bounds : list LinearBounds) : SearchParameters :=
  {| num_angular_perturbations := num_angular_perturbations search_parameters;
     angular_perturbation_step_size :=
       angular_perturbation_step_size search_parameters;
     resolution := resolution search_parameters;
     num_scans := num_scans search_parameters;
     linear_bounds := bounds |}.

(** Three rotations, each with the bounds [-1, 1] x [-1, 1]. *)
Definition window_three_rotations : SearchParameters :=
  {| num_angular_perturbations := 1;
     angular_perturbation_step_size := 1 / 100;
     resolution := 5 / 100;
     num_scans := 3;
     linear_bounds :=
       repeat {| min_x := -1; max_x := 1; min_y := -1; max_y := 1 |} 3 |}.

(** A window that asks for three rotations and has bounds for two. *)
Definition window_short_of_bounds : SearchParameters :=
  {| num_angular_perturbations := 1;
     angular_perturbation_step_size := 1 / 100;
     resolution := 5 / 100;
     num_scans := 3;
     linear_bounds :=
       repeat {| min_x := -1; max_x := 1; min_y := -1; max_y := 1 |} 2 |}.

(** The pose [Match] writes for a selected candidate. *)
Definition refined_pose (initial_pose_estimate : Rigid2d)
    (best_candidate : Candidate2D) : Rigid2d :=
  {| translation :=
       (fst (translation initial_pose_estimate) + x best_candidate,
        snd (translation initial_pose_estimate) + y best_candidate);
     rotation :=
       Rotation2D_mul (rotation initial_pose_estimate)
         {| angle := orientation best_candidate |} |}.

(** The program points at which [Match] can stop once [pose_estimate] is
    known not to be null. *)
Definition Match_failure (f : failure) : Prop :=
  f = SearchParameters_precondition \/ enumeration_failure f \/
  scoring_failure f \/ f = dereference_end.

(** Search parameters without any rotation. *)
Definition window_no_rotation : SearchParameters :=
  {| num_angular_perturbations := 0;
     angular_perturbation_step_size := 1;
     resolution := 5 / 100;
     num_scans := 0;
     linear_bounds := [] |}.

Definition no_rotation_SearchParameters_new (linear_search_window
    angular_search_window : R) (point_cloud : scenario_PointCloud)
    (resolution : R) : option SearchParameters := Some window_no_rotation.

Definition window_3x3_SearchParameters_new (linear_search_window
    angular_search_window : R) (point_cloud : scenario_PointCloud)
    (resolution : R) : option SearchParameters := Some window_3x3.

(** A signed-distance grid nothing was inserted into: every weight is 0. *)
Definition unobserved_tsdf : Grid2D := Grid2D_TSDF2D (uniform_tsdf 1 0 0).

(** ** The scores with the cell arithmetic written out *)

(** "the grid's occupancy probability at the point's cell index shifted by
    (dx, dy)": for the point (px, py) the cell is (px + dx, py + dy). *)
Definition probabilities_at_shifted_cells (probability_grid : ProbabilityGrid)
    (discrete_scan : DiscreteScan2D) (dx dy : Z) : list R :=
  map (fun xy_index =>
         GetProbability probability_grid
           (fst xy_index + dx, snd xy_index + dy)%Z)
    discrete_scan.

(** For every point (px, py) of the scan, the value
    "(maxCorrespondenceCost - |signedDistance|) / maxCorrespondenceCost" and
    the weight of the cell (px + dx, py + dy). *)
Definition values_and_weights (tsdf : TSDF2D) (discrete_scan : DiscreteScan2D)
    (dx dy : Z) : list (R * R) :=
  map (fun xy_index =>
         let cell :=
           GetTSDAndWeight tsdf (fst xy_index + dx, snd xy_index + dy)%Z in
         ((GetMaxCorrespondenceCost tsdf - Rabs (fst cell))
          / GetMaxCorrespondenceCost tsdf,
          snd cell))
    discrete_scan.

(** A signed-distance grid with maximum correspondence cost 2 whose cells
    differ along x: the cell (x, y) holds the distance x, with weight 0 left
    of the y axis, 3 on it and 1 right of it. *)
Definition ramp_tsdf : TSDF2D :=
  {| TSDF2D_limits := {| MapLimits_resolution := 5 / 100 |};
     GetTSDAndWeight :=
       fun xy_index =>
         (IZR (fst xy_index),
          if (fst xy_index <? 0)%Z then 0
          else if (fst xy_index =? 0)%Z then 3 else 1);
     GetMaxCorrespondenceCost := 2 |}.

(** ** The stores of a call in the order in which they are made *)

(** Candidate by candidate in vector order; for each candidate the stores of
    its iteration, one after the other: the raw score (on a probability or
    signed-distance grid), then the raw score times the penalty factor. *)
Fixpoint stores_in_order (options_ : RealTimeCorrelativeScanMatcherOptions)
    (grid : Grid2D) (i : nat) (l : list (Candidate2D * R))
    : list store_event :=
  match l with
  | [] => []
  | (c, raw) :: l' =>
      stores_of grid i raw (raw * penalty options_ c)
      ++ stores_in_order options_ grid (S i) l'
  end.

(** The vector after the call: every candidate with its raw score times its
    penalty factor in the score field. *)
Definition with_final_scores (options_ : RealTimeCorrelativeScanMatcherOptions)
    (l : list (Candidate2D * R)) : list Candidate2D :=
  map (fun cr => set_score (fst cr) (snd cr * penalty options_ (fst cr))) l.

(** ** A scenario with several candidates

    A probability grid with a ridge (0.9) in the column x = 2, a slope (0.3)
    in the column x = 1 and 0.2 elsewhere; three rotations of 0.01 rad, each
    with the two x offsets 0 and 1; the scan of the middle rotation lies in
    the column x = 0, the scans of the two outer rotations in the column
    x = 1.  The six candidates have the raw scores 0.3, 0.9, 0.2, 0.3, 0.3
    and 0.9: the ridge is reached by the second and by the sixth candidate,
    which are turned by -0.01 and +0.01 rad and moved by one cell. *)
Definition ridge_grid : ProbabilityGrid :=
  {| ProbabilityGrid_limits := {| MapLimits_resolution := 5 / 100 |};
     GetProbability :=
       fun xy_index =>
         if (fst xy_index =? 2)%Z then 9 / 10
         else if (fst xy_index =? 1)%Z then 3 / 10 else 2 / 10 |}.

Definition ridge_window : SearchParameters :=
  {| num_angular_perturbations := 1;
     angular_perturbation_step_size := 1 / 100;
     resolution := 5 / 100;
     num_scans := 3;
     linear_bounds :=
       repeat {| min_x := 0; max_x := 1; min_y := 0; max_y := 0 |} 3 |}.

Definition ridge_scans : list DiscreteScan2D :=
  [ [(1, 0); (1, 1)]; [(0, 0); (0, 1)]; [(1, 0); (1, 1)] ]%Z.

Definition ridge_candidates : list Candidate2D :=
  map (candidate_of_triple ridge_window)
    [(0, 0, 0); (0, 1, 0); (1, 0, 0); (1, 1, 0); (2, 0, 0); (2, 1, 0)]%Z.

(** The second candidate (rotation index 0, one cell along x), the third
    (no displacement) and the sixth (rotation index 2, one cell along x). *)
Definition ridge_best : Candidate2D := Candidate2D_new 0 1 0 ridge_window.

Definition ridge_origin : Candidate2D := Candidate2D_new 1 0 0 ridge_window.

Definition ridge_twin : Candidate2D := Candidate2D_new 2 1 0 ridge_window.

Definition ridge_raw_scores : list R :=
  [3 / 10; 9 / 10; 2 / 10; 3 / 10; 3 / 10; 9 / 10].

Definition ridge_SearchParameters_new (linear_search_window
    angular_search_window : R) (point_cloud : scenario_PointCloud)
    (resolution : R) : option SearchParameters := Some ridge_window.

Definition ridge_GenerateRotatedScans (point_cloud : scenario_PointCloud)
    (search_parameters : SearchParameters) : list scenario_PointCloud :=
  [point_cloud; point_cloud; point_cloud].

Definition ridge_DiscretizeScans (l : MapLimits)
    (scans : list scenario_PointCloud) (initial_translation : R * R)
    : list DiscreteScan2D := ridge_scans.

Definition ridge_initial_pose : Rigid2d :=
  {| translation := (1 / 10, 2 / 10); rotation := {| angle := 3 / 10 |} |}.

Definition ridge_Match (grid : Grid2D) (pose_estimate : option Rigid2d)
    : outcome (Rigid2d * R) :=
  Match scenario_TransformPointCloud ridge_SearchParameters_new
    ridge_GenerateRotatedScans ridge_DiscretizeScans scenario_options
    ridge_initial_pose [(0, 0)] grid pose_estimate.

(** * Properties *)

Local Open Scope Z_scope.

(** ** The loops as folds *)

Lemma Zrange_empty lo hi : hi < lo -> Zrange lo hi = [].
Proof.
  intros H. unfold Zrange.
  replace (Z.to_nat (hi + 1 - lo)) with 0%nat by lia. reflexivity.
Qed.

Lemma Zrange_step lo hi : lo <= hi -> Zrange lo hi = lo :: Zrange (lo + 1) hi.
Proof.
  intros H. unfold Zrange.
  replace (Z.to_nat (hi + 1 - lo)) with (S (Z.to_nat (hi + 1 - (lo + 1))))
    by lia.
  cbn [seq map]. f_equal; [lia|].
  rewrite <- seq_shift, map_map.
  apply map_ext. intros k. lia.
Qed.

Lemma Zrange_length lo hi :
  Z.of_nat (length (Zrange lo hi)) = Z.max 0 (hi - lo + 1).
Proof. unfold Zrange. rewrite length_map, length_seq. lia. Qed.

Lemma Zrange_In lo hi k : In k (Zrange lo hi) <-> lo <= k <= hi.
Proof.
  unfold Zrange. rewrite in_map_iff. split.
  - intros (j & <- & Hj). apply in_seq in Hj. lia.
  - intros H. exists (Z.to_nat (k - lo)). split; [lia|].
    apply in_seq. lia.
Qed.

Lemma for_le_fold {A} (i hi : Z) (body : Z -> A -> A) (acc : A) :
  for_le i hi body acc = fold_left (fun a k => body k a) (Zrange i hi) acc.
Proof.
  funelim (for_le i hi body acc).
  - rewrite Zrange_step by assumption. cbn [fold_left]. assumption.
  - rewrite Zrange_empty by lia. reflexivity.
Qed.

Lemma skipn_nth_error {A} (l : list A) (k : nat) (a : A) :
  nth_error l k = Some a -> skipn k l = a :: skipn (S k) l.
Proof.
  revert k. induction l as [|b l IH]; intros [|k] H; try discriminate.
  - injection H as ->. reflexivity.
  - cbn in H. apply IH in H. exact H.
Qed.

Lemma at_index_Some {A} (v : list A) (i : Z) (a : A) :
  at_index v i = Some a <->
  0 <= i < Z.of_nat (length v) /\ nth_error v (Z.to_nat i) = Some a.
Proof.
  unfold at_index. destruct (i <? 0) eqn:Hi.
  - apply Z.ltb_lt in Hi. split; [discriminate | lia].
  - apply Z.ltb_ge in Hi. split.
    + intros H. split; [|exact H].
      assert (Z.to_nat i < length v)%nat
        by (apply nth_error_Some; congruence).
      lia.
    + intros [_ H]. exact H.
Qed.

Lemma at_index_None {A} (v : list A) (i : Z) :
  at_index v i = None <-> i < 0 \/ Z.of_nat (length v) <= i.
Proof.
  unfold at_index. destruct (i <? 0) eqn:Hi.
  - apply Z.ltb_lt in Hi. split; [lia | reflexivity].
  - apply Z.ltb_ge in Hi. rewrite nth_error_None. lia.
Qed.

Lemma for_scans_run {A} bounds i n (body : Z -> LinearBounds -> A -> A) acc :
  0 <= i <= n -> n <= Z.of_nat (length bounds) ->
  for_scans bounds i n body acc =
  Returns (fold_left (fun a p => body (fst p) (snd p) a)
             (indexed i (firstn (Z.to_nat (n - i))
                           (skipn (Z.to_nat i) bounds))) acc).
Proof.
  funelim (for_scans bounds i n body acc); intros Hi Hn.
  - replace (Z.to_nat (n - i)) with 0%nat by lia. reflexivity.
  - match goal with E0 : at_index _ _ = Some _ |- _ =>
      destruct (proj1 (at_index_Some _ _ _) E0) as [Hr E] end.
    rewrite (skipn_nth_error _ _ _ E).
    replace (Z.to_nat (n - i)) with (S (Z.to_nat (n - (i + 1)))) by lia.
    cbn [firstn indexed fold_left fst snd].
    replace (S (Z.to_nat i)) with (Z.to_nat (i + 1)) by lia.
    match goal with IH : _ -> _ -> for_scans _ _ _ _ _ = _ |- _ =>
      apply IH; lia end.
  - match goal with E : at_index _ _ = None |- _ =>
      pose proof (proj1 (at_index_None _ _) E); lia end.
Qed.

Lemma for_scans_overrun {A} bounds i n (body : Z -> LinearBounds -> A -> A)
    acc :
  0 <= i <= Z.of_nat (length bounds) ->
  n < i \/ Z.of_nat (length bounds) < n ->
  for_scans bounds i n body acc = Aborts index_out_of_range.
Proof.
  funelim (for_scans bounds i n body acc); intros Hi Hn.
  - lia.
  - match goal with E0 : at_index _ _ = Some _ |- _ =>
      destruct (proj1 (at_index_Some _ _ _) E0) as [Hr E] end.
    match goal with IH : _ -> _ -> for_scans _ _ _ _ _ = _ |- _ =>
      apply IH; lia end.
  - reflexivity.
Qed.

(** ** GenerateExhaustiveSearchCandidates: what the two loops compute *)

Lemma fold_left_count l acc :
  fold_left (fun a p => count_body (fst p) (snd p) a) l acc =
  acc + fold_right Z.add 0 (map (fun p => num_linear_candidates (snd p)) l).
Proof.
  revert acc. induction l as [|p l IH]; intros acc; cbn [fold_left map fold_right].
  - lia.
  - rewrite IH. unfold count_body, num_linear_candidates. lia.
Qed.

Lemma fold_left_append {K B} (body : K -> list B -> list B)
    (f : K -> list B) (l : list K) (acc : list B) :
  (forall k a, body k a = a ++ f k) ->
  fold_left (fun a k => body k a) l acc = acc ++ flat_map f l.
Proof.
  intros Hbody. revert acc.
  induction l as [|k l IH]; intros acc; cbn [fold_left flat_map].
  - now rewrite app_nil_r.
  - rewrite IH, Hbody, app_assoc. reflexivity.
Qed.

Lemma map_of_flat_map {A B C} (g : B -> C) (f : A -> list B) (l : list A) :
  map g (flat_map f l) = flat_map (fun a => map g (f a)) l.
Proof.
  induction l as [|a l IH]; cbn [flat_map map]; [reflexivity|].
  now rewrite map_app, IH.
Qed.

Lemma flat_map_singleton {A B} (f : A -> B) (l : list A) :
  flat_map (fun a => [f a]) l = map f l.
Proof.
  induction l as [|a l IH]; cbn [flat_map map app]; congruence.
Qed.

Lemma enumerate_body_spec search_parameters scan_index b candidates :
  enumerate_body search_parameters scan_index b candidates =
  candidates ++
  map (fun xy => Candidate2D_new scan_index (fst xy) (snd xy)
                   search_parameters) (linear_offsets b).
Proof.
  unfold enumerate_body, linear_offsets.
  rewrite for_le_fold.
  rewrite (fold_left_append _
            (fun x_index_offset =>
               map (fun y_index_offset =>
                      Candidate2D_new scan_index x_index_offset
                        y_index_offset search_parameters)
                 (Zrange (min_y b) (max_y b)))).
  - f_equal. rewrite map_of_flat_map.
    apply flat_map_ext. intros k. now rewrite map_map.
  - intros k a. rewrite for_le_fold.
    rewrite (fold_left_append _
              (fun y_index_offset =>
                 [Candidate2D_new scan_index k y_index_offset
                    search_parameters])).
    + now rewrite flat_map_singleton.
    + reflexivity.
Qed.

Lemma count_loop_spec search_parameters :
  scans_in_range search_parameters ->
  for_scans (linear_bounds search_parameters) 0
    (num_scans search_parameters) count_body 0
  = Returns (precomputed_total search_parameters).
Proof.
  intros Hr. rewrite for_scans_run by (unfold scans_in_range in Hr; lia).
  rewrite fold_left_count. cbn [Z.to_nat skipn].
  rewrite Z.sub_0_r. reflexivity.
Qed.

Lemma enumerate_loop_spec search_parameters candidates :
  scans_in_range search_parameters ->
  for_scans (linear_bounds search_parameters) 0
    (num_scans search_parameters) (enumerate_body search_parameters)
    candidates
  = Returns (candidates ++
             map (candidate_of_triple search_parameters)
               (triples search_parameters)).
Proof.
  intros Hr. rewrite for_scans_run by (unfold scans_in_range in Hr; lia).
  cbn [Z.to_nat skipn]. rewrite Z.sub_0_r.
  rewrite (fold_left_append _
            (fun p => map (fun xy => Candidate2D_new (fst p) (fst xy) (snd xy)
                                       search_parameters)
                        (linear_offsets (snd p)))).
  - unfold triples, rotations. do 2 f_equal.
    rewrite map_of_flat_map.
    apply flat_map_ext. intros p. now rewrite map_map.
  - intros p a. apply enumerate_body_spec.
Qed.

Lemma loops_out_of_range {A} search_parameters
    (body : Z -> LinearBounds -> A -> A) acc :
  ~ scans_in_range search_parameters ->
  for_scans (linear_bounds search_parameters) 0
    (num_scans search_parameters) body acc = Aborts index_out_of_range.
Proof.
  intros Hr. apply for_scans_overrun; unfold scans_in_range in Hr; lia.
Qed.

Lemma scans_in_range_dec search_parameters :
  {scans_in_range search_parameters} + {~ scans_in_range search_parameters}.
Proof.
  unfold scans_in_range.
  destruct (Z_le_dec 0 (num_scans search_parameters));
  destruct (Z_le_dec (num_scans search_parameters)
              (Z.of_nat (length (linear_bounds search_parameters))));
  (left; lia) || (right; lia).
Qed.

(** The whole function, case by case. *)
Lemma GenerateExhaustiveSearchCandidates_cases search_parameters :
  let produced :=
    map (candidate_of_triple search_parameters) (triples search_parameters) in
  (~ scans_in_range search_parameters /\
   GenerateExhaustiveSearchCandidates search_parameters
   = Aborts index_out_of_range) \/
  (scans_in_range search_parameters /\
   precomputed_total search_parameters < 0 /\
   GenerateExhaustiveSearchCandidates search_parameters
   = Aborts length_error) \/
  (scans_in_range search_parameters /\
   0 <= precomputed_total search_parameters /\
   Z.of_nat (length produced) <> precomputed_total search_parameters /\
   GenerateExhaustiveSearchCandidates search_parameters
   = Aborts CHECK_EQ_num_candidates) \/
  (scans_in_range search_parameters /\
   Z.of_nat (length produced) = precomputed_total search_parameters /\
   GenerateExhaustiveSearchCandidates search_parameters = Returns produced).
Proof.
  intros produced. unfold GenerateExhaustiveSearchCandidates.
  destruct (scans_in_range_dec search_parameters) as [Hr|Hr].
  - right. rewrite count_loop_spec by assumption. cbn [bind].
    unfold reserve.
    destruct (precomputed_total search_parameters <? 0) eqn:Hneg.
    + apply Z.ltb_lt in Hneg. left. auto.
    + apply Z.ltb_ge in Hneg. right. cbn [bind].
      rewrite enumerate_loop_spec by assumption. cbn [bind app].
      fold produced. unfold CHECK_EQ.
      destruct (Z.of_nat (length produced)
                =? precomputed_total search_parameters) eqn:Heq.
      * apply Z.eqb_eq in Heq. right. auto.
      * apply Z.eqb_neq in Heq. left. auto.
  - left. split; [assumption|].
    rewrite loops_out_of_range by assumption. reflexivity.
Qed.

(** ** The enumerated triples: membership and order *)

Lemma indexed_In i l s b :
  In (s, b) (indexed i l) <->
  i <= s /\ nth_error l (Z.to_nat (s - i)) = Some b.
Proof.
  revert i. induction l as [|a l IH]; intros i; cbn [indexed In].
  - split; [tauto|]. intros [_ H]. now destruct (Z.to_nat (s - i)).
  - rewrite IH. split.
    + intros [H | [Hle H]].
      * injection H as -> ->. split; [lia|].
        now replace (Z.to_nat (s - s)) with 0%nat by lia.
      * split; [lia|].
        replace (Z.to_nat (s - i)) with (S (Z.to_nat (s - (i + 1)))) by lia.
        exact H.
    + intros [Hle H]. destruct (Z.eq_dec i s) as [->|Hne].
      * left. replace (Z.to_nat (s - s)) with 0%nat in H by lia.
        cbn in H. congruence.
      * right. split; [lia|].
        replace (Z.to_nat (s - i)) with (S (Z.to_nat (s - (i + 1)))) in H
          by lia.
        exact H.
Qed.

Lemma rotations_In search_parameters s b :
  In (s, b) (rotations search_parameters) <->
  0 <= s < num_scans search_parameters /\
  at_index (linear_bounds search_parameters) s = Some b.
Proof.
  unfold rotations. rewrite indexed_In, Z.sub_0_r, nth_error_firstn.
  rewrite at_index_Some. split.
  - intros [Hs H]. destruct (Nat.ltb_spec (Z.to_nat s)
                               (Z.to_nat (num_scans search_parameters)));
      [|discriminate].
    assert (Z.to_nat s < length (linear_bounds search_parameters))%nat
      by (apply nth_error_Some; congruence).
    repeat split; try lia. exact H.
  - intros [Hs [Hr H]]. split; [lia|].
    destruct (Nat.ltb_spec (Z.to_nat s)
                (Z.to_nat (num_scans search_parameters))); [exact H | lia].
Qed.

Lemma linear_offsets_In b x_index_offset y_index_offset :
  In (x_index_offset, y_index_offset) (linear_offsets b) <->
  min_x b <= x_index_offset <= max_x b /\
  min_y b <= y_index_offset <= max_y b.
Proof.
  unfold linear_offsets. rewrite in_flat_map. split.
  - intros (k & Hk & H). apply in_map_iff in H.
    destruct H as (j & Hj & Hin). injection Hj as <- <-.
    apply Zrange_In in Hk. apply Zrange_In in Hin. tauto.
  - intros [Hx Hy]. exists x_index_offset. split; [now apply Zrange_In|].
    apply in_map. now apply Zrange_In.
Qed.

Lemma triples_In search_parameters s x_index_offset y_index_offset :
  In (s, x_index_offset, y_index_offset) (triples search_parameters) <->
  0 <= s < num_scans search_parameters /\
  exists b, at_index (linear_bounds search_parameters) s = Some b /\
            min_x b <= x_index_offset <= max_x b /\
            min_y b <= y_index_offset <= max_y b.
Proof.
  unfold triples. rewrite in_flat_map. split.
  - intros ([s' b] & Hp & H). apply in_map_iff in H.
    destruct H as ([x' y'] & Heq & Hin). cbn [fst snd] in *.
    injection Heq as <- <- <-.
    apply rotations_In in Hp. apply linear_offsets_In in Hin.
    destruct Hp as [Hs Hb]. split; [exact Hs|]. exists b. tauto.
  - intros (Hs & b & Hb & Hx & Hy). exists (s, b). split.
    + apply rotations_In. tauto.
    + apply in_map_iff. exists (x_index_offset, y_index_offset).
      split; [reflexivity|]. apply linear_offsets_In. tauto.
Qed.

Lemma StronglySorted_app {A} (R : A -> A -> Prop) l1 l2 :
  StronglySorted R l1 -> StronglySorted R l2 ->
  (forall a b, In a l1 -> In b l2 -> R a b) ->
  StronglySorted R (l1 ++ l2).
Proof.
  intros H1 H2 Hx. induction H1 as [|a l1 Hs IH Hf]; cbn [app].
  - exact H2.
  - constructor.
    + apply IH. intros; apply Hx; cbn; auto.
    + apply Forall_app. split; [exact Hf|].
      apply Forall_forall. intros b Hb. apply Hx; cbn; auto.
Qed.

Lemma StronglySorted_map {A B} (R : A -> A -> Prop) (R' : B -> B -> Prop)
    (f : A -> B) l :
  (forall a b, R a b -> R' (f a) (f b)) ->
  StronglySorted R l -> StronglySorted R' (map f l).
Proof.
  intros Hf H. induction H as [|a l Hs IH Hall]; cbn [map]; constructor.
  - exact IH.
  - apply Forall_map. revert Hall. apply Forall_impl. intros b. apply Hf.
Qed.

Lemma StronglySorted_flat_map {K A} (RK : K -> K -> Prop)
    (R : A -> A -> Prop) (f : K -> list A) l :
  StronglySorted RK l ->
  (forall k, In k l -> StronglySorted R (f k)) ->
  (forall k k' a b, RK k k' -> In a (f k) -> In b (f k') -> R a b) ->
  StronglySorted R (flat_map f l).
Proof.
  intros H Hin Hx. induction H as [|k l Hs IH Hall]; cbn [flat_map].
  - constructor.
  - apply StronglySorted_app.
    + apply Hin. cbn; auto.
    + apply IH. intros; apply Hin; cbn; auto.
    + intros a b Ha Hb. apply in_flat_map in Hb.
      destruct Hb as (k' & Hk' & Hb).
      rewrite Forall_forall in Hall. eauto.
Qed.

Lemma Zrange_sorted lo hi : StronglySorted Z.lt (Zrange lo hi).
Proof.
  remember (Z.to_nat (hi + 1 - lo)) as n eqn:Hn. revert lo Hn.
  induction n as [|n IH]; intros lo Hn.
  - rewrite Zrange_empty by lia. constructor.
  - rewrite Zrange_step by lia. constructor.
    + apply IH. lia.
    + apply Forall_forall. intros k Hk. apply Zrange_In in Hk. lia.
Qed.

Lemma linear_offsets_sorted b : StronglySorted offsets_lt (linear_offsets b).
Proof.
  unfold linear_offsets.
  apply StronglySorted_flat_map with (RK := Z.lt).
  - apply Zrange_sorted.
  - intros k _. apply StronglySorted_map with (R := Z.lt).
    + intros y1 y2 Hy. right. cbn. lia.
    + apply Zrange_sorted.
  - intros k k' a c Hk Ha Hc.
    apply in_map_iff in Ha. destruct Ha as (? & <- & _).
    apply in_map_iff in Hc. destruct Hc as (? & <- & _).
    left. exact Hk.
Qed.

Lemma indexed_sorted i l :
  StronglySorted (fun p q : Z * LinearBounds => fst p < fst q) (indexed i l).
Proof.
  revert i. induction l as [|b l IH]; intros i; cbn [indexed]; constructor.
  - apply IH.
  - apply Forall_forall. intros [s c] Hin. apply indexed_In in Hin.
    cbn. lia.
Qed.

Lemma triples_sorted search_parameters :
  StronglySorted triple_lt (triples search_parameters).
Proof.
  unfold triples.
  apply StronglySorted_flat_map
    with (RK := fun p q : Z * LinearBounds => fst p < fst q).
  - apply indexed_sorted.
  - intros p _. apply StronglySorted_map with (R := offsets_lt).
    + intros a c Hac. right. cbn. split; [reflexivity | exact Hac].
    + apply linear_offsets_sorted.
  - intros p q a c Hpq Ha Hc.
    apply in_map_iff in Ha. destruct Ha as (? & <- & _).
    apply in_map_iff in Hc. destruct Hc as (? & <- & _).
    left. exact Hpq.
Qed.

Lemma triple_lt_irrefl t : ~ triple_lt t t.
Proof. unfold triple_lt, offsets_lt. cbn. lia. Qed.

Lemma StronglySorted_NoDup {A} (R : A -> A -> Prop) l :
  (forall a, ~ R a a) -> StronglySorted R l -> NoDup l.
Proof.
  intros Hirr H. induction H as [|a l Hs IH Hall]; constructor; auto.
  intros Hin. rewrite Forall_forall in Hall. exact (Hirr a (Hall a Hin)).
Qed.

(** ** The number of enumerated triples *)

Lemma flat_map_length_sum {A B} (f : A -> list B) l :
  Z.of_nat (length (flat_map f l)) =
  fold_right Z.add 0 (map (fun a => Z.of_nat (length (f a))) l).
Proof.
  induction l as [|a l IH]; cbn [flat_map map fold_right]; [reflexivity|].
  rewrite length_app. lia.
Qed.

Lemma linear_offsets_length b :
  Z.of_nat (length (linear_offsets b)) =
  Z.max 0 (max_x b - min_x b + 1) * Z.max 0 (max_y b - min_y b + 1).
Proof.
  unfold linear_offsets. rewrite flat_map_length_sum.
  rewrite <- Zrange_length with (lo := min_x b).
  induction (Zrange (min_x b) (max_x b)) as [|k l IH];
    cbn [map fold_right length]; [reflexivity|].
  rewrite IH, length_map, Zrange_length. lia.
Qed.

Lemma triples_length search_parameters :
  Z.of_nat (length (triples search_parameters)) =
  fold_right Z.add 0
    (map (fun p => Z.of_nat (length (linear_offsets (snd p))))
       (rotations search_parameters)).
Proof.
  unfold triples. rewrite flat_map_length_sum.
  f_equal. apply map_ext. intros p. now rewrite length_map.
Qed.

Lemma triples_length_ordered search_parameters :
  Forall (fun p => bounds_ordered (snd p)) (rotations search_parameters) ->
  Z.of_nat (length (triples search_parameters)) =
  precomputed_total search_parameters.
Proof.
  rewrite triples_length. unfold precomputed_total.
  induction (rotations search_parameters) as [|p l IH];
    intros H; cbn [map fold_right]; [reflexivity|].
  inversion H as [|? ? Hp Hl]; subst. rewrite (IH Hl). f_equal.
  rewrite linear_offsets_length. unfold num_linear_candidates.
  destruct Hp. lia.
Qed.

(** ** Candidate count (claim C5) *)

(** C5.  Whenever [GenerateExhaustiveSearchCandidates] returns, the number of
    candidates it returns is the sum over the rotation indices of
    (max_x - min_x + 1) x (max_y - min_y + 1), which is also what its first
    loop computes.  When the enumeration loops produce another number of
    candidates the call does not return: it stops at
    [CHECK_EQ(candidates.size(), num_candidates)], or already in [reserve]
    when the total is negative.  For a window with one ordered bound per
    rotation index the call returns. *)
Theorem GenerateExhaustiveSearchCandidates_count :
  forall search_parameters : SearchParameters,
    (forall candidates,
        GenerateExhaustiveSearchCandidates search_parameters
        = Returns candidates ->
        Z.of_nat (length candidates) = precomputed_total search_parameters /\
        for_scans (linear_bounds search_parameters) 0
          (num_scans search_parameters) count_body 0
        = Returns (precomputed_total search_parameters)) /\
    (forall produced,
        for_scans (linear_bounds search_parameters) 0
          (num_scans search_parameters) (enumerate_body search_parameters) []
        = Returns produced ->
        Z.of_nat (length produced) <> precomputed_total search_parameters ->
        fatal (GenerateExhaustiveSearchCandidates search_parameters) /\
        (0 <= precomputed_total search_parameters ->
         GenerateExhaustiveSearchCandidates search_parameters
         = Aborts CHECK_EQ_num_candidates) /\
        (precomputed_total search_parameters < 0 ->
         GenerateExhaustiveSearchCandidates search_parameters
         = Aborts length_error)) /\
    (window_well_formed search_parameters ->
     exists candidates,
       GenerateExhaustiveSearchCandidates search_parameters
       = Returns candidates).
Proof.
  intros search_parameters.
  pose proof (GenerateExhaustiveSearchCandidates_cases search_parameters)
    as Hcases. cbv zeta in Hcases.
  repeat split.
  - destruct Hcases as [[_ E]|[(_ & _ & E)|[(_ & _ & _ & E)|(_ & Hlen & E)]]];
      rewrite E in H; try discriminate.
    injection H as <-. exact Hlen.
  - apply count_loop_spec.
    destruct Hcases as [[_ E]|[(_ & _ & E)|[(_ & _ & _ & E)|(Hr & _ & E)]]];
      rewrite E in H; try discriminate.
    exact Hr.
  - destruct Hcases as [[Hr E]|[(Hr & _ & E)|[(Hr & _ & _ & E)|(Hr & Hlen & E)]]];
      try (rewrite E; exact I).
    rewrite enumerate_loop_spec in H by assumption.
    injection H as <-. contradiction.
  - intros Hpos.
    destruct Hcases as [[Hr E]|[(Hr & Hneg & E)|[(Hr & _ & _ & E)|(Hr & Hlen & E)]]].
    + rewrite loops_out_of_range in H by assumption. discriminate.
    + lia.
    + exact E.
    + rewrite enumerate_loop_spec in H by assumption.
      injection H as <-. contradiction.
  - intros Hneg.
    destruct Hcases as [[Hr E]|[(Hr & _ & E)|[(Hr & Hpos & _ & E)|(Hr & Hlen & E)]]].
    + rewrite loops_out_of_range in H by assumption. discriminate.
    + exact E.
    + lia.
    + rewrite enumerate_loop_spec in H by assumption.
      injection H as <-. contradiction.
  - intros [Hr Hord].
    destruct Hcases as [[Hn _]|[(_ & Hneg & _)|[(_ & _ & Hne & _)|(_ & _ & E)]]].
    + contradiction.
    + exfalso. rewrite <- (triples_length_ordered search_parameters Hord) in Hneg.
      lia.
    + exfalso. apply Hne. rewrite length_map.
      now apply triples_length_ordered.
    + eauto.
Qed.

Lemma GenerateExhaustiveSearchCandidates_count_witness :
  (exists candidates,
      GenerateExhaustiveSearchCandidates window_3x3 = Returns candidates /\
      Z.of_nat (length candidates) = 9) /\
  GenerateExhaustiveSearchCandidates window_inverted
  = Aborts CHECK_EQ_num_candidates.
Proof.
  split.
  - destruct (GenerateExhaustiveSearchCandidates_count window_3x3)
      as (Hlen & _ & Hwf).
    destruct Hwf as [candidates Hc].
    + split.
      * unfold scans_in_range. cbn. lia.
      * repeat constructor; cbn; lia.
    + exists candidates. split; [exact Hc|].
      destruct (Hlen candidates Hc) as [-> _]. reflexivity.
  - destruct (GenerateExhaustiveSearchCandidates_count window_inverted)
      as (_ & Hmis & _).
    destruct (Hmis []) as (_ & Hcheck & _).
    + reflexivity.
    + vm_compute. discriminate.
    + apply Hcheck. vm_compute. discriminate.
Defined.

(** ** Enumeration order (claim C6) *)

(** C6.  When [GenerateExhaustiveSearchCandidates] returns, the candidates
    are, in this order, the candidates built from the triples
    (scan_index, x_index_offset, y_index_offset) of the search window: a
    triple is enumerated exactly when its scan index is a rotation index and
    its offsets lie within the bounds of that rotation; the triples come in
    strictly increasing lexicographic order (scan index, then x offset, then
    y offset), so each occurs once; and every candidate has x and y equal to
    its offsets times the resolution and the orientation of its scan
    index. *)
Theorem GenerateExhaustiveSearchCandidates_enumeration :
  forall (search_parameters : SearchParameters)
         (candidates : list Candidate2D),
    GenerateExhaustiveSearchCandidates search_parameters
    = Returns candidates ->
    candidates = map (candidate_of_triple search_parameters)
                   (triples search_parameters) /\
    map index_triple candidates = triples search_parameters /\
    (forall s x_offset y_offset,
        In (s, x_offset, y_offset) (map index_triple candidates) <->
        0 <= s < num_scans search_parameters /\
        exists b, at_index (linear_bounds search_parameters) s = Some b /\
                  min_x b <= x_offset <= max_x b /\
                  min_y b <= y_offset <= max_y b) /\
    StronglySorted triple_lt (map index_triple candidates) /\
    NoDup (map index_triple candidates) /\
    Forall (fun c =>
              x c = (IZR (x_index_offset c) * resolution search_parameters)%R /\
              y c = (IZR (y_index_offset c) * resolution search_parameters)%R /\
              orientation c = scan_rotation search_parameters (scan_index c))
      candidates.
Proof.
  intros search_parameters candidates H.
  assert (Hc : candidates = map (candidate_of_triple search_parameters)
                              (triples search_parameters)).
  { destruct (GenerateExhaustiveSearchCandidates_cases search_parameters)
      as [[_ E]|[(_ & _ & E)|[(_ & _ & _ & E)|(_ & _ & E)]]];
      rewrite E in H; try discriminate.
    now injection H as <-. }
  assert (Ht : map index_triple candidates = triples search_parameters).
  { rewrite Hc, map_map. rewrite <- (map_id (triples search_parameters)) at 2.
    apply map_ext. now intros [[s a] b]. }
  split; [exact Hc|]. split; [exact Ht|]. rewrite Ht.
  split; [apply triples_In|].
  split; [apply triples_sorted|].
  split.
  - apply StronglySorted_NoDup with (R := triple_lt).
    + apply triple_lt_irrefl.
    + apply triples_sorted.
  - rewrite Hc. apply Forall_map. apply Forall_forall.
    intros [[s a] b] _. cbn. auto.
Qed.

Lemma GenerateExhaustiveSearchCandidates_enumeration_witness :
  exists candidates,
    GenerateExhaustiveSearchCandidates window_3x3 = Returns candidates /\
    map index_triple candidates =
    [ (0, -1, -1); (0, -1, 0); (0, -1, 1);
      (0, 0, -1); (0, 0, 0); (0, 0, 1);
      (0, 1, -1); (0, 1, 0); (0, 1, 1) ].
Proof.
  exists (map (candidate_of_triple window_3x3) (triples window_3x3)).
  assert (E : GenerateExhaustiveSearchCandidates window_3x3
              = Returns (map (candidate_of_triple window_3x3)
                           (triples window_3x3)))
    by reflexivity.
  split; [exact E|].
  destruct (GenerateExhaustiveSearchCandidates_enumeration window_3x3 _ E)
    as (_ & -> & _).
  reflexivity.
Defined.

Local Open Scope R_scope.

(** ** The accumulation loops of ComputeCandidateScore *)

Lemma probability_loop probability_grid dx dy discrete_scan acc :
  fold_left (probability_step probability_grid dx dy) discrete_scan acc =
  acc + Rsum (queried_probabilities probability_grid discrete_scan dx dy).
Proof.
  revert acc. induction discrete_scan as [|xy l IH]; intros acc;
    cbn [fold_left queried_probabilities map Rsum fold_right].
  - lra.
  - rewrite IH. unfold probability_step, queried_probabilities, Rsum. lra.
Qed.

Lemma tsdf_loop tsdf dx dy discrete_scan acc :
  fold_left (tsdf_step tsdf dx dy) discrete_scan acc =
  (fst acc + Rsum (map (fun vw => fst vw * snd vw)
                     (tsdf_samples tsdf discrete_scan dx dy)),
   snd acc + Rsum (map snd (tsdf_samples tsdf discrete_scan dx dy))).
Proof.
  revert acc. induction discrete_scan as [|xy l IH]; intros [s w];
    cbn [fold_left tsdf_samples map Rsum fold_right fst snd].
  - f_equal; lra.
  - rewrite IH. unfold tsdf_step, tsdf_samples, Rsum.
    cbn [fst snd]. f_equal; lra.
Qed.

Lemma tsdf_loop_logged tsdf dx dy discrete_scan acc :
  fold_left (tsdf_step_logged tsdf dx dy) discrete_scan acc
  = (fold_left (tsdf_step tsdf dx dy) discrete_scan (fst acc),
     snd acc
     ++ repeat (GetMaxCorrespondenceCost tsdf) (length discrete_scan)).
Proof.
  revert acc. induction discrete_scan as [|xy l IH]; intros [sw log];
    cbn [fold_left length repeat fst snd].
  - now rewrite app_nil_r.
  - rewrite IH. unfold tsdf_step_logged. cbn [fst snd].
    now rewrite <- app_assoc.
Qed.

Lemma ComputeCandidateScore_TSDF2D_run_unfold tsdf discrete_scan dx dy :
  ComputeCandidateScore_TSDF2D_run tsdf discrete_scan dx dy
  = let acc := fold_left (tsdf_step tsdf dx dy) discrete_scan (0, 0) in
    let divisors :=
      repeat (GetMaxCorrespondenceCost tsdf) (length discrete_scan) in
    if Req_dec_T (snd acc) 0 then (Returns 0, divisors)
    else
      ((CHECK_GE CHECK_GE_candidate_score (fst acc / snd acc) 0 ;;;
        Returns (fst acc / snd acc))%outcome,
       divisors ++ [snd acc]).
Proof.
  unfold ComputeCandidateScore_TSDF2D_run. rewrite tsdf_loop_logged.
  cbn [fst snd app]. reflexivity.
Qed.

Lemma ComputeCandidateScore_TSDF2D_unfold tsdf discrete_scan dx dy :
  ComputeCandidateScore_TSDF2D tsdf discrete_scan dx dy
  = let acc := fold_left (tsdf_step tsdf dx dy) discrete_scan (0, 0) in
    if Req_dec_T (snd acc) 0 then Returns 0
    else
      (CHECK_GE CHECK_GE_candidate_score (fst acc / snd acc) 0 ;;;
       Returns (fst acc / snd acc))%outcome.
Proof.
  unfold ComputeCandidateScore_TSDF2D.
  rewrite ComputeCandidateScore_TSDF2D_run_unfold. cbv zeta.
  destruct (Req_dec_T
              (snd (fold_left (tsdf_step tsdf dx dy) discrete_scan (0, 0))) 0);
    reflexivity.
Qed.

Lemma ComputeCandidateScore_ProbabilityGrid_cases probability_grid
    discrete_scan dx dy :
  let m := mean (queried_probabilities probability_grid discrete_scan dx dy) in
  (0 < m /\
   ComputeCandidateScore_ProbabilityGrid probability_grid discrete_scan dx dy
   = Returns m) \/
  (~ 0 < m /\
   ComputeCandidateScore_ProbabilityGrid probability_grid discrete_scan dx dy
   = Aborts CHECK_GT_candidate_score).
Proof.
  intros m. unfold ComputeCandidateScore_ProbabilityGrid.
  rewrite probability_loop, Rplus_0_l.
  replace (length discrete_scan)
    with (length (queried_probabilities probability_grid discrete_scan dx dy))
    by apply length_map.
  fold (mean (queried_probabilities probability_grid discrete_scan dx dy)).
  fold m. unfold CHECK_GT.
  destruct (Rlt_dec 0 m); cbn [bind]; auto.
Qed.

Lemma ComputeCandidateScore_TSDF2D_cases tsdf discrete_scan dx dy :
  let samples := tsdf_samples tsdf discrete_scan dx dy in
  (summed_weight tsdf discrete_scan dx dy = 0 /\
   ComputeCandidateScore_TSDF2D tsdf discrete_scan dx dy = Returns 0) \/
  (summed_weight tsdf discrete_scan dx dy <> 0 /\
   0 <= weighted_average samples /\
   ComputeCandidateScore_TSDF2D tsdf discrete_scan dx dy
   = Returns (weighted_average samples)) \/
  (summed_weight tsdf discrete_scan dx dy <> 0 /\
   weighted_average samples < 0 /\
   ComputeCandidateScore_TSDF2D tsdf discrete_scan dx dy
   = Aborts CHECK_GE_candidate_score).
Proof.
  intros samples. rewrite ComputeCandidateScore_TSDF2D_unfold. cbv zeta.
  rewrite tsdf_loop. cbn [fst snd]. rewrite !Rplus_0_l.
  fold samples. fold (weighted_average samples).
  change (Rsum (map snd samples)) with (summed_weight tsdf discrete_scan dx dy).
  destruct (Req_dec_T (summed_weight tsdf discrete_scan dx dy) 0) as [E|E].
  - left. auto.
  - right. unfold CHECK_GE.
    destruct (Rle_dec 0 (weighted_average samples)) as [Hle|Hle]; cbn [bind].
    + left. auto.
    + right. repeat split; auto. lra.
Qed.

Lemma Rsum_nonneg l : Forall (fun r => 0 <= r) l -> 0 <= Rsum l.
Proof.
  induction 1 as [|r l Hr _ IH]; cbn [Rsum fold_right]; [lra|].
  unfold Rsum in IH. lra.
Qed.

Lemma Rsum_constant p l : Forall (fun r => r = p) l -> Rsum l = INR (length l) * p.
Proof.
  induction 1 as [|r l Hr _ IH]; cbn [Rsum fold_right length].
  - cbn. lra.
  - unfold Rsum in IH. rewrite IH, Hr, S_INR. lra.
Qed.

(** ** Probability-grid score (claim C2) *)

Lemma INR_length_zero {A} (l : list A) : INR (length l) = 0 <-> l = [].
Proof.
  destruct l as [|a l]; cbn [length].
  - split; reflexivity.
  - split; [|discriminate]. intros H.
    pose proof (pos_INR (length l)). rewrite S_INR in H. lra.
Qed.

Lemma mean_constant p l : l <> [] -> Forall (fun r => r = p) l -> mean l = p.
Proof.
  intros Hne Hall. unfold mean. rewrite (Rsum_constant p l Hall).
  field. now rewrite INR_length_zero.
Qed.

Lemma queried_probabilities_at_shifted_cells probability_grid discrete_scan
    dx dy :
  queried_probabilities probability_grid discrete_scan dx dy
  = probabilities_at_shifted_cells probability_grid discrete_scan dx dy.
Proof.
  unfold queried_probabilities, probabilities_at_shifted_cells.
  apply map_ext. intros [px py]. reflexivity.
Qed.

(** C2.  The probability-grid overload of [ComputeCandidateScore] computes
    the arithmetic mean, over the points (px, py) of the scan, of the
    probability of the cell (px + dx, py + dy); the mean is checked to be
    strictly positive: the call returns it when it is, and stops at
    [CHECK_GT(candidate_score, 0.f)] otherwise.  When the scan is not empty
    and every cell (px + dx, py + dy) holds the same probability p in
    (0, 1), the call returns p. *)
Theorem ComputeCandidateScore_ProbabilityGrid_mean :
  forall (probability_grid : ProbabilityGrid)
         (discrete_scan : DiscreteScan2D) (dx dy : Z),
    let m :=
      mean (probabilities_at_shifted_cells probability_grid discrete_scan
              dx dy) in
    (0 < m ->
     ComputeCandidateScore_ProbabilityGrid probability_grid discrete_scan
       dx dy = Returns m) /\
    (~ 0 < m ->
     ComputeCandidateScore_ProbabilityGrid probability_grid discrete_scan
       dx dy = Aborts CHECK_GT_candidate_score) /\
    (forall p,
        discrete_scan <> [] ->
        0 < p < 1 ->
        (forall px py,
            In (px, py) discrete_scan ->
            GetProbability probability_grid (px + dx, py + dy)%Z = p) ->
        ComputeCandidateScore_ProbabilityGrid probability_grid discrete_scan
          dx dy = Returns p).
Proof.
  intros probability_grid discrete_scan dx dy m.
  assert (Hconst : forall p,
             discrete_scan <> [] ->
             (forall px py,
                 In (px, py) discrete_scan ->
                 GetProbability probability_grid (px + dx, py + dy)%Z = p) ->
             m = p).
  { intros p Hne Hall. apply mean_constant.
    - intros Hnil. apply map_eq_nil in Hnil. contradiction.
    - apply Forall_map. apply Forall_forall. intros [px py]. apply Hall. }
  pose proof (ComputeCandidateScore_ProbabilityGrid_cases probability_grid
                discrete_scan dx dy) as Hcases.
  cbv zeta in Hcases.
  rewrite queried_probabilities_at_shifted_cells in Hcases.
  fold m in Hcases. destruct Hcases as [[Hm E]|[Hm E]].
  - split; [auto|]. split; [intros; contradiction|].
    intros p Hne Hp Hall. rewrite E. f_equal. now apply Hconst.
  - split; [intros; contradiction|]. split; [auto|].
    intros p Hne Hp Hall. exfalso. apply Hm.
    rewrite (Hconst p Hne Hall). lra.
Qed.

Ltac mean_eval :=
  unfold mean, Rsum, probabilities_at_shifted_cells;
  cbn [map fold_right length fst snd GetProbability two_level_grid
       half_empty_grid uniform_grid Z.add Z.ltb Z.compare Z.pos_sub
       Pos.add Pos.succ Pos.pred_double Z.succ_double Z.pred_double
       Z.double Z.opp INR].

Lemma ComputeCandidateScore_ProbabilityGrid_mean_witness :
  ComputeCandidateScore_ProbabilityGrid two_level_grid
    [(-1, 0); (0, 0); (-2, 3); (1, 1)]%Z 1 0 = Returns (7 / 10) /\
  ComputeCandidateScore_ProbabilityGrid two_level_grid
    [(-1, 0); (0, 0); (-2, 3); (1, 1)]%Z 0 0 = Returns (1 / 2) /\
  ComputeCandidateScore_ProbabilityGrid (uniform_grid (6 / 10))
    [(2, 2); (2, 3); (1, 4)]%Z 1 (-1) = Returns (6 / 10) /\
  ComputeCandidateScore_ProbabilityGrid half_empty_grid
    [(-1, 0); (-2, 1)]%Z 1 0 = Returns (9 / 20) /\
  ComputeCandidateScore_ProbabilityGrid half_empty_grid
    [(-1, 0); (-2, 1)]%Z 0 0 = Aborts CHECK_GT_candidate_score.
Proof.
  split; [|split; [|split; [|split]]].
  - destruct (ComputeCandidateScore_ProbabilityGrid_mean two_level_grid
                [(-1, 0); (0, 0); (-2, 3); (1, 1)]%Z 1 0) as (Hpos & _).
    replace (7 / 10)
      with (mean (probabilities_at_shifted_cells two_level_grid
                    [(-1, 0); (0, 0); (-2, 3); (1, 1)]%Z 1 0))
      by (mean_eval; lra).
    apply Hpos. mean_eval. lra.
  - destruct (ComputeCandidateScore_ProbabilityGrid_mean two_level_grid
                [(-1, 0); (0, 0); (-2, 3); (1, 1)]%Z 0 0) as (Hpos & _).
    replace (1 / 2)
      with (mean (probabilities_at_shifted_cells two_level_grid
                    [(-1, 0); (0, 0); (-2, 3); (1, 1)]%Z 0 0))
      by (mean_eval; lra).
    apply Hpos. mean_eval. lra.
  - destruct (ComputeCandidateScore_ProbabilityGrid_mean
                (uniform_grid (6 / 10)) [(2, 2); (2, 3); (1, 4)]%Z 1 (-1))
      as (_ & _ & Hconst).
    apply Hconst.
    + discriminate.
    + lra.
    + reflexivity.
  - destruct (ComputeCandidateScore_ProbabilityGrid_mean half_empty_grid
                [(-1, 0); (-2, 1)]%Z 1 0) as (Hpos & _).
    replace (9 / 20)
      with (mean (probabilities_at_shifted_cells half_empty_grid
                    [(-1, 0); (-2, 1)]%Z 1 0))
      by (mean_eval; lra).
    apply Hpos. mean_eval. lra.
  - destruct (ComputeCandidateScore_ProbabilityGrid_mean half_empty_grid
                [(-1, 0); (-2, 1)]%Z 0 0) as (_ & Hneg & _).
    apply Hneg. mean_eval. lra.
Defined.

(** ** Signed-distance score (claim C3) *)

Lemma normalized_tsd_score_range tsdf tsd :
  0 < GetMaxCorrespondenceCost tsdf ->
  Rabs tsd <= GetMaxCorrespondenceCost tsdf ->
  0 <= normalized_tsd_score tsdf tsd.
Proof.
  intros Hpos Hle. unfold normalized_tsd_score.
  apply Rmult_le_pos; [lra|].
  left. now apply Rinv_0_lt_compat.
Qed.

Lemma weighted_average_nonneg tsdf discrete_scan dx dy :
  TSDF2D_well_formed tsdf ->
  0 <= weighted_average (tsdf_samples tsdf discrete_scan dx dy).
Proof.
  intros [Hpos Hcell]. unfold weighted_average.
  set (samples := tsdf_samples tsdf discrete_scan dx dy).
  assert (Hv : Forall (fun vw => 0 <= fst vw /\ 0 <= snd vw) samples).
  { unfold samples, tsdf_samples. apply Forall_map, Forall_forall.
    intros xy _. cbn [fst snd].
    destruct (Hcell (proposed_xy_index xy dx dy)) as [Hd Hw].
    split; [now apply normalized_tsd_score_range | exact Hw]. }
  assert (Hnum : 0 <= Rsum (map (fun vw => fst vw * snd vw) samples)).
  { apply Rsum_nonneg, Forall_map. revert Hv. apply Forall_impl.
    intros vw [Hv Hw]. now apply Rmult_le_pos. }
  assert (Hden : 0 <= Rsum (map snd samples)).
  { apply Rsum_nonneg, Forall_map. revert Hv. apply Forall_impl. tauto. }
  destruct (Req_dec_T (Rsum (map snd samples)) 0) as [E|E].
  - rewrite E. unfold Rdiv. rewrite Rinv_0. lra.
  - apply Rmult_le_pos; [exact Hnum|].
    left. apply Rinv_0_lt_compat. lra.
Qed.

Lemma tsdf_samples_values_and_weights tsdf discrete_scan dx dy :
  tsdf_samples tsdf discrete_scan dx dy
  = values_and_weights tsdf discrete_scan dx dy.
Proof.
  unfold tsdf_samples, values_and_weights.
  apply map_ext. intros [px py]. reflexivity.
Qed.

Lemma ComputeCandidateScore_TSDF2D_run_cases tsdf discrete_scan dx dy :
  let samples := values_and_weights tsdf discrete_scan dx dy in
  let total := Rsum (map snd samples) in
  let per_point :=
    repeat (GetMaxCorrespondenceCost tsdf) (length discrete_scan) in
  (total = 0 /\
   ComputeCandidateScore_TSDF2D_run tsdf discrete_scan dx dy
   = (Returns 0, per_point)) \/
  (total <> 0 /\ 0 <= weighted_average samples /\
   ComputeCandidateScore_TSDF2D_run tsdf discrete_scan dx dy
   = (Returns (weighted_average samples), per_point ++ [total])) \/
  (total <> 0 /\ weighted_average samples < 0 /\
   ComputeCandidateScore_TSDF2D_run tsdf discrete_scan dx dy
   = (Aborts CHECK_GE_candidate_score, per_point ++ [total])).
Proof.
  intros samples total per_point.
  rewrite ComputeCandidateScore_TSDF2D_run_unfold. cbv zeta.
  rewrite tsdf_loop, tsdf_samples_values_and_weights.
  cbn [fst snd]. rewrite !Rplus_0_l.
  fold samples. fold (weighted_average samples).
  fold total. fold per_point.
  destruct (Req_dec_T total 0) as [E|E].
  - left. auto.
  - right. unfold CHECK_GE.
    destruct (Rle_dec 0 (weighted_average samples)) as [Hle|Hle]; cbn [bind].
    + left. auto.
    + right. repeat split; auto. lra.
Qed.

(** C3.  The TSDF overload of [ComputeCandidateScore] forms one quotient per
    scan point, by maxCorrespondenceCost, and the quotient by the summed
    weight only when the summed weight is not zero: when the weights of the
    cells (px + dx, py + dy) sum to zero it returns 0 and has not divided by
    the summed weight, so with a non-zero maxCorrespondenceCost no divisor
    of the run is zero.  Otherwise, for a non-zero maxCorrespondenceCost, it
    forms the weight-weighted average of the per-point values
    (maxCorrespondenceCost - |tsd|) / maxCorrespondenceCost, returns it when
    it is non-negative and stops at [CHECK_GE(candidate_score, 0.f)] when it
    is negative; on a grid with a positive cost, distances bounded by it and
    non-negative weights the average is non-negative, so the call returns
    it.  The per-point value of a distance of magnitude maxCorrespondenceCost
    is 0 and that of the distance 0 is 1. *)
Theorem ComputeCandidateScore_TSDF2D_weighted_average :
  forall (tsdf : TSDF2D) (discrete_scan : DiscreteScan2D) (dx dy : Z),
    let samples := values_and_weights tsdf discrete_scan dx dy in
    let total := Rsum (map snd samples) in
    let per_point :=
      repeat (GetMaxCorrespondenceCost tsdf) (length discrete_scan) in
    let run := ComputeCandidateScore_TSDF2D_run tsdf discrete_scan dx dy in
    ComputeCandidateScore_TSDF2D tsdf discrete_scan dx dy = fst run /\
    (total = 0 -> snd run = per_point) /\
    (total <> 0 -> snd run = per_point ++ [total]) /\
    (GetMaxCorrespondenceCost tsdf <> 0 ->
     Forall (fun divisor => divisor <> 0) (snd run) /\
     (total = 0 -> fst run = Returns 0) /\
     (total <> 0 ->
      0 <= weighted_average samples ->
      fst run = Returns (weighted_average samples)) /\
     (total <> 0 ->
      weighted_average samples < 0 ->
      fst run = Aborts CHECK_GE_candidate_score) /\
     (0 < GetMaxCorrespondenceCost tsdf ->
      (forall xy_index,
          Rabs (fst (GetTSDAndWeight tsdf xy_index))
          <= GetMaxCorrespondenceCost tsdf /\
          0 <= snd (GetTSDAndWeight tsdf xy_index)) ->
      total <> 0 ->
      fst run = Returns (weighted_average samples)) /\
     (forall tsd,
         Rabs tsd = GetMaxCorrespondenceCost tsdf ->
         normalized_tsd_score tsdf tsd = 0) /\
     normalized_tsd_score tsdf 0 = 1).
Proof.
  intros tsdf discrete_scan dx dy samples total per_point run.
  pose proof (ComputeCandidateScore_TSDF2D_run_cases tsdf discrete_scan
                dx dy) as Hcases.
  cbv zeta in Hcases.
  fold samples in Hcases. fold total in Hcases. fold per_point in Hcases.
  fold run in Hcases.
  split; [reflexivity|].
  split; [|split].
  - intros Hz. destruct Hcases as [[_ E]|[(Hn & _)|(Hn & _)]];
      [now rewrite E | contradiction | contradiction].
  - intros Hn. destruct Hcases as [[Hz _]|[(_ & _ & E)|(_ & _ & E)]];
      [contradiction | now rewrite E | now rewrite E].
  - intros Hcost.
    assert (Hper : Forall (fun divisor => divisor <> 0) per_point).
    { apply Forall_forall. intros d Hd.
      apply repeat_spec in Hd. now subst d. }
    split; [|split; [|split; [|split; [|split; [|split]]]]].
    + assert (Htotal : total <> 0 -> Forall (fun divisor => divisor <> 0)
                                       (per_point ++ [total])).
      { intros Hn. apply Forall_app. split; [exact Hper|].
        constructor; [exact Hn | constructor]. }
      destruct Hcases as [[_ E]|[(Hn & _ & E)|(Hn & _ & E)]];
        rewrite E; cbn [snd]; auto.
    + intros Hz. destruct Hcases as [[_ E]|[(Hn & _)|(Hn & _)]];
        [now rewrite E | contradiction | contradiction].
    + intros Hn Hpos.
      destruct Hcases as [[Hz _]|[(_ & _ & E)|(_ & Hneg & _)]];
        [contradiction | now rewrite E | lra].
    + intros Hn Hneg.
      destruct Hcases as [[Hz _]|[(_ & Hpos & _)|(_ & _ & E)]];
        [contradiction | lra | now rewrite E].
    + intros Hpos Hcell Hn.
      pose proof (weighted_average_nonneg tsdf discrete_scan dx dy
                    (conj Hpos Hcell)) as Hge.
      rewrite tsdf_samples_values_and_weights in Hge. fold samples in Hge.
      destruct Hcases as [[Hz _]|[(_ & _ & E)|(_ & Hneg & _)]];
        [contradiction | now rewrite E | lra].
    + intros tsd Habs. unfold normalized_tsd_score. rewrite Habs.
      field. exact Hcost.
    + unfold normalized_tsd_score. rewrite Rabs_R0. field. exact Hcost.
Qed.

Ltac tsdf_eval :=
  unfold weighted_average, summed_weight, tsdf_samples, normalized_tsd_score,
    Rsum, uniform_tsdf;
  cbn [map fold_right fst snd GetTSDAndWeight GetMaxCorrespondenceCost].

Ltac ramp_eval :=
  unfold weighted_average, values_and_weights, Rsum;
  cbn [map fold_right length repeat app fst snd GetTSDAndWeight
       GetMaxCorrespondenceCost ramp_tsdf Z.add Z.ltb Z.eqb Z.compare
       Pos.compare Pos.compare_cont Z.pos_sub Pos.add Pos.succ
       Pos.pred_double Z.succ_double Z.pred_double Z.double Z.opp];
  repeat match goal with
    | |- context [Rabs ?a] =>
        first [ rewrite (Rabs_pos_eq a) by lra
              | rewrite (Rabs_left a) by lra ]
    end.

Lemma ComputeCandidateScore_TSDF2D_weighted_average_witness :
  (ComputeCandidateScore_TSDF2D ramp_tsdf [(0, 0); (1, 0)]%Z 0 0
   = Returns (7 / 8) /\
   snd (ComputeCandidateScore_TSDF2D_run ramp_tsdf [(0, 0); (1, 0)]%Z 0 0)
   = [2; 2; 4]) /\
  ComputeCandidateScore_TSDF2D ramp_tsdf [(0, 0); (1, 0)]%Z 1 0
  = Returns (1 / 4) /\
  (ComputeCandidateScore_TSDF2D ramp_tsdf [(-1, 0); (-2, 0)]%Z 0 0
   = Returns 0 /\
   snd (ComputeCandidateScore_TSDF2D_run ramp_tsdf [(-1, 0); (-2, 0)]%Z 0 0)
   = [2; 2]) /\
  ComputeCandidateScore_TSDF2D ramp_tsdf [(3, 0)]%Z 0 0
  = Aborts CHECK_GE_candidate_score /\
  normalized_tsd_score ramp_tsdf (- 2) = 0 /\
  normalized_tsd_score ramp_tsdf 0 = 1.
Proof.
  assert (Hcost : GetMaxCorrespondenceCost ramp_tsdf <> 0)
    by (cbn [ramp_tsdf GetMaxCorrespondenceCost]; lra).
  split; [|split; [|split; [|split; [|split]]]].
  - destruct (ComputeCandidateScore_TSDF2D_weighted_average ramp_tsdf
                [(0, 0); (1, 0)]%Z 0 0) as (-> & _ & Hlog & Hrun).
    destruct (Hrun Hcost) as (_ & _ & Hret & _).
    split.
    + replace (7 / 8)
        with (weighted_average
                (values_and_weights ramp_tsdf [(0, 0); (1, 0)]%Z 0 0))
        by (ramp_eval; field).
      apply Hret; ramp_eval; lra.
    + rewrite Hlog by (ramp_eval; lra). ramp_eval.
      replace (3 + (1 + 0)) with 4 by lra. reflexivity.
  - destruct (ComputeCandidateScore_TSDF2D_weighted_average ramp_tsdf
                [(0, 0); (1, 0)]%Z 1 0) as (-> & _ & _ & Hrun).
    destruct (Hrun Hcost) as (_ & _ & Hret & _).
    replace (1 / 4)
      with (weighted_average
              (values_and_weights ramp_tsdf [(0, 0); (1, 0)]%Z 1 0))
      by (ramp_eval; field).
    apply Hret; ramp_eval; lra.
  - destruct (ComputeCandidateScore_TSDF2D_weighted_average ramp_tsdf
                [(-1, 0); (-2, 0)]%Z 0 0) as (-> & Hlog & _ & Hrun).
    destruct (Hrun Hcost) as (_ & Hzero & _).
    split; [apply Hzero | apply Hlog]; ramp_eval; lra.
  - destruct (ComputeCandidateScore_TSDF2D_weighted_average ramp_tsdf
                [(3, 0)]%Z 0 0) as (-> & _ & _ & Hrun).
    destruct (Hrun Hcost) as (_ & _ & _ & Hstop & _).
    apply Hstop; ramp_eval; lra.
  - destruct (ComputeCandidateScore_TSDF2D_weighted_average ramp_tsdf
                [] 0 0) as (_ & _ & _ & Hrun).
    destruct (Hrun Hcost) as (_ & _ & _ & _ & _ & Hfar & _).
    apply Hfar. cbn [ramp_tsdf GetMaxCorrespondenceCost].
    rewrite Rabs_left by lra. lra.
  - destruct (ComputeCandidateScore_TSDF2D_weighted_average ramp_tsdf
                [] 0 0) as (_ & _ & _ & Hrun).
    destruct (Hrun Hcost) as (_ & _ & _ & _ & _ & _ & Hnear).
    exact Hnear.
Defined.

(** ** The empty scan (claim C10) *)

(** C10.  The probability-grid overload divides the accumulated sum by the
    size of the scan without a guard: the divisor is zero exactly for the
    empty scan, for which the call forms 0 / 0 and never returns a score (it
    stops at [CHECK_GT]), so a returned score implies a non-empty scan, and
    on a non-empty scan whose queried cells all hold a positive probability
    the call returns the mean.  The TSDF overload, on the contrary, returns 0
    for the empty scan, as it does whenever the summed weight is zero. *)
Theorem ComputeCandidateScore_ProbabilityGrid_needs_points :
  (forall (discrete_scan : DiscreteScan2D),
      INR (length discrete_scan) = 0 <-> discrete_scan = []) /\
  (forall (probability_grid : ProbabilityGrid) (dx dy : Z),
      fold_left (probability_step probability_grid dx dy) [] 0 = 0 /\
      ComputeCandidateScore_ProbabilityGrid probability_grid [] dx dy
      = (CHECK_GT CHECK_GT_candidate_score (0 / INR 0) 0 ;;;
         Returns (0 / INR 0))%outcome /\
      ComputeCandidateScore_ProbabilityGrid probability_grid [] dx dy
      = Aborts CHECK_GT_candidate_score) /\
  (forall (probability_grid : ProbabilityGrid)
          (discrete_scan : DiscreteScan2D) (dx dy : Z) (v : R),
      ComputeCandidateScore_ProbabilityGrid probability_grid discrete_scan
        dx dy = Returns v ->
      discrete_scan <> []) /\
  (forall (probability_grid : ProbabilityGrid)
          (discrete_scan : DiscreteScan2D) (dx dy : Z),
      discrete_scan <> [] ->
      (forall xy_index,
          In xy_index discrete_scan ->
          0 < GetProbability probability_grid
                (proposed_xy_index xy_index dx dy)) ->
      ComputeCandidateScore_ProbabilityGrid probability_grid discrete_scan
        dx dy
      = Returns (mean (queried_probabilities probability_grid discrete_scan
                         dx dy))) /\
  (forall (tsdf : TSDF2D) (dx dy : Z),
      ComputeCandidateScore_TSDF2D tsdf [] dx dy = Returns 0) /\
  (forall (tsdf : TSDF2D) (discrete_scan : DiscreteScan2D) (dx dy : Z),
      summed_weight tsdf discrete_scan dx dy = 0 ->
      ComputeCandidateScore_TSDF2D tsdf discrete_scan dx dy = Returns 0).
Proof.
  assert (Hempty : forall probability_grid dx dy,
             ComputeCandidateScore_ProbabilityGrid probability_grid [] dx dy
             = Aborts CHECK_GT_candidate_score).
  { intros. unfold ComputeCandidateScore_ProbabilityGrid, CHECK_GT.
    cbn [fold_left length INR].
    destruct (Rlt_dec 0 (0 / 0)) as [H|H]; [|reflexivity].
    unfold Rdiv in H. rewrite Rmult_0_l in H. lra. }
  split; [intros; apply INR_length_zero|].
  split; [|split; [|split; [|split]]].
  - intros. split; [reflexivity|]. split; [reflexivity | apply Hempty].
  - intros probability_grid discrete_scan dx dy v H ->.
    rewrite Hempty in H. discriminate.
  - intros probability_grid discrete_scan dx dy Hne Hpos.
    destruct (ComputeCandidateScore_ProbabilityGrid_cases probability_grid
                discrete_scan dx dy) as [[_ E]|[Hm _]]; [exact E|].
    exfalso. apply Hm. unfold mean.
    set (l := queried_probabilities probability_grid discrete_scan dx dy).
    assert (Hl : Forall (fun r => 0 < r) l).
    { apply Forall_map, Forall_forall. exact Hpos. }
    assert (Hlen : l <> []).
    { intros Hnil. apply map_eq_nil in Hnil. contradiction. }
    assert (Hsum : 0 < Rsum l).
    { clear - Hl Hlen. destruct Hl as [|r l Hr Hl]; [contradiction|].
      cbn [Rsum fold_right].
      assert (0 <= fold_right Rplus 0 l).
      { apply Rsum_nonneg. revert Hl. apply Forall_impl. intros; lra. }
      lra. }
    apply Rmult_lt_0_compat; [exact Hsum|].
    apply Rinv_0_lt_compat.
    pose proof (pos_INR (length l)).
    assert (INR (length l) <> 0) by (rewrite INR_length_zero; exact Hlen).
    lra.
  - intros tsdf dx dy.
    destruct (ComputeCandidateScore_TSDF2D_cases tsdf [] dx dy)
      as [[_ E]|[(Hn & _)|(Hn & _)]];
      [exact E | exfalso; apply Hn; reflexivity
       | exfalso; apply Hn; reflexivity].
  - intros tsdf discrete_scan dx dy Hz.
    destruct (ComputeCandidateScore_TSDF2D_cases tsdf discrete_scan dx dy)
      as [[_ E]|[(Hn & _)|(Hn & _)]];
      [exact E | contradiction | contradiction].
Qed.

Lemma ComputeCandidateScore_ProbabilityGrid_needs_points_witness :
  ComputeCandidateScore_ProbabilityGrid (uniform_grid (6 / 10)) [(2, 2)]%Z 0 0
  = Returns (mean (queried_probabilities (uniform_grid (6 / 10))
                     [(2, 2)]%Z 0 0)) /\
  [(2, 2)]%Z <> ([] : DiscreteScan2D) /\
  ComputeCandidateScore_TSDF2D (uniform_tsdf 1 0 0) [(0, 0)]%Z 0 0 = Returns 0.
Proof.
  destruct ComputeCandidateScore_ProbabilityGrid_needs_points
    as (_ & _ & Hne & Hret & _ & Hzero).
  assert (E : ComputeCandidateScore_ProbabilityGrid (uniform_grid (6 / 10))
                [(2, 2)]%Z 0 0
              = Returns (mean (queried_probabilities (uniform_grid (6 / 10))
                                 [(2, 2)]%Z 0 0))).
  { apply Hret; [discriminate|].
    intros xy _. cbn [uniform_grid GetProbability]. lra. }
  split; [exact E|]. split.
  - exact (Hne _ _ _ _ _ E).
  - apply Hzero. tsdf_eval. lra.
Defined.

(** ** ScoreCandidates, candidate by candidate *)

Lemma nth_error_middle {A} (pre : list A) (c : A) (rest : list A) :
  nth_error (pre ++ c :: rest) (length pre) = Some c.
Proof.
  rewrite nth_error_app2 by apply Nat.le_refl.
  now rewrite Nat.sub_diag.
Qed.

Lemma update_nth_middle {A} (f : A -> A) (pre : list A) (c : A)
    (rest : list A) :
  update_nth (length pre) f (pre ++ c :: rest) = pre ++ f c :: rest.
Proof.
  induction pre as [|a pre IH]; cbn [length app update_nth];
    [reflexivity | now rewrite IH].
Qed.

Lemma penalty_set_score options_ c v :
  penalty options_ (set_score c v) = penalty options_ c.
Proof. reflexivity. Qed.

Lemma set_score_set_score c v w : set_score (set_score c v) w = set_score c w.
Proof. reflexivity. Qed.

Lemma score_candidate_step options_ grid discrete_scans pre c rest tr :
  score_candidate options_ grid discrete_scans (length pre)
    {| candidates_of := pre ++ c :: rest; trace := tr |}
  = (raw <- raw_score grid discrete_scans c ;;
     Returns (tt,
       {| candidates_of :=
            pre ++ set_score c (raw * penalty options_ c) :: rest;
          trace := tr ++ stores_of grid (length pre) raw
                           (raw * penalty options_ c) |}))%outcome.
Proof.
  unfold score_candidate, mbind at 1, load at 1.
  cbn [candidates_of]. rewrite nth_error_middle. cbn [lift_option lift].
  unfold score_switch, raw_score, stores_of.
  destruct grid as [probability_grid|tsdf|l];
    cbn [GetGridType static_cast_ProbabilityGrid static_cast_TSDF2D
         lift_option bind].
  - unfold mbind at 1. unfold mbind at 1.
    destruct (at_index discrete_scans (scan_index c)) as [scan|];
      cbn [lift_option bind lift]; [|reflexivity].
    destruct (ComputeCandidateScore_ProbabilityGrid probability_grid scan
                (x_index_offset c) (y_index_offset c)) as [raw|f];
      cbn [lift bind]; [|reflexivity].
    unfold store_score at 1. cbn [candidates_of trace].
    rewrite update_nth_middle.
    unfold mbind, load. cbn [candidates_of trace].
    rewrite nth_error_middle. cbn [lift_option lift].
    unfold store_score. cbn [candidates_of trace].
    rewrite update_nth_middle, <- app_assoc. reflexivity.
  - unfold mbind at 1. unfold mbind at 1.
    destruct (at_index discrete_scans (scan_index c)) as [scan|];
      cbn [lift_option bind lift]; [|reflexivity].
    destruct (ComputeCandidateScore_TSDF2D tsdf scan
                (x_index_offset c) (y_index_offset c)) as [raw|f];
      cbn [lift bind]; [|reflexivity].
    unfold store_score at 1. cbn [candidates_of trace].
    rewrite update_nth_middle.
    unfold mbind, load. cbn [candidates_of trace].
    rewrite nth_error_middle. cbn [lift_option lift].
    unfold store_score. cbn [candidates_of trace].
    rewrite update_nth_middle, <- app_assoc. reflexivity.
  - unfold mbind, ret, load. cbn [candidates_of trace].
    rewrite nth_error_middle. cbn [lift_option lift].
    unfold store_score. cbn [candidates_of trace app].
    rewrite update_nth_middle. reflexivity.
Qed.

Lemma for_each_score_all options_ grid discrete_scans rest :
  forall pre tr,
    for_each (length rest) (length pre)
      (score_candidate options_ grid discrete_scans)
      {| candidates_of := pre ++ rest; trace := tr |}
    = (r <- score_all options_ grid discrete_scans (length pre) rest ;;
       Returns (tt, {| candidates_of := pre ++ fst r;
                       trace := tr ++ snd r |}))%outcome.
Proof.
  induction rest as [|c rest IH]; intros pre tr;
    cbn [length for_each score_all].
  - unfold ret. cbn [bind fst snd]. now rewrite !app_nil_r.
  - unfold mbind. rewrite score_candidate_step.
    destruct (raw_score grid discrete_scans c) as [raw|f]; cbn [bind];
      [|reflexivity].
    replace (pre ++ set_score c (raw * penalty options_ c) :: rest)
      with ((pre ++ [set_score c (raw * penalty options_ c)]) ++ rest)
      by now rewrite <- app_assoc.
    replace (S (length pre))
      with (length (pre ++ [set_score c (raw * penalty options_ c)]))
      by (rewrite length_app; cbn; lia).
    rewrite IH.
    destruct (score_all options_ grid discrete_scans
                (length (pre ++ [set_score c (raw * penalty options_ c)]))
                rest) as [[scored stores]|f]; cbn [bind fst snd];
      [|reflexivity].
    now rewrite <- !app_assoc.
Qed.

Lemma ScoreCandidates_score_all options_ grid discrete_scans
    search_parameters h :
  ScoreCandidates options_ grid discrete_scans search_parameters h
  = (r <- score_all options_ grid discrete_scans 0 (candidates_of h) ;;
     Returns (tt, {| candidates_of := fst r;
                     trace := trace h ++ snd r |}))%outcome.
Proof.
  unfold ScoreCandidates. destruct h as [candidates tr].
  cbn [candidates_of trace].
  exact (for_each_score_all options_ grid discrete_scans candidates [] tr).
Qed.

Lemma stores_at_app i tr1 tr2 :
  stores_at i (tr1 ++ tr2) = stores_at i tr1 ++ stores_at i tr2.
Proof. apply filter_app. Qed.

Lemma stores_at_stores_of grid i j raw final :
  stores_at j (stores_of grid i raw final) =
  if Nat.eqb i j then stores_of grid i raw final else [].
Proof.
  unfold stores_of, stores_at.
  destruct (GetGridType grid); cbn [app filter stored_at];
    destruct (Nat.eqb i j); reflexivity.
Qed.

Lemma stores_at_below i j tr :
  Forall (fun e => (i <= stored_at e)%nat) tr -> (j < i)%nat ->
  stores_at j tr = [].
Proof.
  intros H Hj. unfold stores_at. induction H as [|e tr He _ IH];
    cbn [filter]; [reflexivity|].
  destruct (Nat.eqb_spec (stored_at e) j); [lia | exact IH].
Qed.

Lemma score_all_positions options_ grid discrete_scans l :
  forall i scored stores,
    score_all options_ grid discrete_scans i l = Returns (scored, stores) ->
    Forall (fun e => (i <= stored_at e)%nat) stores.
Proof.
  induction l as [|c l IH]; intros i scored stores H; cbn [score_all] in H.
  - injection H as <- <-. constructor.
  - destruct (raw_score grid discrete_scans c) as [raw|f]; cbn [bind] in H;
      [|discriminate].
    destruct (score_all options_ grid discrete_scans (S i) l)
      as [[scored' stores']|f] eqn:E; cbn [bind fst snd] in H;
      [|discriminate].
    injection H as <- <-. apply Forall_app. split.
    + unfold stores_of. destruct (GetGridType grid); repeat constructor.
    + apply IH in E. revert E. apply Forall_impl. intros; lia.
Qed.

Lemma score_all_positions_upper options_ grid discrete_scans l :
  forall i scored stores,
    score_all options_ grid discrete_scans i l = Returns (scored, stores) ->
    Forall (fun e => (stored_at e < i + length l)%nat) stores.
Proof.
  induction l as [|c l IH]; intros i scored stores H; cbn [score_all] in H.
  - injection H as <- <-. constructor.
  - destruct (raw_score grid discrete_scans c) as [raw|f]; cbn [bind] in H;
      [|discriminate].
    destruct (score_all options_ grid discrete_scans (S i) l)
      as [[scored' stores']|f] eqn:E; cbn [bind fst snd] in H;
      [|discriminate].
    injection H as <- <-. apply Forall_app. split.
    + unfold stores_of. destruct (GetGridType grid);
        repeat constructor; cbn; lia.
    + apply IH in E. revert E. apply Forall_impl.
      intros e. cbn [length]. lia.
Qed.

Lemma score_all_spec options_ grid discrete_scans l :
  forall i scored stores,
    score_all options_ grid discrete_scans i l = Returns (scored, stores) ->
    length scored = length l /\
    forall k c,
      nth_error l k = Some c ->
      exists raw,
        raw_score grid discrete_scans c = Returns raw /\
        nth_error scored k = Some (set_score c (raw * penalty options_ c)) /\
        stores_at (i + k) stores
        = stores_of grid (i + k) raw (raw * penalty options_ c).
Proof.
  induction l as [|c l IH]; intros i scored stores H; cbn [score_all] in H.
  - injection H as <- <-. split; [reflexivity|].
    intros [|k] c' Hk; discriminate.
  - destruct (raw_score grid discrete_scans c) as [raw|f] eqn:Eraw;
      cbn [bind] in H; [|discriminate].
    destruct (score_all options_ grid discrete_scans (S i) l)
      as [[scored' stores']|f] eqn:E; cbn [bind fst snd] in H;
      [|discriminate].
    injection H as <- <-.
    pose proof (score_all_positions _ _ _ _ _ _ _ E) as Hpos.
    destruct (IH _ _ _ E) as [Hlen Hnth].
    split; [cbn [length]; congruence|].
    intros [|k] c' Hk; cbn [nth_error] in Hk.
    + injection Hk as <-. exists raw. rewrite Eraw.
      split; [reflexivity|]. split; [reflexivity|].
      rewrite Nat.add_0_r, stores_at_app, stores_at_stores_of, Nat.eqb_refl.
      rewrite (stores_at_below (S i) i) by (auto; lia).
      now rewrite app_nil_r.
    + destruct (Hnth k c' Hk) as (raw' & Hraw' & Hsc & Hst).
      exists raw'. split; [exact Hraw'|]. split; [exact Hsc|].
      rewrite stores_at_app, stores_at_stores_of.
      destruct (Nat.eqb_spec i (i + S k)); [lia|]. cbn [app].
      replace (i + S k)%nat with (S i + k)%nat by lia. exact Hst.
Qed.

Lemma score_all_total options_ grid discrete_scans l :
  (forall c, In c l -> exists raw, raw_score grid discrete_scans c = Returns raw) ->
  forall i, exists r, score_all options_ grid discrete_scans i l = Returns r.
Proof.
  induction l as [|c l IH]; intros Hraw i; cbn [score_all].
  - eauto.
  - destruct (Hraw c (or_introl eq_refl)) as [raw ->]. cbn [bind].
    destruct (IH (fun c' H => Hraw c' (or_intror H)) (S i)) as [r ->].
    cbn [bind]. eauto.
Qed.

Lemma score_all_unknown options_ l0 discrete_scans l :
  forall i,
    score_all options_ (Grid2D_unknown l0) discrete_scans i l
    = Returns (map (fun c => set_score c (score c * penalty options_ c)) l,
               map (fun p => {| stored_at := fst p;
                                stored_value :=
                                  score (snd p) * penalty options_ (snd p) |})
                 (combine (seq i (length l)) l)).
Proof.
  induction l as [|c l IH]; intros i;
    cbn [score_all raw_score bind map length seq combine fst snd];
    [reflexivity|].
  rewrite IH. reflexivity.
Qed.

Lemma ComputeCandidateScore_ProbabilityGrid_constant probability_grid
    discrete_scan dx dy p :
  discrete_scan <> [] ->
  0 < p ->
  (forall xy_index,
      In xy_index discrete_scan ->
      GetProbability probability_grid (proposed_xy_index xy_index dx dy) = p) ->
  ComputeCandidateScore_ProbabilityGrid probability_grid discrete_scan dx dy
  = Returns p.
Proof.
  intros Hne Hp Hall.
  assert (Hm : mean (queried_probabilities probability_grid discrete_scan
                       dx dy) = p).
  { apply mean_constant.
    - intros Hnil. apply map_eq_nil in Hnil. contradiction.
    - apply Forall_map. apply Forall_forall. exact Hall. }
  destruct (ComputeCandidateScore_ProbabilityGrid_cases probability_grid
              discrete_scan dx dy) as [[_ E]|[Hneg _]].
  - now rewrite E, Hm.
  - exfalso. apply Hneg. now rewrite Hm.
Qed.

(** ** The end-to-end scenario of the specification *)

Lemma hypot_0 : hypot 0 0 = 0.
Proof.
  unfold hypot. replace (0 * 0 + 0 * 0) with 0 by lra. apply sqrt_0.
Qed.

Lemma penalty_at_origin options_ c :
  x c = 0 -> y c = 0 -> orientation c = 0 -> penalty options_ c = 1.
Proof.
  intros Hx Hy Ho. unfold penalty, Pow2. rewrite Hx, Hy, Ho, hypot_0, Rabs_R0.
  replace (- ((0 * translation_delta_cost_weight options_
               + 0 * rotation_delta_cost_weight options_)
              * (0 * translation_delta_cost_weight options_
                 + 0 * rotation_delta_cost_weight options_))) with 0 by lra.
  apply exp_0.
Qed.

Lemma scenario_penalty options_ : penalty options_ scenario_candidate = 1.
Proof.
  apply penalty_at_origin; unfold scenario_candidate, Candidate2D_new,
    scan_rotation; cbn [x y orientation]; cbn; lra.
Qed.

Lemma scenario_raw_score :
  raw_score scenario_grid scenario_scans scenario_candidate
  = Returns (6 / 10).
Proof.
  unfold raw_score, scenario_grid, scenario_scans, scenario_candidate.
  cbn [Candidate2D_new scan_index x_index_offset y_index_offset at_index
       Z.ltb Z.compare Z.to_nat nth_error lift_option bind].
  apply ComputeCandidateScore_ProbabilityGrid_constant;
    [discriminate | lra | reflexivity].
Qed.

Lemma scenario_ScoreCandidates options_ :
  ScoreCandidates options_ scenario_grid scenario_scans window_single
    {| candidates_of := [scenario_candidate]; trace := [] |}
  = Returns (tt,
      {| candidates_of := [set_score scenario_candidate (6 / 10 * 1)];
         trace := [ {| stored_at := 0; stored_value := 6 / 10 |};
                    {| stored_at := 0; stored_value := 6 / 10 * 1 |} ] |}).
Proof.
  rewrite ScoreCandidates_score_all.
  cbn [candidates_of trace score_all].
  rewrite scenario_raw_score. cbn [bind fst snd app].
  rewrite scenario_penalty. reflexivity.
Qed.

(** ** The stores in order *)

Lemma Forall2_nth_error {A B} (P : A -> B -> Prop) l l' :
  Forall2 P l l' ->
  forall i a b, nth_error l i = Some a -> nth_error l' i = Some b -> P a b.
Proof.
  induction 1 as [|a b l l' Hab _ IH]; intros [|i] a' b' Ha Hb;
    cbn [nth_error] in *; try discriminate.
  - injection Ha as <-. injection Hb as <-. exact Hab.
  - exact (IH i _ _ Ha Hb).
Qed.

Lemma score_all_in_order options_ grid discrete_scans l raws :
  Forall2 (fun c raw => raw_score grid discrete_scans c = Returns raw)
    l raws ->
  forall i,
    score_all options_ grid discrete_scans i l
    = Returns (with_final_scores options_ (combine l raws),
               stores_in_order options_ grid i (combine l raws)).
Proof.
  induction 1 as [|c raw l raws Hraw _ IH]; intros i;
    cbn [score_all combine with_final_scores map stores_in_order];
    [reflexivity|].
  rewrite Hraw. cbn [bind]. rewrite IH. reflexivity.
Qed.

Lemma score_all_raw_scores options_ grid discrete_scans l :
  forall i r,
    score_all options_ grid discrete_scans i l = Returns r ->
    exists raws,
      Forall2 (fun c raw => raw_score grid discrete_scans c = Returns raw)
        l raws.
Proof.
  induction l as [|c l IH]; intros i r H; cbn [score_all] in H.
  - exists []. constructor.
  - destruct (raw_score grid discrete_scans c) as [raw|f] eqn:Eraw;
      cbn [bind] in H; [|discriminate].
    destruct (score_all options_ grid discrete_scans (S i) l)
      as [r'|f] eqn:E; cbn [bind] in H; [|discriminate].
    destruct (IH _ _ E) as [raws Hraws].
    exists (raw :: raws). now constructor.
Qed.

Lemma raw_scores_functional grid (discrete_scans : list DiscreteScan2D) l :
  forall r1 r2,
    Forall2 (fun c raw => raw_score grid discrete_scans c = Returns raw)
      l r1 ->
    Forall2 (fun c raw => raw_score grid discrete_scans c = Returns raw)
      l r2 ->
    r1 = r2.
Proof.
  induction l as [|c l IH]; intros r1 r2 H1 H2;
    inversion H1 as [|? a1 ? l1 Ha1 Hl1]; subst;
    inversion H2 as [|? a2 ? l2 Ha2 Hl2]; subst; [reflexivity|].
  rewrite Ha1 in Ha2. injection Ha2 as <-. f_equal. now apply IH.
Qed.

Lemma ScoreCandidates_in_order options_ grid discrete_scans
    search_parameters h raws :
  Forall2 (fun c raw => raw_score grid discrete_scans c = Returns raw)
    (candidates_of h) raws ->
  ScoreCandidates options_ grid discrete_scans search_parameters h
  = Returns (tt,
      {| candidates_of :=
           with_final_scores options_ (combine (candidates_of h) raws);
         trace :=
           trace h
           ++ stores_in_order options_ grid 0
                (combine (candidates_of h) raws) |}).
Proof.
  intros Hraws. rewrite ScoreCandidates_score_all.
  rewrite (score_all_in_order _ _ _ _ _ Hraws). reflexivity.
Qed.

(** ** The scenario with several candidates *)

Lemma ridge_raw_score :
  Forall2
    (fun c raw =>
       raw_score (Grid2D_ProbabilityGrid ridge_grid) ridge_scans c
       = Returns raw)
    ridge_candidates ridge_raw_scores.
Proof.
  unfold ridge_candidates, ridge_raw_scores. cbn [map].
  repeat constructor;
    unfold raw_score, candidate_of_triple, ridge_scans;
    cbn [Candidate2D_new scan_index x_index_offset y_index_offset fst snd
         at_index Z.ltb Z.compare Z.to_nat Pos.to_nat Pos.iter_op Nat.add
         nth_error lift_option bind];
    (apply ComputeCandidateScore_ProbabilityGrid_constant;
     [ discriminate
     | lra
     | intros xy [<-|[<-|[]]]; reflexivity ]).
Qed.

Lemma ridge_ScoreCandidates options_ :
  ScoreCandidates options_ (Grid2D_ProbabilityGrid ridge_grid) ridge_scans
    ridge_window {| candidates_of := ridge_candidates; trace := [] |}
  = Returns (tt,
      {| candidates_of :=
           with_final_scores options_
             (combine ridge_candidates ridge_raw_scores);
         trace :=
           stores_in_order options_ (Grid2D_ProbabilityGrid ridge_grid) 0
             (combine ridge_candidates ridge_raw_scores) |}).
Proof.
  exact (ScoreCandidates_in_order options_ _ _ ridge_window
           {| candidates_of := ridge_candidates; trace := [] |} _
           ridge_raw_score).
Qed.

Lemma hypot_x_0 a : 0 <= a -> hypot a 0 = a.
Proof.
  intros Ha. unfold hypot. rewrite Rmult_0_r, Rplus_0_r.
  now apply sqrt_square.
Qed.

Lemma ridge_origin_at_origin :
  x ridge_origin = 0 /\ y ridge_origin = 0 /\ orientation ridge_origin = 0.
Proof.
  unfold ridge_origin, Candidate2D_new, scan_rotation.
  cbn [x y orientation ridge_window resolution num_angular_perturbations
       angular_perturbation_step_size Z.sub Z.opp Z.add Z.pos_sub].
  repeat split; lra.
Qed.

Lemma ridge_best_displacement :
  hypot (x ridge_best) (y ridge_best) = 5 / 100 /\
  Rabs (orientation ridge_best) = 1 / 100.
Proof.
  unfold ridge_best, Candidate2D_new, scan_rotation.
  cbn [x y orientation ridge_window resolution num_angular_perturbations
       angular_perturbation_step_size Z.sub Z.opp Z.add Z.pos_sub].
  split.
  - rewrite Rmult_0_l, hypot_x_0 by lra. lra.
  - rewrite Rabs_left by lra. lra.
Qed.

Lemma ridge_twin_displacement :
  hypot (x ridge_twin) (y ridge_twin) = 5 / 100 /\
  Rabs (orientation ridge_twin) = 1 / 100.
Proof.
  unfold ridge_twin, Candidate2D_new, scan_rotation.
  cbn [x y orientation ridge_window resolution num_angular_perturbations
       angular_perturbation_step_size Z.sub Z.opp Z.add Z.pos_sub
       Pos.pred_double].
  split.
  - rewrite Rmult_0_l, hypot_x_0 by lra. lra.
  - rewrite Rabs_pos_eq by lra. lra.
Qed.

Lemma ridge_best_penalty :
  penalty scenario_options ridge_best = exp (- Pow2 (6 / 1000)).
Proof.
  unfold penalty. destruct ridge_best_displacement as [-> ->].
  cbn [scenario_options translation_delta_cost_weight
       rotation_delta_cost_weight].
  do 3 f_equal. lra.
Qed.

Lemma ridge_twin_penalty :
  penalty scenario_options ridge_twin = exp (- Pow2 (6 / 1000)).
Proof.
  unfold penalty. destruct ridge_twin_displacement as [-> ->].
  cbn [scenario_options translation_delta_cost_weight
       rotation_delta_cost_weight].
  do 3 f_equal. lra.
Qed.

(** ** Frame of ScoreCandidates (claim C9) *)

(** C9, as the code has it.  When [ScoreCandidates] returns, the vector has
    the length it had, every candidate was reached (none is skipped and the
    loop does not stop early), every field but the score is unchanged, and
    the score of each candidate is its raw score times the penalty factor.
    The stores of the call are exactly those of [stores_in_order]: the
    candidates are taken in vector order and the stores to a candidate's
    score field are made one after the other in the iteration that visits
    it, two for a probability or signed-distance grid (the raw score, then
    the raw score times the penalty) and one for any other grid; nothing
    else is stored to.  The grid, the discrete scans and the search
    parameters are passed by reference to const and are not part of the
    heap. *)
Theorem ScoreCandidates_frame :
  forall (options_ : RealTimeCorrelativeScanMatcherOptions) (grid : Grid2D)
         (discrete_scans : list DiscreteScan2D)
         (search_parameters : SearchParameters) (h h' : heap) (u : unit),
    ScoreCandidates options_ grid discrete_scans search_parameters h
    = Returns (u, h') ->
    length (candidates_of h') = length (candidates_of h) /\
    exists raws stores,
      Forall2 (fun c raw => raw_score grid discrete_scans c = Returns raw)
        (candidates_of h) raws /\
      candidates_of h'
      = with_final_scores options_ (combine (candidates_of h) raws) /\
      stores
      = stores_in_order options_ grid 0 (combine (candidates_of h) raws) /\
      trace h' = trace h ++ stores /\
      (forall i c,
          nth_error (candidates_of h) i = Some c ->
          exists c' raw,
            nth_error (candidates_of h') i = Some c' /\
            same_pose c c' /\
            raw_score grid discrete_scans c = Returns raw /\
            score c' = raw * penalty options_ c /\
            stores_at i stores
            = stores_of grid i raw (raw * penalty options_ c) /\
            length (stores_at i stores)
            = match GetGridType grid with
              | UNKNOWN_GRID_TYPE => 1%nat
              | _ => 2%nat
              end) /\
      (forall i,
          (length (candidates_of h) <= i)%nat -> stores_at i stores = []).
Proof.
  intros options_ grid discrete_scans search_parameters h h' u H.
  rewrite ScoreCandidates_score_all in H.
  destruct (score_all options_ grid discrete_scans 0 (candidates_of h))
    as [[scored stores]|f] eqn:E; cbn [bind fst snd] in H; [|discriminate].
  injection H as _ <-. cbn [candidates_of trace].
  destruct (score_all_spec _ _ _ _ _ _ _ E) as [Hlen Hnth].
  split; [exact Hlen|].
  destruct (score_all_raw_scores _ _ _ _ _ _ E) as [raws Hraws].
  pose proof (score_all_in_order options_ _ _ _ _ Hraws 0%nat) as E'.
  rewrite E in E'. injection E' as Hscored Hstores.
  exists raws, stores.
  split; [exact Hraws|]. split; [exact Hscored|]. split; [exact Hstores|].
  split; [reflexivity|]. split.
  - intros i c Hc. destruct (Hnth i c Hc) as (raw & Hraw & Hsc & Hst).
    exists (set_score c (raw * penalty options_ c)), raw.
    cbn [Nat.add] in Hst.
    repeat split; try assumption.
    rewrite Hst. unfold stores_of. now destruct (GetGridType grid).
  - intros i Hi. unfold stores_at.
    pose proof (score_all_positions_upper _ _ _ _ _ _ _ E) as Hall.
    cbn [Nat.add] in Hall. clear E Hnth Hstores.
    induction Hall as [|e l He _ IH]; cbn [filter]; [reflexivity|].
    destruct (Nat.eqb_spec (stored_at e) i); [lia | exact IH].
Qed.

Lemma ScoreCandidates_frame_witness :
  exists h',
    ScoreCandidates scenario_options (Grid2D_ProbabilityGrid ridge_grid)
      ridge_scans ridge_window
      {| candidates_of := ridge_candidates; trace := [] |}
    = Returns (tt, h') /\
    length (candidates_of h') = 6%nat /\
    map index_triple (candidates_of h')
    = [(0, 0, 0); (0, 1, 0); (1, 0, 0); (1, 1, 0); (2, 0, 0); (2, 1, 0)]%Z /\
    map stored_at (trace h')
    = [0; 0; 1; 1; 2; 2; 3; 3; 4; 4; 5; 5]%nat /\
    stores_at 1 (trace h')
    = [ {| stored_at := 1; stored_value := 9 / 10 |};
        {| stored_at := 1;
           stored_value := 9 / 10 * penalty scenario_options ridge_best |} ].
Proof.
  eexists. split; [apply ridge_ScoreCandidates|].
  destruct (ScoreCandidates_frame scenario_options
              (Grid2D_ProbabilityGrid ridge_grid) ridge_scans ridge_window
              {| candidates_of := ridge_candidates; trace := [] |}
              _ tt (ridge_ScoreCandidates scenario_options))
    as (Hlen & raws & stores & Hraws & Hscored & Hstores & Htrace & Hcand
        & _).
  cbn [candidates_of trace app] in Hlen, Hraws, Hscored, Hstores, Htrace,
    Hcand.
  assert (Hr : raws = ridge_raw_scores)
    by exact (raw_scores_functional _ _ _ _ _ Hraws ridge_raw_score).
  subst raws.
  split; [exact Hlen|]. split; [reflexivity|].
  split; [rewrite Htrace, Hstores; reflexivity|].
  destruct (Hcand 1%nat ridge_best eq_refl)
    as (c' & raw & _ & _ & Hraw & _ & Hst & _).
  assert (E : raw_score (Grid2D_ProbabilityGrid ridge_grid) ridge_scans
                ridge_best = Returns (9 / 10)).
  { exact (Forall2_nth_error _ _ _ ridge_raw_score 1%nat ridge_best
             (9 / 10) eq_refl eq_refl). }
  rewrite E in Hraw. injection Hraw as <-.
  rewrite Htrace. exact Hst.
Defined.

(** On the scenario the one candidate is stored to twice: by
    [candidate.score = ComputeCandidateScore(...)] and by
    [candidate.score *= std::exp(...)]. *)
Lemma ScoreCandidates_stores_score_twice : ~ stores_each_score_once.
Proof.
  intros Honce.
  specialize (Honce scenario_options scenario_grid scenario_scans
                window_single
                {| candidates_of := [scenario_candidate]; trace := [] |}
                _ tt _ (scenario_ScoreCandidates scenario_options)
                eq_refl 0%nat (Nat.lt_0_succ 0)).
  discriminate Honce.
Qed.

(** ** The switch on the grid type (claim C7) *)

(** On a grid of another tag and one candidate, [ScoreCandidates] returns. *)
Lemma ScoreCandidates_unknown_grid_returns : ~ unknown_grid_type_is_fatal.
Proof.
  intros Hfatal.
  specialize (Hfatal scenario_options unknown_grid scenario_scans
                window_single
                {| candidates_of := [scenario_candidate]; trace := [] |}
                eq_refl).
  rewrite ScoreCandidates_score_all in Hfatal.
  unfold unknown_grid in Hfatal. rewrite score_all_unknown in Hfatal.
  apply Hfatal. discriminate.
Qed.

(** C7, as the code has it.  The switch has the two cases
    [PROBABILITY_GRID] and [TSDF] and no default.  For a grid of any other
    tag [ScoreCandidates] does not stop: no case is taken, nothing is stored
    by the switch, and every candidate ends with the score it had on entry
    multiplied by its penalty factor (one store per candidate). *)
Theorem ScoreCandidates_unknown_grid_type :
  forall (options_ : RealTimeCorrelativeScanMatcherOptions) (grid : Grid2D)
         (discrete_scans : list DiscreteScan2D)
         (search_parameters : SearchParameters) (h : heap),
    GetGridType grid = UNKNOWN_GRID_TYPE ->
    ScoreCandidates options_ grid discrete_scans search_parameters h
    = Returns (tt,
        {| candidates_of :=
             map (fun c => set_score c (score c * penalty options_ c))
               (candidates_of h);
           trace :=
             trace h ++
             map (fun p => {| stored_at := fst p;
                              stored_value :=
                                score (snd p) * penalty options_ (snd p) |})
               (combine (seq 0 (length (candidates_of h)))
                  (candidates_of h)) |}) /\
    ~ fatal (ScoreCandidates options_ grid discrete_scans search_parameters h).
Proof.
  intros options_ grid discrete_scans search_parameters h Htag.
  destruct grid as [g|g|l]; try discriminate.
  assert (E : ScoreCandidates options_ (Grid2D_unknown l) discrete_scans
                search_parameters h
              = Returns (tt,
                  {| candidates_of :=
                       map (fun c => set_score c (score c * penalty options_ c))
                         (candidates_of h);
                     trace :=
                       trace h ++
                       map (fun p =>
                              {| stored_at := fst p;
                                 stored_value :=
                                   score (snd p) * penalty options_ (snd p) |})
                         (combine (seq 0 (length (candidates_of h)))
                            (candidates_of h)) |})).
  { rewrite ScoreCandidates_score_all, score_all_unknown. reflexivity. }
  split; [exact E|]. rewrite E. intros [].
Qed.

Lemma ScoreCandidates_unknown_grid_type_witness :
  ScoreCandidates scenario_options unknown_grid scenario_scans window_single
    {| candidates_of := [set_score scenario_candidate 7]; trace := [] |}
  = Returns (tt,
      {| candidates_of :=
           [set_score scenario_candidate
              (7 * penalty scenario_options scenario_candidate)];
         trace :=
           [ {| stored_at := 0;
                stored_value :=
                  7 * penalty scenario_options scenario_candidate |} ] |}).
Proof.
  apply (ScoreCandidates_unknown_grid_type scenario_options unknown_grid
           scenario_scans window_single
           {| candidates_of := [set_score scenario_candidate 7];
              trace := [] |}).
  reflexivity.
Defined.

(** ** The penalty factor (claim C4) *)

Lemma hypot_nonneg a b : 0 <= hypot a b.
Proof. apply sqrt_pos. Qed.

Lemma penalty_positive options_ c : 0 < penalty options_ c.
Proof. apply exp_pos. Qed.

Lemma penalty_le_1 options_ c : penalty options_ c <= 1.
Proof.
  unfold penalty, Pow2. rewrite <- exp_0.
  set (a := hypot (x c) (y c) * translation_delta_cost_weight options_
            + Rabs (orientation c) * rotation_delta_cost_weight options_).
  destruct (Req_dec_T (a * a) 0) as [E|E].
  - rewrite E, Ropp_0. apply Rle_refl.
  - left. apply exp_increasing. nra.
Qed.

Lemma penalty_monotone options_ c1 c2 :
  0 <= displacement_cost options_ c1 <= displacement_cost options_ c2 ->
  penalty options_ c2 <= penalty options_ c1.
Proof.
  intros [Hpos [Hlt|Heq]]; unfold penalty;
    fold (displacement_cost options_ c1);
    fold (displacement_cost options_ c2).
  - left. apply exp_increasing. unfold Pow2. nra.
  - right. now rewrite Heq.
Qed.

(** With zero weights the candidates at offsets (0, 0) and (1, 0) of the 3x3
    window get the same final score, although the second is farther away. *)
Lemma penalty_not_strict_with_zero_weight : ~ penalty_strict_in_translation.
Proof.
  intros Hstrict.
  specialize (Hstrict options_without_penalty (6 / 10)
                (Candidate2D_new 0 0 0 window_3x3)
                (Candidate2D_new 0 1 0 window_3x3)).
  unfold penalty, Pow2 in Hstrict.
  cbn [Candidate2D_new x y orientation options_without_penalty
       translation_delta_cost_weight rotation_delta_cost_weight
       window_3x3 resolution] in Hstrict.
  rewrite !Rmult_0_r, !Rmult_0_l, !Rmult_1_r in Hstrict.
  rewrite Rplus_0_r in Hstrict.
  eapply Rlt_irrefl. apply Hstrict; [|reflexivity].
  rewrite hypot_0. unfold hypot.
  rewrite Rmult_0_r, Rplus_0_r, Rmult_1_r, sqrt_1. lra.
Qed.

(** C4, as the code has it.  When [ScoreCandidates] returns, the score of
    every candidate is its raw score multiplied by
    exp(-(hypot(x, y) * translation weight + |orientation| * rotation
    weight)^2).  With non-negative weights and a non-negative raw score the
    final score does not increase when hypot(x, y) and |orientation| do not
    decrease.  Nothing more is stated: the decrease is not strict, since a
    zero weight or a zero raw score leaves the final score as it is, and so
    does an increase that the float arithmetic of the program rounds
    away. *)
Theorem ScoreCandidates_penalty :
  forall (options_ : RealTimeCorrelativeScanMatcherOptions),
    (forall (grid : Grid2D) (discrete_scans : list DiscreteScan2D)
            (search_parameters : SearchParameters) (h h' : heap) (u : unit),
        ScoreCandidates options_ grid discrete_scans search_parameters h
        = Returns (u, h') ->
        forall i c,
          nth_error (candidates_of h) i = Some c ->
          exists c' raw,
            nth_error (candidates_of h') i = Some c' /\
            raw_score grid discrete_scans c = Returns raw /\
            score c'
            = raw * exp (- ((hypot (x c) (y c)
                             * translation_delta_cost_weight options_
                             + Rabs (orientation c)
                               * rotation_delta_cost_weight options_)
                            * (hypot (x c) (y c)
                               * translation_delta_cost_weight options_
                               + Rabs (orientation c)
                                 * rotation_delta_cost_weight options_)))) /\
    (forall (raw : R) (c1 c2 : Candidate2D),
        0 <= translation_delta_cost_weight options_ ->
        0 <= rotation_delta_cost_weight options_ ->
        hypot (x c1) (y c1) <= hypot (x c2) (y c2) ->
        Rabs (orientation c1) <= Rabs (orientation c2) ->
        0 <= raw ->
        raw * penalty options_ c2 <= raw * penalty options_ c1).
Proof.
  intros options_. split.
  - intros grid discrete_scans search_parameters h h' u H i c Hc.
    rewrite ScoreCandidates_score_all in H.
    destruct (score_all options_ grid discrete_scans 0 (candidates_of h))
      as [[scored stores]|f] eqn:E; cbn [bind fst snd] in H; [|discriminate].
    injection H as _ <-. cbn [candidates_of].
    destruct (score_all_spec _ _ _ _ _ _ _ E) as [_ Hnth].
    destruct (Hnth i c Hc) as (raw & Hraw & Hsc & _).
    exists (set_score c (raw * penalty options_ c)), raw.
    repeat split; assumption.
  - intros raw c1 c2 Htw Hrw Hh Ho Hraw.
    pose proof (hypot_nonneg (x c1) (y c1)) as Hh1.
    pose proof (Rabs_pos (orientation c1)) as Ho1.
    assert (H1 : 0 <= displacement_cost options_ c1)
      by (unfold displacement_cost; nra).
    assert (H12 : displacement_cost options_ c1
                  <= displacement_cost options_ c2)
      by (unfold displacement_cost; nra).
    pose proof (penalty_monotone options_ c1 c2 (conj H1 H12)). nra.
Qed.

Lemma ScoreCandidates_penalty_witness :
  (exists h' c',
      ScoreCandidates scenario_options (Grid2D_ProbabilityGrid ridge_grid)
        ridge_scans ridge_window
        {| candidates_of := ridge_candidates; trace := [] |}
      = Returns (tt, h') /\
      nth_error (candidates_of h') 1 = Some c' /\
      score c' = 9 / 10 * exp (- (6 / 1000 * (6 / 1000)))) /\
  9 / 10 * penalty scenario_options ridge_best
  <= 9 / 10 * penalty scenario_options ridge_origin.
Proof.
  destruct (ScoreCandidates_penalty scenario_options) as [Hscore Hmono].
  split.
  - destruct (Hscore (Grid2D_ProbabilityGrid ridge_grid) ridge_scans
                ridge_window
                {| candidates_of := ridge_candidates; trace := [] |}
                _ tt (ridge_ScoreCandidates scenario_options)
                1%nat ridge_best eq_refl)
      as (c' & raw & Hnth & Hraw & Hc').
    assert (E : raw_score (Grid2D_ProbabilityGrid ridge_grid) ridge_scans
                  ridge_best = Returns (9 / 10)).
    { exact (Forall2_nth_error _ _ _ ridge_raw_score 1%nat ridge_best
               (9 / 10) eq_refl eq_refl). }
    rewrite E in Hraw. injection Hraw as <-.
    eexists _, c'. split; [apply ridge_ScoreCandidates|].
    split; [exact Hnth|]. rewrite Hc'.
    destruct ridge_best_displacement as [-> ->].
    cbn [scenario_options translation_delta_cost_weight
         rotation_delta_cost_weight].
    do 3 f_equal; lra.
  - destruct ridge_origin_at_origin as (Hx & Hy & Ho).
    destruct ridge_best_displacement as [Hh Hr].
    apply Hmono;
      rewrite ?Hx, ?Hy, ?Ho, ?Hh, ?Hr, ?hypot_0, ?Rabs_R0;
      cbn [scenario_options translation_delta_cost_weight
           rotation_delta_cost_weight]; lra.
Defined.

(** ** std::max_element *)

Lemma Candidate2D_lt_spec a b :
  Candidate2D_lt a b = true <-> score a < score b.
Proof.
  unfold Candidate2D_lt. destruct (Rlt_dec (score a) (score b));
    split; intros; try discriminate; try reflexivity; tauto.
Qed.

Lemma max_element_loop_spec rest :
  forall pre largest largest_candidate,
    nth_error pre largest = Some largest_candidate ->
    (forall c, In c pre -> score c <= score largest_candidate) ->
    (forall j c, (j < largest)%nat -> nth_error pre j = Some c ->
                 score c < score largest_candidate) ->
    exists best,
      nth_error (pre ++ rest)
        (max_element_loop largest largest_candidate (length pre) rest)
      = Some best /\
      (forall c, In c (pre ++ rest) -> score c <= score best) /\
      (forall j c,
          (j < max_element_loop largest largest_candidate (length pre) rest)%nat ->
          nth_error (pre ++ rest) j = Some c -> score c < score best).
Proof.
  induction rest as [|c rest IH]; intros pre lg lc Hlg Hmax Hfirst;
    cbn [max_element_loop].
  - rewrite app_nil_r. eauto.
  - assert (Hlen : (lg < length pre)%nat)
      by (apply nth_error_Some; congruence).
    replace (pre ++ c :: rest) with ((pre ++ [c]) ++ rest)
      by now rewrite <- app_assoc.
    replace (S (length pre)) with (length (pre ++ [c]))
      by (rewrite length_app; cbn; lia).
    destruct (Candidate2D_lt lc c) eqn:Hlt.
    + apply Candidate2D_lt_spec in Hlt. apply IH.
      * apply nth_error_middle.
      * intros c' Hin. apply in_app_or in Hin. destruct Hin as [Hin|[<-|[]]].
        -- apply Hmax in Hin. lra.
        -- lra.
      * intros j c' Hj Hnth. rewrite nth_error_app1 in Hnth by exact Hj.
        apply nth_error_In in Hnth. apply Hmax in Hnth. lra.
    + assert (Hge : score c <= score lc).
      { destruct (Rle_dec (score c) (score lc)) as [H|H]; [exact H|].
        assert (Candidate2D_lt lc c = true)
          by (apply Candidate2D_lt_spec; lra).
        congruence. }
      apply IH.
      * rewrite nth_error_app1 by exact Hlen. exact Hlg.
      * intros c' Hin. apply in_app_or in Hin. destruct Hin as [Hin|[<-|[]]].
        -- now apply Hmax.
        -- exact Hge.
      * intros j c' Hj Hnth. rewrite nth_error_app1 in Hnth by lia.
        now apply (Hfirst j).
Qed.

Lemma max_element_spec candidates :
  candidates <> [] ->
  exists best,
    nth_error candidates (max_element candidates) = Some best /\
    (forall c, In c candidates -> score c <= score best) /\
    (forall j c, (j < max_element candidates)%nat ->
                 nth_error candidates j = Some c -> score c < score best).
Proof.
  destruct candidates as [|c rest]; [contradiction|]. intros _.
  unfold max_element.
  apply (max_element_loop_spec rest [c] 0 c).
  - reflexivity.
  - intros c' [<-|[]]. lra.
  - intros j c' Hj. lia.
Qed.

Lemma max_element_empty :
  nth_error ([] : list Candidate2D) (max_element []) = None.
Proof. reflexivity. Qed.

Lemma max_element_at pre best post :
  (forall c, In c pre -> score c < score best) ->
  (forall c, In c post -> score c <= score best) ->
  max_element (pre ++ best :: post) = length pre.
Proof.
  intros Hpre Hpost.
  assert (Hne : pre ++ best :: post <> [])
    by (destruct pre; discriminate).
  destruct (max_element_spec _ Hne) as (b & Hnth & Hmax & Hfirst).
  set (m := max_element (pre ++ best :: post)) in *.
  assert (Hbest : score best <= score b)
    by (apply Hmax, in_or_app; right; now left).
  destruct (Nat.lt_trichotomy m (length pre)) as [Hlt|[Heq|Hgt]].
  - rewrite nth_error_app1 in Hnth by exact Hlt.
    apply nth_error_In, Hpre in Hnth. lra.
  - exact Heq.
  - pose proof (Hfirst (length pre) best Hgt (nth_error_middle _ _ _)) as Hs.
    rewrite nth_error_app2 in Hnth by lia.
    destruct (m - length pre)%nat as [|k] eqn:Ek; [lia|].
    cbn [nth_error] in Hnth. apply nth_error_In, Hpost in Hnth. lra.
Qed.

(** ** Where a call can stop *)

Lemma GenerateExhaustiveSearchCandidates_returns search_parameters :
  window_well_formed search_parameters ->
  GenerateExhaustiveSearchCandidates search_parameters
  = Returns (map (candidate_of_triple search_parameters)
               (triples search_parameters)).
Proof.
  intros [Hr Hord].
  pose proof (triples_length_ordered search_parameters Hord) as Hlen.
  destruct (GenerateExhaustiveSearchCandidates_cases search_parameters)
    as [[Hn _]|[(_ & Hneg & _)|[(_ & _ & Hne & _)|(_ & _ & E)]]].
  - contradiction.
  - lia.
  - exfalso. apply Hne. now rewrite length_map.
  - exact E.
Qed.

Lemma GenerateExhaustiveSearchCandidates_failure search_parameters f :
  GenerateExhaustiveSearchCandidates search_parameters = Aborts f ->
  enumeration_failure f.
Proof.
  intros H. unfold enumeration_failure.
  destruct (GenerateExhaustiveSearchCandidates_cases search_parameters)
    as [[_ E]|[(_ & _ & E)|[(_ & _ & _ & E)|(_ & _ & E)]]];
    rewrite E in H; try discriminate; injection H as <-; auto.
Qed.

Lemma raw_score_failure grid discrete_scans c f :
  raw_score grid discrete_scans c = Aborts f -> scoring_failure f.
Proof.
  unfold raw_score, scoring_failure. destruct grid as [g|g|l].
  - destruct (at_index discrete_scans (scan_index c)) as [scan|];
      cbn [lift_option bind]; intros H.
    + destruct (ComputeCandidateScore_ProbabilityGrid_cases g scan
                  (x_index_offset c) (y_index_offset c))
        as [[_ E]|[_ E]]; rewrite E in H; try discriminate.
      injection H as <-. auto.
    + injection H as <-. auto.
  - destruct (at_index discrete_scans (scan_index c)) as [scan|];
      cbn [lift_option bind]; intros H.
    + destruct (ComputeCandidateScore_TSDF2D_cases g scan
                  (x_index_offset c) (y_index_offset c))
        as [[_ E]|[(_ & _ & E)|(_ & _ & E)]]; rewrite E in H;
        try discriminate.
      injection H as <-. auto.
    + injection H as <-. auto.
  - discriminate.
Qed.

Lemma score_all_failure options_ grid discrete_scans l :
  forall i f,
    score_all options_ grid discrete_scans i l = Aborts f ->
    scoring_failure f.
Proof.
  induction l as [|c l IH]; intros i f H; cbn [score_all] in H;
    [discriminate|].
  destruct (raw_score grid discrete_scans c) as [raw|f'] eqn:Eraw;
    cbn [bind] in H.
  - destruct (score_all options_ grid discrete_scans (S i) l)
      as [r|f'] eqn:E; cbn [bind] in H; [discriminate|].
    injection H as <-. exact (IH _ _ E).
  - injection H as <-. exact (raw_score_failure _ _ _ _ Eraw).
Qed.

Lemma ScoreCandidates_failure options_ grid discrete_scans search_parameters
    h f :
  ScoreCandidates options_ grid discrete_scans search_parameters h = Aborts f ->
  scoring_failure f.
Proof.
  rewrite ScoreCandidates_score_all. intros H.
  destruct (score_all options_ grid discrete_scans 0 (candidates_of h))
    as [r|f'] eqn:E; cbn [bind] in H; [discriminate|].
  injection H as <-. exact (score_all_failure _ _ _ _ _ _ E).
Qed.

(** ** Match (claims C1 and C8) *)

Section MatchProperties.

Variable PointCloud : Type.
Variable TransformPointCloud : PointCloud -> R -> PointCloud.
Variable SearchParameters_new :
  R -> R -> PointCloud -> R -> option SearchParameters.
Variable GenerateRotatedScans :
  PointCloud -> SearchParameters -> list PointCloud.
Variable DiscretizeScans :
  MapLimits -> list PointCloud -> R * R -> list DiscreteScan2D.
Variable options_ : RealTimeCorrelativeScanMatcherOptions.

Lemma Match_returns :
  forall (initial_pose_estimate : Rigid2d) (point_cloud : PointCloud)
         (grid : Grid2D) (old : Rigid2d)
         (search_parameters : SearchParameters),
    Match_search_parameters TransformPointCloud SearchParameters_new
      options_ initial_pose_estimate point_cloud grid
    = Some search_parameters ->
    window_well_formed search_parameters ->
    triples search_parameters <> [] ->
    (forall t,
        In t (triples search_parameters) ->
        exists raw,
          raw_score grid
            (Match_discrete_scans TransformPointCloud GenerateRotatedScans
               DiscretizeScans initial_pose_estimate point_cloud grid
               search_parameters)
            (candidate_of_triple search_parameters t)
          = Returns raw) ->
    exists pose returned,
      Match TransformPointCloud SearchParameters_new GenerateRotatedScans
        DiscretizeScans options_ initial_pose_estimate point_cloud grid
        (Some old)
      = Returns (pose, returned).
Proof.
  intros initial_pose_estimate point_cloud grid old search_parameters
    Hsp Hwf Hne Hraw.
  unfold Match.
  fold (Match_search_parameters TransformPointCloud SearchParameters_new
          options_ initial_pose_estimate point_cloud grid).
  rewrite Hsp. cbn [lift_option bind].
  fold (Match_discrete_scans TransformPointCloud GenerateRotatedScans
          DiscretizeScans initial_pose_estimate point_cloud grid
          search_parameters).
  rewrite (GenerateExhaustiveSearchCandidates_returns _ Hwf). cbn [bind].
  rewrite ScoreCandidates_score_all. cbn [candidates_of trace].
  set (scans := Match_discrete_scans TransformPointCloud GenerateRotatedScans
                  DiscretizeScans initial_pose_estimate point_cloud grid
                  search_parameters) in *.
  set (enumerated := map (candidate_of_triple search_parameters)
                       (triples search_parameters)).
  destruct (score_all_total options_ grid scans enumerated) with (i := 0%nat)
    as [[scored stores] E].
  { intros c Hc. apply in_map_iff in Hc. destruct Hc as (t & <- & Ht).
    now apply Hraw. }
  rewrite E. cbn [bind fst snd candidates_of].
  destruct (score_all_spec _ _ _ _ _ _ _ E) as [Hlen _].
  assert (Hscored : scored <> []).
  { intros ->. unfold enumerated in Hlen. rewrite length_map in Hlen.
    destruct (triples search_parameters); [contradiction | discriminate]. }
  destruct (max_element_spec scored Hscored) as (best & -> & _).
  cbn [lift_option bind]. eauto.
Qed.

(** C1.  When [Match] returns, the candidates were enumerated from the
    search parameters and scored against the grid; [best] is the candidate
    at the position [std::max_element] selects: no candidate has a larger
    score, and every candidate before it has a strictly smaller one, so
    among the candidates of maximal score it is the first in enumeration
    order.  The pose written to [pose_estimate] has the translation of the
    initial pose plus (best.x, best.y) and the rotation of the initial pose
    composed with the rotation by best.orientation (its angle is the angle
    of the initial pose plus best.orientation), and the value returned is
    best.score.  [Match] does return when [pose_estimate] is not null, the
    search window is well formed and not empty, and every candidate can be
    scored. *)
Theorem Match_selects_best :
  (forall (initial_pose_estimate : Rigid2d) (point_cloud : PointCloud)
          (grid : Grid2D) (pose_estimate : option Rigid2d)
          (pose : Rigid2d) (returned : R),
      Match TransformPointCloud SearchParameters_new GenerateRotatedScans
        DiscretizeScans options_ initial_pose_estimate point_cloud grid
        pose_estimate
      = Returns (pose, returned) ->
      exists search_parameters enumerated scored best,
        Match_search_parameters TransformPointCloud SearchParameters_new
          options_ initial_pose_estimate point_cloud grid
        = Some search_parameters /\
        GenerateExhaustiveSearchCandidates search_parameters
        = Returns enumerated /\
        ScoreCandidates options_ grid
          (Match_discrete_scans TransformPointCloud GenerateRotatedScans
             DiscretizeScans initial_pose_estimate point_cloud grid
             search_parameters)
          search_parameters {| candidates_of := enumerated; trace := [] |}
        = Returns (tt, scored) /\
        nth_error (candidates_of scored) (max_element (candidates_of scored))
        = Some best /\
        (forall c, In c (candidates_of scored) -> score c <= score best) /\
        (forall j c,
            (j < max_element (candidates_of scored))%nat ->
            nth_error (candidates_of scored) j = Some c ->
            score c < score best) /\
        translation pose
        = (fst (translation initial_pose_estimate) + x best,
           snd (translation initial_pose_estimate) + y best) /\
        angle (rotation pose)
        = angle (rotation initial_pose_estimate) + orientation best /\
        returned = score best) /\
  (forall (initial_pose_estimate : Rigid2d) (point_cloud : PointCloud)
          (grid : Grid2D) (old : Rigid2d)
          (search_parameters : SearchParameters),
      Match_search_parameters TransformPointCloud SearchParameters_new
        options_ initial_pose_estimate point_cloud grid
      = Some search_parameters ->
      window_well_formed search_parameters ->
      triples search_parameters <> [] ->
      (forall t,
          In t (triples search_parameters) ->
          exists raw,
            raw_score grid
              (Match_discrete_scans TransformPointCloud GenerateRotatedScans
                 DiscretizeScans initial_pose_estimate point_cloud grid
                 search_parameters)
              (candidate_of_triple search_parameters t)
            = Returns raw) ->
      exists pose returned,
        Match TransformPointCloud SearchParameters_new GenerateRotatedScans
          DiscretizeScans options_ initial_pose_estimate point_cloud grid
          (Some old)
        = Returns (pose, returned)).
Proof.
  split; [|exact Match_returns].
  intros initial_pose_estimate point_cloud grid pose_estimate pose
    returned H.
  unfold Match in H.
  destruct pose_estimate as [old|]; [|discriminate].
  fold (Match_search_parameters TransformPointCloud SearchParameters_new
          options_ initial_pose_estimate point_cloud grid) in H.
  destruct (Match_search_parameters TransformPointCloud SearchParameters_new
              options_ initial_pose_estimate point_cloud grid)
    as [search_parameters|] eqn:Esp; cbn [lift_option bind] in H;
    [|discriminate].
  fold (Match_discrete_scans TransformPointCloud GenerateRotatedScans
          DiscretizeScans initial_pose_estimate point_cloud grid
          search_parameters) in H.
  destruct (GenerateExhaustiveSearchCandidates search_parameters)
    as [enumerated|f] eqn:Egen; cbn [bind] in H; [|discriminate].
  destruct (ScoreCandidates options_ grid
              (Match_discrete_scans TransformPointCloud
                 GenerateRotatedScans DiscretizeScans
                 initial_pose_estimate point_cloud grid search_parameters)
              search_parameters
              {| candidates_of := enumerated; trace := [] |})
    as [[[] scored]|f] eqn:Escore; cbn [bind snd] in H; [|discriminate].
  destruct (nth_error (candidates_of scored)
              (max_element (candidates_of scored)))
    as [best|] eqn:Ebest; cbn [lift_option bind] in H; [|discriminate].
  injection H as <- <-.
  exists search_parameters, enumerated, scored, best.
  assert (Hne : candidates_of scored <> []).
  { intros Hnil. rewrite Hnil in Ebest. discriminate. }
  destruct (max_element_spec (candidates_of scored) Hne)
    as (best' & Hbest' & Hmax & Hfirst).
  rewrite Ebest in Hbest'. injection Hbest' as <-.
  repeat split; auto.
Qed.

(** C8.  With a null [pose_estimate], [Match] stops at
    [CHECK(pose_estimate != nullptr)] whatever its other arguments are,
    also when a later step would have stopped.  With a non-null
    [pose_estimate] the call never stops at that check, and what it does
    does not depend on the previous contents of the object. *)
Theorem Match_pose_estimate_check :
  (forall (initial_pose_estimate : Rigid2d) (point_cloud : PointCloud)
          (grid : Grid2D),
      Match TransformPointCloud SearchParameters_new GenerateRotatedScans
        DiscretizeScans options_ initial_pose_estimate point_cloud grid None
      = Aborts CHECK_pose_estimate_not_null) /\
  (forall (initial_pose_estimate : Rigid2d) (point_cloud : PointCloud)
          (grid : Grid2D) (old : Rigid2d),
      Match TransformPointCloud SearchParameters_new GenerateRotatedScans
        DiscretizeScans options_ initial_pose_estimate point_cloud grid (Some old)
      <> Aborts CHECK_pose_estimate_not_null) /\
  (forall (initial_pose_estimate : Rigid2d) (point_cloud : PointCloud)
          (grid : Grid2D) (old old' : Rigid2d),
      Match TransformPointCloud SearchParameters_new GenerateRotatedScans
        DiscretizeScans options_ initial_pose_estimate point_cloud grid (Some old)
      = Match TransformPointCloud SearchParameters_new GenerateRotatedScans
        DiscretizeScans options_ initial_pose_estimate point_cloud grid (Some old')).
Proof.
  split; [reflexivity|]. split; [|reflexivity].
  intros initial_pose_estimate point_cloud grid old H.
  unfold Match in H.
  fold (Match_search_parameters TransformPointCloud SearchParameters_new
        options_ initial_pose_estimate point_cloud grid) in H.
  destruct (Match_search_parameters TransformPointCloud SearchParameters_new
        options_ initial_pose_estimate point_cloud grid)
    as [search_parameters|]; cbn [lift_option bind] in H; [|discriminate].
  destruct (GenerateExhaustiveSearchCandidates search_parameters)
    as [enumerated|f] eqn:Egen; cbn [bind] in H.
  - match type of H with
    | context [ScoreCandidates ?o ?g ?s ?p ?h] =>
        destruct (ScoreCandidates o g s p h) as [[[] scored]|f] eqn:Escore
    end; cbn [bind snd] in H.
    + destruct (nth_error (candidates_of scored)
                  (max_element (candidates_of scored)));
        cbn [lift_option bind] in H; discriminate.
    + injection H as ->.
      apply ScoreCandidates_failure in Escore.
      destruct Escore as [E|[E|E]]; discriminate.
  - injection H as ->.
    apply GenerateExhaustiveSearchCandidates_failure in Egen.
    destruct Egen as [E|[E|E]]; discriminate.
Qed.

End MatchProperties.

(** ** The end-to-end scenario through Match *)

Lemma scenario_Match_returns old :
  scenario_Match (Some old)
  = Returns ({| translation := (1 / 10 + x scenario_candidate,
                                1 / 10 + y scenario_candidate);
                rotation :=
                  Rotation2D_mul {| angle := 0 |}
                    {| angle := orientation scenario_candidate |} |},
             6 / 10 * 1).
Proof.
  unfold scenario_Match, Match.
  cbn [scenario_SearchParameters_new lift_option bind].
  change (GenerateExhaustiveSearchCandidates window_single)
    with (Returns [scenario_candidate]).
  cbn [bind scenario_DiscretizeScans limits scenario_grid].
  fold scenario_grid. rewrite scenario_ScoreCandidates.
  reflexivity.
Qed.

Lemma ridge_best_penalty_bound :
  99 / 100 <= penalty scenario_options ridge_best.
Proof.
  rewrite ridge_best_penalty.
  pose proof (exp_ineq1_le (- Pow2 (6 / 1000))) as H.
  unfold Pow2 in *. lra.
Qed.

Lemma ridge_max_element :
  max_element
    (with_final_scores scenario_options
       (combine ridge_candidates ridge_raw_scores)) = 1%nat.
Proof.
  pose proof ridge_best_penalty_bound as Hbest.
  pose proof ridge_twin_penalty as Htwin.
  rewrite <- ridge_best_penalty in Htwin.
  change (with_final_scores scenario_options
            (combine ridge_candidates ridge_raw_scores))
    with ([set_score (Candidate2D_new 0 0 0 ridge_window)
             (3 / 10 * penalty scenario_options
                         (Candidate2D_new 0 0 0 ridge_window))]
          ++ set_score ridge_best
               (9 / 10 * penalty scenario_options ridge_best)
             :: [ set_score ridge_origin
                    (2 / 10 * penalty scenario_options ridge_origin);
                  set_score (Candidate2D_new 1 1 0 ridge_window)
                    (3 / 10 * penalty scenario_options
                                (Candidate2D_new 1 1 0 ridge_window));
                  set_score (Candidate2D_new 2 0 0 ridge_window)
                    (3 / 10 * penalty scenario_options
                                (Candidate2D_new 2 0 0 ridge_window));
                  set_score ridge_twin
                    (9 / 10 * penalty scenario_options ridge_twin) ]).
  apply max_element_at.
  - intros c [<-|[]]. cbn [set_score score].
    pose proof (penalty_le_1 scenario_options
                  (Candidate2D_new 0 0 0 ridge_window)). lra.
  - intros c Hc. repeat (destruct Hc as [<-|Hc]); [| | | |destruct Hc];
      cbn [set_score score];
      match goal with
      | |- context [penalty scenario_options ridge_twin] => rewrite Htwin
      | |- context [_ * penalty scenario_options ?c0 <= _] =>
          pose proof (penalty_le_1 scenario_options c0)
      end; lra.
Qed.

Lemma ridge_Match_returns old :
  ridge_Match (Grid2D_ProbabilityGrid ridge_grid) (Some old)
  = Returns ({| translation := (1 / 10 + x ridge_best,
                                2 / 10 + y ridge_best);
                rotation :=
                  Rotation2D_mul {| angle := 3 / 10 |}
                    {| angle := orientation ridge_best |} |},
             9 / 10 * penalty scenario_options ridge_best).
Proof.
  unfold ridge_Match, Match.
  cbn [ridge_SearchParameters_new lift_option bind].
  change (GenerateExhaustiveSearchCandidates ridge_window)
    with (Returns ridge_candidates).
  cbn [bind ridge_DiscretizeScans limits].
  rewrite ridge_ScoreCandidates. cbn [bind snd candidates_of].
  rewrite ridge_max_element. reflexivity.
Qed.

Lemma Match_selects_best_witness :
  exists pose returned scored best twin,
    ridge_Match (Grid2D_ProbabilityGrid ridge_grid)
      (Some scenario_initial_pose)
    = Returns (pose, returned) /\
    ScoreCandidates scenario_options (Grid2D_ProbabilityGrid ridge_grid)
      ridge_scans ridge_window
      {| candidates_of := ridge_candidates; trace := [] |}
    = Returns (tt, scored) /\
    max_element (candidates_of scored) = 1%nat /\
    nth_error (candidates_of scored) 1 = Some best /\
    nth_error (candidates_of scored) 5 = Some twin /\
    index_triple best = (0, 1, 0)%Z /\
    index_triple twin = (2, 1, 0)%Z /\
    score twin = score best /\
    (forall c, In c (candidates_of scored) -> score c <= score best) /\
    translation pose = (15 / 100, 2 / 10) /\
    angle (rotation pose) = 29 / 100 /\
    returned = 9 / 10 * exp (- (6 / 1000 * (6 / 1000))).
Proof.
  destruct (Match_selects_best scenario_PointCloud
              scenario_TransformPointCloud ridge_SearchParameters_new
              ridge_GenerateRotatedScans ridge_DiscretizeScans
              scenario_options) as [Hbest _].
  destruct (Hbest ridge_initial_pose [(0, 0)]
              (Grid2D_ProbabilityGrid ridge_grid)
              (Some scenario_initial_pose) _ _
              (ridge_Match_returns scenario_initial_pose))
    as (sp & enumerated & scored & best & Hsp & Hgen & Hscore & Hnth
        & Hmax & _ & Htr & Hrot & Hret).
  injection Hsp as <-.
  change (GenerateExhaustiveSearchCandidates ridge_window)
    with (Returns ridge_candidates) in Hgen.
  injection Hgen as <-.
  change (Match_discrete_scans scenario_TransformPointCloud
            ridge_GenerateRotatedScans ridge_DiscretizeScans
            ridge_initial_pose [(0, 0)] (Grid2D_ProbabilityGrid ridge_grid)
            ridge_window) with ridge_scans in Hscore.
  assert (Hscored :
            scored
            = {| candidates_of :=
                   with_final_scores scenario_options
                     (combine ridge_candidates ridge_raw_scores);
                 trace :=
                   stores_in_order scenario_options
                     (Grid2D_ProbabilityGrid ridge_grid) 0
                     (combine ridge_candidates ridge_raw_scores) |}).
  { rewrite ridge_ScoreCandidates in Hscore.
    injection Hscore as E. symmetry. exact E. }
  subst scored. cbn [candidates_of] in Hnth, Hmax.
  rewrite ridge_max_element in Hnth. injection Hnth as <-.
  exists {| translation := (1 / 10 + x ridge_best, 2 / 10 + y ridge_best);
            rotation :=
              Rotation2D_mul {| angle := 3 / 10 |}
                {| angle := orientation ridge_best |} |},
    (9 / 10 * penalty scenario_options ridge_best),
    {| candidates_of :=
         with_final_scores scenario_options
           (combine ridge_candidates ridge_raw_scores);
       trace :=
         stores_in_order scenario_options
           (Grid2D_ProbabilityGrid ridge_grid) 0
           (combine ridge_candidates ridge_raw_scores) |},
    (set_score ridge_best (9 / 10 * penalty scenario_options ridge_best)),
    (set_score ridge_twin (9 / 10 * penalty scenario_options ridge_twin)).
  split; [apply ridge_Match_returns|].
  split; [apply ridge_ScoreCandidates|].
  split; [exact ridge_max_element|].
  split; [reflexivity|]. split; [reflexivity|].
  split; [reflexivity|]. split; [reflexivity|].
  split.
  { cbn [set_score score]. rewrite ridge_twin_penalty, ridge_best_penalty.
    reflexivity. }
  split; [exact Hmax|].
  split.
  { etransitivity; [exact Htr|].
    cbn [translation fst snd ridge_initial_pose set_score
         candidate_of_triple Candidate2D_new x y ridge_window resolution].
    f_equal; lra. }
  split.
  { etransitivity; [exact Hrot|].
    cbn [rotation angle ridge_initial_pose set_score candidate_of_triple
         Candidate2D_new orientation scan_rotation ridge_window fst snd
         num_angular_perturbations angular_perturbation_step_size
         Z.sub Z.opp Z.add Z.pos_sub].
    unfold scan_rotation.
    cbn [ridge_window num_angular_perturbations
         angular_perturbation_step_size Z.sub Z.opp Z.add Z.pos_sub]. lra. }
  etransitivity; [exact Hret|].
  change (9 / 10 * penalty scenario_options ridge_best
          = 9 / 10 * exp (- (6 / 1000 * (6 / 1000)))).
  rewrite ridge_best_penalty. reflexivity.
Defined.

(** The scenario's outcome: the returned pose is the initial pose and the
    score is 0.6. *)
Lemma scenario_candidate_at_origin :
  x scenario_candidate = 0 /\ y scenario_candidate = 0 /\
  orientation scenario_candidate = 0.
Proof.
  unfold scenario_candidate, Candidate2D_new, scan_rotation.
  cbn [x y orientation window_single resolution num_angular_perturbations
       angular_perturbation_step_size Z.sub Z.opp Z.add].
  repeat split; lra.
Qed.

Lemma scenario_Match_pose_and_score old :
  scenario_Match (Some old) = Returns (scenario_initial_pose, 6 / 10).
Proof.
  rewrite scenario_Match_returns. unfold scenario_initial_pose, Rotation2D_mul.
  destruct scenario_candidate_at_origin as (-> & -> & ->).
  cbn [angle].
  replace (1 / 10 + 0) with (1 / 10) by lra.
  replace (0 + 0) with 0 by lra.
  replace (6 / 10 * 1) with (6 / 10) by lra.
  reflexivity.
Qed.

(** Among candidates of equal maximal score [max_element] selects the first:
    for the scores 1, 3, 3, 2 it returns position 1. *)
Lemma max_element_first_of_equals :
  max_element (map (set_score scenario_candidate) [1; 3; 3; 2]) = 1%nat.
Proof.
  cbn [map max_element max_element_loop].
  repeat match goal with
    | |- context [Candidate2D_lt ?a ?b] =>
        let E := fresh "E" in
        destruct (Candidate2D_lt a b) eqn:E;
        [ apply Candidate2D_lt_spec in E; cbn [set_score score] in E
        | assert (~ score a < score b)
            by (rewrite <- Candidate2D_lt_spec; congruence);
          cbn [set_score score] in * ];
        try lra; cbn [max_element_loop]
    end.
  reflexivity.
Qed.


(** * Further properties of the scorers *)

(** ** Offsets are translations of the scan *)

Lemma proposed_xy_index_compose xy_index a b dx dy :
  proposed_xy_index (proposed_xy_index xy_index a b) dx dy
  = proposed_xy_index xy_index (a + dx) (b + dy).
Proof.
  unfold proposed_xy_index. cbn [fst snd]. f_equal; lia.
Qed.

Lemma fold_left_map_ext {A B C} (f : A -> C -> A) (g : A -> B -> A)
    (m : B -> C) (l : list B) (acc : A) :
  (forall a b, f a (m b) = g a b) ->
  fold_left f (map m l) acc = fold_left g l acc.
Proof.
  intros H. revert acc.
  induction l as [|b l IH]; intros acc; cbn [map fold_left];
    [reflexivity|].
  now rewrite H, IH.
Qed.

(** X1.  Scoring a scan that was moved by (a, b) with the offset (dx, dy)
    is scoring the scan itself with the offset (a + dx, b + dy), for both
    overloads of [ComputeCandidateScore]: the result, stops included, is the
    same.  In particular an offset is nothing but a translation of the
    discrete scan. *)
Theorem ComputeCandidateScore_offset_composition :
  forall (probability_grid : ProbabilityGrid) (tsdf : TSDF2D)
         (discrete_scan : DiscreteScan2D) (a b dx dy : Z),
    ComputeCandidateScore_ProbabilityGrid probability_grid
      (shift_scan discrete_scan a b) dx dy
    = ComputeCandidateScore_ProbabilityGrid probability_grid discrete_scan
        (a + dx) (b + dy) /\
    ComputeCandidateScore_TSDF2D tsdf (shift_scan discrete_scan a b) dx dy
    = ComputeCandidateScore_TSDF2D tsdf discrete_scan (a + dx) (b + dy) /\
    ComputeCandidateScore_ProbabilityGrid probability_grid discrete_scan
      dx dy
    = ComputeCandidateScore_ProbabilityGrid probability_grid
        (shift_scan discrete_scan dx dy) 0 0 /\
    ComputeCandidateScore_TSDF2D tsdf discrete_scan dx dy
    = ComputeCandidateScore_TSDF2D tsdf (shift_scan discrete_scan dx dy) 0 0.
Proof.
  intros probability_grid tsdf discrete_scan a b dx dy.
  assert (Hp : forall a b dx dy,
             ComputeCandidateScore_ProbabilityGrid probability_grid
               (shift_scan discrete_scan a b) dx dy
             = ComputeCandidateScore_ProbabilityGrid probability_grid
                 discrete_scan (a + dx) (b + dy)).
  { clear. intros a b dx dy.
    unfold ComputeCandidateScore_ProbabilityGrid, shift_scan.
    rewrite length_map.
    rewrite (fold_left_map_ext _
               (probability_step probability_grid (a + dx) (b + dy)));
      [reflexivity|].
    intros acc xy. unfold probability_step.
    now rewrite proposed_xy_index_compose. }
  assert (Ht : forall a b dx dy,
             ComputeCandidateScore_TSDF2D tsdf
               (shift_scan discrete_scan a b) dx dy
             = ComputeCandidateScore_TSDF2D tsdf discrete_scan
                 (a + dx) (b + dy)).
  { clear. intros a b dx dy.
    rewrite !ComputeCandidateScore_TSDF2D_unfold. unfold shift_scan.
    rewrite (fold_left_map_ext _ (tsdf_step tsdf (a + dx) (b + dy)));
      [reflexivity|].
    intros acc xy. unfold tsdf_step.
    now rewrite proposed_xy_index_compose. }
  split; [apply Hp|]. split; [apply Ht|]. split.
  - rewrite Hp. now rewrite !Z.add_0_r.
  - rewrite Ht. now rewrite !Z.add_0_r.
Qed.

(** ** Range of the probability-grid score *)

Lemma Rsum_bounds lo hi l :
  Forall (fun r => lo <= r <= hi) l ->
  INR (length l) * lo <= Rsum l <= INR (length l) * hi.
Proof.
  induction 1 as [|r l Hr _ IH]; cbn [Rsum fold_right length].
  - cbn. lra.
  - unfold Rsum in IH. rewrite S_INR. lra.
Qed.

Lemma Rsum_positive_iff l :
  Forall (fun r => 0 <= r) l -> (0 < Rsum l <-> Exists (fun r => 0 < r) l).
Proof.
  induction 1 as [|r l Hr Hl IH]; cbn [Rsum fold_right].
  - split; [lra | intros H; inversion H].
  - pose proof (Rsum_nonneg l Hl) as Hs. unfold Rsum in *. split.
    + intros Hpos. destruct (Rlt_dec 0 r) as [Hr0|Hr0].
      * now apply Exists_cons_hd.
      * apply Exists_cons_tl. apply IH. lra.
    + intros Hex. inversion Hex as [? ? Hr0|? ? Hex']; subst; [lra|].
      apply IH in Hex'. lra.
Qed.

Lemma mean_positive_iff l : 0 < mean l <-> 0 < Rsum l /\ l <> [].
Proof.
  unfold mean. destruct l as [|r l].
  - cbn [length INR Rsum fold_right]. unfold Rdiv. rewrite Rmult_0_l.
    split; [lra | intros [_ H]; contradiction].
  - assert (Hn : 0 < INR (length (r :: l))) by (apply lt_0_INR; cbn; lia).
    pose proof (Rinv_0_lt_compat _ Hn) as Hi. unfold Rdiv. split.
    + intros H. split; [|discriminate].
      destruct (Rlt_dec 0 (Rsum (r :: l))) as [Hs|Hs]; [exact Hs|].
      exfalso. nra.
    + intros [Hs _]. now apply Rmult_lt_0_compat.
Qed.

(** X2.  On a non-empty scan whose queried cells all hold a probability
    between [lo] and [hi], with [lo] positive, the probability-grid overload
    returns, and the score lies between [lo] and [hi]: for probabilities in
    (0, 1] the score is in (0, 1]. *)
Theorem ComputeCandidateScore_ProbabilityGrid_bounds :
  forall (probability_grid : ProbabilityGrid)
         (discrete_scan : DiscreteScan2D) (dx dy : Z) (lo hi : R),
    discrete_scan <> [] ->
    0 < lo ->
    (forall xy_index,
        In xy_index discrete_scan ->
        lo <= GetProbability probability_grid
                (proposed_xy_index xy_index dx dy) <= hi) ->
    exists v,
      ComputeCandidateScore_ProbabilityGrid probability_grid discrete_scan
        dx dy = Returns v /\
      lo <= v <= hi.
Proof.
  intros probability_grid discrete_scan dx dy lo hi Hne Hlo Hall.
  set (l := queried_probabilities probability_grid discrete_scan dx dy).
  assert (Hl : Forall (fun r => lo <= r <= hi) l)
    by (apply Forall_map, Forall_forall; exact Hall).
  assert (Hlen : l <> [])
    by (intros Hnil; apply map_eq_nil in Hnil; contradiction).
  pose proof (Rsum_bounds lo hi l Hl) as Hsum.
  assert (Hn : 0 < INR (length l)).
  { destruct l; [contradiction|]. apply lt_0_INR. cbn. lia. }
  pose proof (Rinv_0_lt_compat _ Hn) as Hi.
  assert (H1 : INR (length l) * / INR (length l) = 1)
    by (apply Rinv_r; lra).
  assert (Hm : lo <= mean l <= hi).
  { unfold mean, Rdiv. destruct Hsum as [Hlow Hhigh].
    apply (Rmult_le_compat_r (/ INR (length l))) in Hlow; [|lra].
    apply (Rmult_le_compat_r (/ INR (length l))) in Hhigh; [|lra].
    replace (INR (length l) * lo * / INR (length l))
      with (lo * (INR (length l) * / INR (length l))) in Hlow by ring.
    replace (INR (length l) * hi * / INR (length l))
      with (hi * (INR (length l) * / INR (length l))) in Hhigh by ring.
    rewrite H1, Rmult_1_r in Hlow, Hhigh. lra. }
  destruct (ComputeCandidateScore_ProbabilityGrid_cases probability_grid
              discrete_scan dx dy) as [[_ E]|[Hneg _]].
  - exists (mean l). split; [exact E | exact Hm].
  - exfalso. apply Hneg. change (0 < mean l). lra.
Qed.

Lemma ComputeCandidateScore_ProbabilityGrid_bounds_witness :
  exists v,
    ComputeCandidateScore_ProbabilityGrid two_level_grid
      [(-2, 0); (0, 0); (3, 1)]%Z 1 0 = Returns v /\
    1 / 10 <= v <= 9 / 10.
Proof.
  apply (ComputeCandidateScore_ProbabilityGrid_bounds two_level_grid
           [(-2, 0); (0, 0); (3, 1)]%Z 1 0 (1 / 10) (9 / 10)).
  - discriminate.
  - lra.
  - intros xy [<-|[<-|[<-|[]]]];
      cbn [two_level_grid GetProbability proposed_xy_index fst snd
           Z.add Z.ltb Z.compare Z.pos_sub Z.succ_double Z.pred_double
           Z.double Pos.pred_double Pos.add Pos.succ Pos.compare
           Pos.compare_cont Z.opp];
      lra.
Defined.

(** X3.  When no queried cell holds a negative probability, the
    probability-grid overload returns exactly when some point of the scan
    falls into a cell of positive probability; otherwise (no point at all,
    or only cells of probability 0) it stops at the positivity check. *)
Theorem ComputeCandidateScore_ProbabilityGrid_returns_iff :
  forall (probability_grid : ProbabilityGrid)
         (discrete_scan : DiscreteScan2D) (dx dy : Z),
    (forall xy_index,
        In xy_index discrete_scan ->
        0 <= GetProbability probability_grid
               (proposed_xy_index xy_index dx dy)) ->
    ((exists v,
         ComputeCandidateScore_ProbabilityGrid probability_grid discrete_scan
           dx dy = Returns v) <->
     (exists xy_index,
         In xy_index discrete_scan /\
         0 < GetProbability probability_grid
               (proposed_xy_index xy_index dx dy))) /\
    ((forall xy_index,
         In xy_index discrete_scan ->
         GetProbability probability_grid
           (proposed_xy_index xy_index dx dy) = 0) ->
     ComputeCandidateScore_ProbabilityGrid probability_grid discrete_scan
       dx dy = Aborts CHECK_GT_candidate_score).
Proof.
  intros probability_grid discrete_scan dx dy Hall.
  set (l := queried_probabilities probability_grid discrete_scan dx dy).
  assert (Hl : Forall (fun r => 0 <= r) l)
    by (apply Forall_map, Forall_forall; exact Hall).
  assert (Hex : Exists (fun r => 0 < r) l <->
                exists xy_index,
                  In xy_index discrete_scan /\
                  0 < GetProbability probability_grid
                        (proposed_xy_index xy_index dx dy)).
  { unfold l, queried_probabilities. rewrite Exists_exists. split.
    - intros (r & Hin & Hr). apply in_map_iff in Hin.
      destruct Hin as (xy & <- & Hxy). eauto.
    - intros (xy & Hxy & Hr). eexists. split; [|exact Hr].
      apply in_map_iff. eauto. }
  pose proof (mean_positive_iff l) as Hmean.
  pose proof (Rsum_positive_iff l Hl) as Hsum.
  assert (Hiff : 0 < mean l <-> Exists (fun r => 0 < r) l).
  { rewrite Hmean, Hsum. split; [tauto|]. intros H. split; [exact H|].
    intros ->. inversion H. }
  destruct (ComputeCandidateScore_ProbabilityGrid_cases probability_grid
              discrete_scan dx dy) as [[Hm E]|[Hm E]]; fold l in Hm;
    rewrite E.
  - split.
    + split; [intros _; apply Hex, Hiff, Hm | eauto].
    + intros Hzero. exfalso. apply Hiff, Hex in Hm.
      destruct Hm as (xy & Hxy & Hr). rewrite (Hzero xy Hxy) in Hr. lra.
  - split; [|reflexivity]. split.
    + intros [v Hv]. discriminate.
    + intros H. exfalso. apply Hm, Hiff, Hex, H.
Qed.

Lemma ComputeCandidateScore_ProbabilityGrid_returns_iff_witness :
  (exists v,
      ComputeCandidateScore_ProbabilityGrid half_empty_grid
        [(-1, 0); (1, 0)]%Z 0 0 = Returns v) /\
  ComputeCandidateScore_ProbabilityGrid half_empty_grid
    [(-1, 0); (-3, 2)]%Z 0 0 = Aborts CHECK_GT_candidate_score.
Proof.
  split.
  - apply (ComputeCandidateScore_ProbabilityGrid_returns_iff half_empty_grid
             [(-1, 0); (1, 0)]%Z 0 0).
    + intros xy [<-|[<-|[]]]; cbn; lra.
    + exists (1, 0)%Z. split; [cbn; auto|]. cbn. lra.
  - apply (ComputeCandidateScore_ProbabilityGrid_returns_iff half_empty_grid
             [(-1, 0); (-3, 2)]%Z 0 0).
    + intros xy [<-|[<-|[]]]; cbn; lra.
    + intros xy [<-|[<-|[]]]; reflexivity.
Defined.

(** ** Range of the signed-distance score *)

Lemma normalized_tsd_score_le_1 tsdf tsd :
  0 < GetMaxCorrespondenceCost tsdf -> normalized_tsd_score tsdf tsd <= 1.
Proof.
  intros Hpos. unfold normalized_tsd_score, Rdiv.
  pose proof (Rabs_pos tsd) as Ha.
  pose proof (Rinv_0_lt_compat _ Hpos) as Hi.
  assert (H1 : GetMaxCorrespondenceCost tsdf
               * / GetMaxCorrespondenceCost tsdf = 1)
    by (apply Rinv_r; lra).
  nra.
Qed.

Lemma weighted_sums_ordered (samples : list (R * R)) :
  Forall (fun vw => 0 <= fst vw <= 1 /\ 0 <= snd vw) samples ->
  0 <= Rsum (map (fun vw => fst vw * snd vw) samples)
    <= Rsum (map snd samples).
Proof.
  induction 1 as [|[v w] l [Hv Hw] _ IH];
    cbn [map Rsum fold_right fst snd] in *.
  - lra.
  - unfold Rsum in IH. nra.
Qed.

(** X4.  On a signed-distance grid that keeps its invariants (positive
    maximum correspondence cost, distances bounded by it, non-negative
    weights) the TSDF overload always returns, and the score lies between 0
    and 1. *)
Theorem ComputeCandidateScore_TSDF2D_unit_interval :
  forall (tsdf : TSDF2D) (discrete_scan : DiscreteScan2D) (dx dy : Z),
    TSDF2D_well_formed tsdf ->
    exists v,
      ComputeCandidateScore_TSDF2D tsdf discrete_scan dx dy = Returns v /\
      0 <= v <= 1.
Proof.
  intros tsdf discrete_scan dx dy Hwf.
  pose proof Hwf as [Hpos Hcell].
  set (samples := tsdf_samples tsdf discrete_scan dx dy).
  assert (Hs : Forall (fun vw => 0 <= fst vw <= 1 /\ 0 <= snd vw) samples).
  { unfold samples, tsdf_samples. apply Forall_map, Forall_forall.
    intros xy _. cbn [fst snd].
    destruct (Hcell (proposed_xy_index xy dx dy)) as [Hd Hw].
    split; [split|exact Hw].
    - now apply normalized_tsd_score_range.
    - now apply normalized_tsd_score_le_1. }
  destruct (weighted_sums_ordered samples Hs) as [Hnum Hle].
  destruct (ComputeCandidateScore_TSDF2D_cases tsdf discrete_scan dx dy)
    as [[_ E]|[(Hn & _ & E)|(Hn & Hneg & _)]].
  - exists 0. split; [exact E | lra].
  - exists (weighted_average samples). split; [exact E|].
    unfold summed_weight in Hn. fold samples in Hn.
    unfold weighted_average, Rdiv.
    assert (Hden : 0 < Rsum (map snd samples)) by lra.
    pose proof (Rinv_0_lt_compat _ Hden) as Hi.
    assert (H1 : Rsum (map snd samples) * / Rsum (map snd samples) = 1)
      by (apply Rinv_r; lra).
    split; [apply Rmult_le_pos; lra|].
    apply (Rmult_le_compat_r (/ Rsum (map snd samples))) in Hle; [|lra].
    lra.
  - exfalso.
    pose proof (weighted_average_nonneg tsdf discrete_scan dx dy Hwf) as H.
    fold samples in H. change (weighted_average samples < 0) in Hneg. lra.
Qed.

Lemma ComputeCandidateScore_TSDF2D_unit_interval_witness :
  exists v,
    ComputeCandidateScore_TSDF2D (uniform_tsdf 1 (1 / 2) 3)
      [(0, 0); (4, -1)]%Z 2 2 = Returns v /\
    0 <= v <= 1.
Proof.
  apply (ComputeCandidateScore_TSDF2D_unit_interval
           (uniform_tsdf 1 (1 / 2) 3) [(0, 0); (4, -1)]%Z 2 2).
  split; [cbn [uniform_tsdf GetMaxCorrespondenceCost]; lra|].
  intros xy. cbn [uniform_tsdf GetMaxCorrespondenceCost GetTSDAndWeight
                    fst snd].
  rewrite Rabs_pos_eq by lra. lra.
Defined.

(** ** Cells without weight *)

Lemma tsdf_step_weightless tsdf dx dy acc xy_index :
  has_weight tsdf dx dy xy_index = false ->
  tsdf_step tsdf dx dy acc xy_index = acc.
Proof.
  unfold has_weight, tsdf_step.
  destruct (Req_dec_T
              (snd (GetTSDAndWeight tsdf (proposed_xy_index xy_index dx dy)))
              0) as [E|E]; [|discriminate].
  intros _. rewrite E. destruct acc as [s w]. cbn [fst snd].
  f_equal; lra.
Qed.

Lemma tsdf_loop_filter tsdf dx dy discrete_scan :
  forall acc,
    fold_left (tsdf_step tsdf dx dy)
      (filter (has_weight tsdf dx dy) discrete_scan) acc
    = fold_left (tsdf_step tsdf dx dy) discrete_scan acc.
Proof.
  induction discrete_scan as [|xy l IH]; intros acc;
    cbn [filter fold_left]; [reflexivity|].
  destruct (has_weight tsdf dx dy xy) eqn:E; cbn [fold_left].
  - apply IH.
  - rewrite (tsdf_step_weightless _ _ _ _ _ E). apply IH.
Qed.

(** X5.  The TSDF overload ignores the scan points that fall into cells of
    weight 0: scoring the scan and scoring the scan without those points
    give the same result.  When every point falls into such a cell the score
    is 0. *)
Theorem ComputeCandidateScore_TSDF2D_ignores_weightless_points :
  forall (tsdf : TSDF2D) (discrete_scan : DiscreteScan2D) (dx dy : Z),
    ComputeCandidateScore_TSDF2D tsdf
      (filter (has_weight tsdf dx dy) discrete_scan) dx dy
    = ComputeCandidateScore_TSDF2D tsdf discrete_scan dx dy /\
    (filter (has_weight tsdf dx dy) discrete_scan = [] ->
     ComputeCandidateScore_TSDF2D tsdf discrete_scan dx dy = Returns 0).
Proof.
  intros tsdf discrete_scan dx dy.
  assert (E : ComputeCandidateScore_TSDF2D tsdf
                (filter (has_weight tsdf dx dy) discrete_scan) dx dy
              = ComputeCandidateScore_TSDF2D tsdf discrete_scan dx dy).
  { rewrite !ComputeCandidateScore_TSDF2D_unfold.
    now rewrite tsdf_loop_filter. }
  split; [exact E|].
  intros Hnil. rewrite <- E, Hnil.
  rewrite ComputeCandidateScore_TSDF2D_unfold. cbn [fold_left fst snd].
  destruct (Req_dec_T 0 0) as [_|Hne]; [reflexivity | contradiction].
Qed.

Lemma ComputeCandidateScore_TSDF2D_ignores_weightless_points_witness :
  ComputeCandidateScore_TSDF2D (uniform_tsdf 1 (1 / 2) 0)
    [(0, 0); (1, 5)]%Z 0 0 = Returns 0.
Proof.
  apply (ComputeCandidateScore_TSDF2D_ignores_weightless_points
           (uniform_tsdf 1 (1 / 2) 0) [(0, 0); (1, 5)]%Z 0 0).
  cbn [filter]. unfold has_weight.
  cbn [uniform_tsdf GetTSDAndWeight snd].
  destruct (Req_dec_T 0 0) as [_|Hne]; [reflexivity | contradiction].
Defined.

(** * Further properties of ScoreCandidates *)

Lemma score_all_scored_as options_ grid discrete_scans l :
  forall i scored stores,
    score_all options_ grid discrete_scans i l = Returns (scored, stores) ->
    Forall2 (scored_as options_ grid discrete_scans) l scored.
Proof.
  induction l as [|c l IH]; intros i scored stores H; cbn [score_all] in H.
  - injection H as <- <-. constructor.
  - destruct (raw_score grid discrete_scans c) as [raw|f] eqn:Eraw;
      cbn [bind] in H; [|discriminate].
    destruct (score_all options_ grid discrete_scans (S i) l)
      as [[scored' stores']|f] eqn:E; cbn [bind fst snd] in H;
      [|discriminate].
    injection H as <- <-. constructor.
    + exists raw. now split.
    + exact (IH _ _ _ E).
Qed.

Lemma scored_as_score_all options_ grid discrete_scans l scored :
  Forall2 (scored_as options_ grid discrete_scans) l scored ->
  forall i, exists stores,
    score_all options_ grid discrete_scans i l = Returns (scored, stores).
Proof.
  induction 1 as [|c c' l scored (raw & Hraw & ->) _ IH]; intros i;
    cbn [score_all].
  - eauto.
  - rewrite Hraw. cbn [bind]. destruct (IH (S i)) as [stores ->].
    cbn [bind fst snd]. eauto.
Qed.

Lemma ScoreCandidates_scored_as options_ grid discrete_scans
    search_parameters h u h' :
  ScoreCandidates options_ grid discrete_scans search_parameters h
  = Returns (u, h') ->
  Forall2 (scored_as options_ grid discrete_scans)
    (candidates_of h) (candidates_of h').
Proof.
  rewrite ScoreCandidates_score_all. intros H.
  destruct (score_all options_ grid discrete_scans 0 (candidates_of h))
    as [[scored stores]|f] eqn:E; cbn [bind fst snd] in H; [|discriminate].
  injection H as _ <-. cbn [candidates_of].
  exact (score_all_scored_as _ _ _ _ _ _ _ E).
Qed.

Lemma scored_as_ScoreCandidates options_ grid discrete_scans
    search_parameters h scored :
  Forall2 (scored_as options_ grid discrete_scans) (candidates_of h) scored ->
  exists h',
    ScoreCandidates options_ grid discrete_scans search_parameters h
    = Returns (tt, h') /\
    candidates_of h' = scored.
Proof.
  intros H. rewrite ScoreCandidates_score_all.
  destruct (scored_as_score_all _ _ _ _ _ H 0%nat) as [stores ->].
  cbn [bind fst snd]. eexists. split; reflexivity.
Qed.

Lemma scored_as_functional options_ grid discrete_scans l :
  forall s1 s2,
    Forall2 (scored_as options_ grid discrete_scans) l s1 ->
    Forall2 (scored_as options_ grid discrete_scans) l s2 ->
    s1 = s2.
Proof.
  induction l as [|c l IH]; intros s1 s2 H1 H2;
    inversion H1 as [|? c1 ? l1 (r1 & Hr1 & ->) Hl1]; subst;
    inversion H2 as [|? c2 ? l2 (r2 & Hr2 & ->) Hl2]; subst;
    [reflexivity|].
  rewrite Hr1 in Hr2. injection Hr2 as <-.
  f_equal. now apply IH.
Qed.

(** ** The sign of the scores *)

Lemma raw_score_sign grid discrete_scans c raw :
  raw_score grid discrete_scans c = Returns raw ->
  (GetGridType grid = PROBABILITY_GRID -> 0 < raw) /\
  (GetGridType grid = TSDF -> 0 <= raw).
Proof.
  unfold raw_score. destruct grid as [g|g|l]; cbn [GetGridType].
  - destruct (at_index discrete_scans (scan_index c)) as [scan|];
      cbn [lift_option bind]; [|discriminate].
    intros H. split; [intros _|discriminate].
    destruct (ComputeCandidateScore_ProbabilityGrid_cases g scan
                (x_index_offset c) (y_index_offset c))
      as [[Hm E]|[_ E]]; rewrite E in H; [|discriminate].
    injection H as <-. exact Hm.
  - destruct (at_index discrete_scans (scan_index c)) as [scan|];
      cbn [lift_option bind]; [|discriminate].
    intros H. split; [discriminate|intros _].
    destruct (ComputeCandidateScore_TSDF2D_cases g scan
                (x_index_offset c) (y_index_offset c))
      as [[_ E]|[(_ & Hpos & E)|(_ & _ & E)]]; rewrite E in H;
      try discriminate; injection H as <-; [lra | exact Hpos].
  - intros _. split; discriminate.
Qed.

(** X6.  When [ScoreCandidates] returns, the CHECK of the overload has
    passed for every candidate and the penalty factor lies between 0 and 1:
    the raw score is strictly positive on a probability grid and
    non-negative on a signed-distance grid, and on both the final score lies
    between 0 and the raw score. *)
Theorem ScoreCandidates_score_sign :
  forall (options_ : RealTimeCorrelativeScanMatcherOptions) (grid : Grid2D)
         (discrete_scans : list DiscreteScan2D)
         (search_parameters : SearchParameters) (h h' : heap) (u : unit),
    ScoreCandidates options_ grid discrete_scans search_parameters h
    = Returns (u, h') ->
    forall i c c',
      nth_error (candidates_of h) i = Some c ->
      nth_error (candidates_of h') i = Some c' ->
      exists raw,
        raw_score grid discrete_scans c = Returns raw /\
        (GetGridType grid = PROBABILITY_GRID ->
         0 < raw /\ 0 <= score c' <= raw) /\
        (GetGridType grid = TSDF ->
         0 <= score c' <= raw).
Proof.
  intros options_ grid discrete_scans search_parameters h h' u H i c c'
    Hc Hc'.
  apply ScoreCandidates_scored_as in H.
  destruct (Forall2_nth_error _ _ _ H i c c' Hc Hc') as (raw & Hraw & ->).
  exists raw. split; [exact Hraw|].
  cbn [set_score score].
  pose proof (penalty_positive options_ c) as Hp.
  pose proof (penalty_le_1 options_ c) as Hp1.
  destruct (raw_score_sign _ _ _ _ Hraw) as [Hpg Htsdf].
  split; intros Htag.
  - specialize (Hpg Htag). repeat split; nra.
  - specialize (Htsdf Htag). split; nra.
Qed.

Lemma ScoreCandidates_score_sign_witness :
  exists h' c',
    ScoreCandidates scenario_options (Grid2D_ProbabilityGrid ridge_grid)
      ridge_scans ridge_window
      {| candidates_of := ridge_candidates; trace := [] |}
    = Returns (tt, h') /\
    nth_error (candidates_of h') 1 = Some c' /\
    index_triple c' = (0, 1, 0)%Z /\
    0 <= score c' <= 9 / 10.
Proof.
  pose proof (ridge_ScoreCandidates scenario_options) as Hrun.
  eexists _, _. split; [exact Hrun|]. split; [reflexivity|].
  split; [reflexivity|].
  destruct (ScoreCandidates_score_sign _ _ _ _ _ _ _ Hrun
              1%nat ridge_best _ eq_refl eq_refl)
    as (raw & Hraw & Hpg & _).
  assert (E : raw_score (Grid2D_ProbabilityGrid ridge_grid) ridge_scans
                ridge_best = Returns (9 / 10)).
  { exact (Forall2_nth_error _ _ _ ridge_raw_score 1%nat ridge_best
             (9 / 10) eq_refl eq_refl). }
  rewrite E in Hraw. injection Hraw as <-.
  apply Hpg. reflexivity.
Defined.

(** ** When the penalty leaves the raw score as it is *)

Lemma penalty_without_weights options_ c :
  translation_delta_cost_weight options_ = 0 ->
  rotation_delta_cost_weight options_ = 0 ->
  penalty options_ c = 1.
Proof.
  intros Htw Hrw. unfold penalty, Pow2. rewrite Htw, Hrw, !Rmult_0_r.
  rewrite Rplus_0_r, Rmult_0_r, Ropp_0. apply exp_0.
Qed.

(** X7.  When [ScoreCandidates] returns, the candidate without displacement
    (x = y = 0 and orientation 0) ends with exactly its raw score, whatever
    the weights; when both weights are 0 every candidate ends with its raw
    score; and a raw score of 0 stays 0. *)
Theorem ScoreCandidates_keeps_raw_score :
  forall (options_ : RealTimeCorrelativeScanMatcherOptions) (grid : Grid2D)
         (discrete_scans : list DiscreteScan2D)
         (search_parameters : SearchParameters) (h h' : heap) (u : unit),
    ScoreCandidates options_ grid discrete_scans search_parameters h
    = Returns (u, h') ->
    forall i c c',
      nth_error (candidates_of h) i = Some c ->
      nth_error (candidates_of h') i = Some c' ->
      exists raw,
        raw_score grid discrete_scans c = Returns raw /\
        (x c = 0 -> y c = 0 -> orientation c = 0 -> score c' = raw) /\
        (translation_delta_cost_weight options_ = 0 ->
         rotation_delta_cost_weight options_ = 0 ->
         score c' = raw) /\
        (raw = 0 -> score c' = 0).
Proof.
  intros options_ grid discrete_scans search_parameters h h' u H i c c'
    Hc Hc'.
  apply ScoreCandidates_scored_as in H.
  destruct (Forall2_nth_error _ _ _ H i c c' Hc Hc') as (raw & Hraw & ->).
  exists raw. split; [exact Hraw|]. cbn [set_score score].
  split; [|split].
  - intros Hx Hy Ho. rewrite (penalty_at_origin options_ c Hx Hy Ho). lra.
  - intros Htw Hrw. rewrite (penalty_without_weights options_ c Htw Hrw).
    lra.
  - intros ->. lra.
Qed.

Lemma ScoreCandidates_keeps_raw_score_witness :
  (exists h' c',
      ScoreCandidates scenario_options (Grid2D_ProbabilityGrid ridge_grid)
        ridge_scans ridge_window
        {| candidates_of := ridge_candidates; trace := [] |}
      = Returns (tt, h') /\
      nth_error (candidates_of h') 2 = Some c' /\
      index_triple c' = (1, 0, 0)%Z /\
      score c' = 2 / 10) /\
  (exists h' c',
      ScoreCandidates options_without_penalty
        (Grid2D_ProbabilityGrid ridge_grid) ridge_scans ridge_window
        {| candidates_of := ridge_candidates; trace := [] |}
      = Returns (tt, h') /\
      nth_error (candidates_of h') 1 = Some c' /\
      index_triple c' = (0, 1, 0)%Z /\
      score c' = 9 / 10).
Proof.
  split.
  - pose proof (ridge_ScoreCandidates scenario_options) as Hrun.
    eexists _, _. split; [exact Hrun|]. split; [reflexivity|].
    split; [reflexivity|].
    destruct (ScoreCandidates_keeps_raw_score _ _ _ _ _ _ _ Hrun
                2%nat ridge_origin _ eq_refl eq_refl)
      as (raw & Hraw & Horigin & _).
    assert (E : raw_score (Grid2D_ProbabilityGrid ridge_grid) ridge_scans
                  ridge_origin = Returns (2 / 10)).
    { exact (Forall2_nth_error _ _ _ ridge_raw_score 2%nat ridge_origin
               (2 / 10) eq_refl eq_refl). }
    rewrite E in Hraw. injection Hraw as <-.
    destruct ridge_origin_at_origin as (Hx & Hy & Ho).
    exact (Horigin Hx Hy Ho).
  - pose proof (ridge_ScoreCandidates options_without_penalty) as Hrun.
    eexists _, _. split; [exact Hrun|]. split; [reflexivity|].
    split; [reflexivity|].
    destruct (ScoreCandidates_keeps_raw_score _ _ _ _ _ _ _ Hrun
                1%nat ridge_best _ eq_refl eq_refl)
      as (raw & Hraw & _ & Hweights & _).
    assert (E : raw_score (Grid2D_ProbabilityGrid ridge_grid) ridge_scans
                  ridge_best = Returns (9 / 10)).
    { exact (Forall2_nth_error _ _ _ ridge_raw_score 1%nat ridge_best
               (9 / 10) eq_refl eq_refl). }
    rewrite E in Hraw. injection Hraw as <-.
    apply Hweights; reflexivity.
Defined.

(** ** ScoreCandidates as a map over the vector *)

Lemma ScoreCandidates_scored_candidates options_ grid discrete_scans
    search_parameters h :
  scored_candidates
    (ScoreCandidates options_ grid discrete_scans search_parameters h)
  = outcome_map fst
      (score_all options_ grid discrete_scans 0 (candidates_of h)).
Proof.
  rewrite ScoreCandidates_score_all. unfold scored_candidates.
  destruct (score_all options_ grid discrete_scans 0 (candidates_of h))
    as [[scored stores]|f]; reflexivity.
Qed.

Lemma score_all_fst_cons options_ grid discrete_scans i c l :
  outcome_map fst (score_all options_ grid discrete_scans i (c :: l))
  = (raw <- raw_score grid discrete_scans c ;;
     s <- outcome_map fst (score_all options_ grid discrete_scans (S i) l) ;;
     Returns (set_score c (raw * penalty options_ c) :: s))%outcome.
Proof.
  cbn [score_all].
  destruct (raw_score grid discrete_scans c) as [raw|f]; cbn [bind];
    [|reflexivity].
  destruct (score_all options_ grid discrete_scans (S i) l) as [[s t]|f];
    reflexivity.
Qed.

Lemma score_all_fst_index options_ grid discrete_scans l :
  forall i j,
    outcome_map fst (score_all options_ grid discrete_scans i l)
    = outcome_map fst (score_all options_ grid discrete_scans j l).
Proof.
  induction l as [|c l IH]; intros i j; [reflexivity|].
  rewrite !score_all_fst_cons. now rewrite (IH (S i) (S j)).
Qed.

Lemma score_all_fst_app options_ grid discrete_scans l1 l2 :
  forall i,
    outcome_map fst (score_all options_ grid discrete_scans i (l1 ++ l2))
    = (s1 <- outcome_map fst (score_all options_ grid discrete_scans i l1) ;;
       s2 <- outcome_map fst (score_all options_ grid discrete_scans i l2) ;;
       Returns (s1 ++ s2))%outcome.
Proof.
  induction l1 as [|c l1 IH]; intros i; cbn [app].
  - cbn [score_all outcome_map bind fst app].
    destruct (outcome_map fst (score_all options_ grid discrete_scans i l2));
      reflexivity.
  - rewrite !score_all_fst_cons, IH.
    rewrite (score_all_fst_index options_ grid discrete_scans l2 (S i) i).
    destruct (raw_score grid discrete_scans c) as [raw|f]; cbn [bind];
      [|reflexivity].
    destruct (outcome_map fst
                (score_all options_ grid discrete_scans (S i) l1));
      cbn [bind]; [|reflexivity].
    destruct (outcome_map fst (score_all options_ grid discrete_scans i l2));
      reflexivity.
Qed.

(** X8.  [ScoreCandidates] treats the candidates one by one: running it on
    a vector that is the concatenation of two vectors leaves the
    concatenation of what it leaves on each of them, and stops where the
    first of the two runs that stops does.  Nothing a candidate receives
    depends on the other candidates or on its position. *)
Theorem ScoreCandidates_concatenation :
  forall (options_ : RealTimeCorrelativeScanMatcherOptions) (grid : Grid2D)
         (discrete_scans : list DiscreteScan2D)
         (search_parameters : SearchParameters)
         (l1 l2 : list Candidate2D) (tr tr1 tr2 : list store_event),
    scored_candidates
      (ScoreCandidates options_ grid discrete_scans search_parameters
         {| candidates_of := l1 ++ l2; trace := tr |})
    = (s1 <- scored_candidates
               (ScoreCandidates options_ grid discrete_scans
                  search_parameters
                  {| candidates_of := l1; trace := tr1 |}) ;;
       s2 <- scored_candidates
               (ScoreCandidates options_ grid discrete_scans
                  search_parameters
                  {| candidates_of := l2; trace := tr2 |}) ;;
       Returns (s1 ++ s2))%outcome.
Proof.
  intros. rewrite !ScoreCandidates_scored_candidates. cbn [candidates_of].
  apply score_all_fst_app.
Qed.

(** ** The scores on entry do not matter *)

Lemma raw_score_same_pose grid discrete_scans c1 c2 :
  GetGridType grid <> UNKNOWN_GRID_TYPE ->
  same_pose c1 c2 ->
  raw_score grid discrete_scans c1 = raw_score grid discrete_scans c2.
Proof.
  intros Htag (Hs & Hx & Hy & _). unfold raw_score.
  destruct grid as [g|g|l]; [| |now contradiction Htag];
    now rewrite Hs, Hx, Hy.
Qed.

Lemma scored_same_pose options_ c1 c2 v :
  same_pose c1 c2 ->
  set_score c1 (v * penalty options_ c1)
  = set_score c2 (v * penalty options_ c2).
Proof.
  intros (Hs & Hx & Hy & Hxr & Hyr & Ho). unfold set_score, penalty.
  now rewrite Hs, Hx, Hy, Hxr, Hyr, Ho.
Qed.

Lemma score_all_fst_same_pose options_ grid discrete_scans l1 l2 :
  GetGridType grid <> UNKNOWN_GRID_TYPE ->
  Forall2 same_pose l1 l2 ->
  forall i,
    outcome_map fst (score_all options_ grid discrete_scans i l1)
    = outcome_map fst (score_all options_ grid discrete_scans i l2).
Proof.
  intros Htag. induction 1 as [|c1 c2 l1 l2 Hc _ IH]; intros i;
    [reflexivity|].
  rewrite !score_all_fst_cons, (IH (S i)).
  rewrite (raw_score_same_pose grid discrete_scans c1 c2 Htag Hc).
  destruct (raw_score grid discrete_scans c2) as [raw|f]; cbn [bind];
    [|reflexivity].
  now rewrite (scored_same_pose options_ c1 c2 raw Hc).
Qed.

Lemma scored_as_same_pose options_ grid discrete_scans l l' :
  Forall2 (scored_as options_ grid discrete_scans) l l' ->
  Forall2 same_pose l' l.
Proof.
  induction 1 as [|c c' l l' (raw & _ & ->) _ IH]; constructor;
    [|exact IH].
  repeat split.
Qed.

(** X9.  On a probability or signed-distance grid [ScoreCandidates]
    overwrites the scores: two vectors whose candidates differ at most in
    their score fields are left as the same vector (or stop the call at the
    same point).  Hence scoring a vector that was already scored leaves it as
    it is. *)
Theorem ScoreCandidates_overwrites_scores :
  forall (options_ : RealTimeCorrelativeScanMatcherOptions) (grid : Grid2D)
         (discrete_scans : list DiscreteScan2D)
         (search_parameters : SearchParameters),
    GetGridType grid <> UNKNOWN_GRID_TYPE ->
    (forall h1 h2 : heap,
        Forall2 same_pose (candidates_of h1) (candidates_of h2) ->
        scored_candidates
          (ScoreCandidates options_ grid discrete_scans search_parameters h1)
        = scored_candidates
            (ScoreCandidates options_ grid discrete_scans search_parameters
               h2)) /\
    (forall (h h' : heap) (u : unit),
        ScoreCandidates options_ grid discrete_scans search_parameters h
        = Returns (u, h') ->
        scored_candidates
          (ScoreCandidates options_ grid discrete_scans search_parameters h')
        = Returns (candidates_of h')).
Proof.
  intros options_ grid discrete_scans search_parameters Htag.
  assert (Hsame : forall h1 h2 : heap,
             Forall2 same_pose (candidates_of h1) (candidates_of h2) ->
             scored_candidates
               (ScoreCandidates options_ grid discrete_scans
                  search_parameters h1)
             = scored_candidates
                 (ScoreCandidates options_ grid discrete_scans
                    search_parameters h2)).
  { intros h1 h2 H. rewrite !ScoreCandidates_scored_candidates.
    now apply score_all_fst_same_pose. }
  split; [exact Hsame|].
  intros h h' u H.
  rewrite (Hsame h' h).
  - rewrite H. reflexivity.
  - apply ScoreCandidates_scored_as in H.
    exact (scored_as_same_pose _ _ _ _ _ H).
Qed.

Lemma ScoreCandidates_overwrites_scores_witness :
  scored_candidates
    (ScoreCandidates scenario_options scenario_grid scenario_scans
       window_single
       {| candidates_of := [set_score scenario_candidate 7]; trace := [] |})
  = Returns [set_score scenario_candidate (6 / 10 * 1)].
Proof.
  destruct (ScoreCandidates_overwrites_scores scenario_options scenario_grid
              scenario_scans window_single) as [Hsame _].
  - discriminate.
  - rewrite (Hsame
               {| candidates_of := [set_score scenario_candidate 7];
                  trace := [] |}
               {| candidates_of := [scenario_candidate]; trace := [] |}).
    + now rewrite scenario_ScoreCandidates.
    + repeat constructor.
Defined.

(** ** Where ScoreCandidates stops *)

Lemma score_all_Returns_iff options_ grid discrete_scans l :
  forall i,
    (exists r, score_all options_ grid discrete_scans i l = Returns r) <->
    (forall c, In c l ->
               exists raw, raw_score grid discrete_scans c = Returns raw).
Proof.
  intros i. split.
  - intros [[scored stores] H] c Hc.
    apply score_all_scored_as in H. clear i stores. revert c Hc.
    induction H as [|a b l l' (raw & Hraw & _) _ IH]; intros c Hc;
      [destruct Hc|destruct Hc as [<-|Hc]]; eauto.
  - intros H. now apply score_all_total.
Qed.

Lemma score_all_Aborts_iff options_ grid discrete_scans l :
  forall i f,
    score_all options_ grid discrete_scans i l = Aborts f <->
    exists pre c post,
      l = pre ++ c :: post /\
      (forall c', In c' pre ->
                  exists raw, raw_score grid discrete_scans c' = Returns raw) /\
      raw_score grid discrete_scans c = Aborts f.
Proof.
  induction l as [|c l IH]; intros i f.
  - split; [discriminate|].
    intros (pre & c & post & E & _). now destruct pre.
  - cbn [score_all]. split.
    + destruct (raw_score grid discrete_scans c) as [raw|f'] eqn:Eraw;
        cbn [bind].
      * destruct (score_all options_ grid discrete_scans (S i) l)
          as [r|f'] eqn:E; cbn [bind]; [discriminate|].
        intros H. injection H as <-.
        apply IH in E. destruct E as (pre & c0 & post & -> & Hpre & Hc0).
        exists (c :: pre), c0, post. split; [reflexivity|].
        split; [|exact Hc0]. intros c' [<-|Hin]; eauto.
      * intros H. injection H as <-.
        exists [], c, l. repeat split; [|exact Eraw]. intros c' [].
    + intros (pre & c0 & post & E & Hpre & Hc0).
      destruct pre as [|a pre]; cbn [app] in E; injection E as -> ->.
      * rewrite Hc0. reflexivity.
      * destruct (Hpre a (or_introl eq_refl)) as [raw ->]. cbn [bind].
        assert (E : score_all options_ grid discrete_scans (S i)
                      (pre ++ c0 :: post) = Aborts f).
        { apply IH. exists pre, c0, post. repeat split; [|exact Hc0].
          intros c' Hin. apply Hpre. now right. }
        rewrite E. reflexivity.
Qed.

(** X10.  [ScoreCandidates] returns exactly when every candidate of the
    vector can be scored (its scan index selects a discrete scan and the
    CHECK of the overload passes); otherwise it stops at the first candidate,
    in vector order, that cannot, with that candidate's failure, whatever
    comes after it. *)
Theorem ScoreCandidates_stops_at_first_failure :
  forall (options_ : RealTimeCorrelativeScanMatcherOptions) (grid : Grid2D)
         (discrete_scans : list DiscreteScan2D)
         (search_parameters : SearchParameters) (h : heap),
    ((exists h',
         ScoreCandidates options_ grid discrete_scans search_parameters h
         = Returns (tt, h')) <->
     (forall c, In c (candidates_of h) ->
                exists raw, raw_score grid discrete_scans c = Returns raw)) /\
    (forall f,
        ScoreCandidates options_ grid discrete_scans search_parameters h
        = Aborts f <->
        exists pre c post,
          candidates_of h = pre ++ c :: post /\
          (forall c', In c' pre ->
                      exists raw,
                        raw_score grid discrete_scans c' = Returns raw) /\
          raw_score grid discrete_scans c = Aborts f).
Proof.
  intros options_ grid discrete_scans search_parameters h.
  rewrite ScoreCandidates_score_all. split.
  - rewrite <- (score_all_Returns_iff options_ grid discrete_scans
                  (candidates_of h) 0). split.
    + intros [h' H].
      destruct (score_all options_ grid discrete_scans 0 (candidates_of h))
        as [r|f]; [eauto | discriminate].
    + intros [r ->]. cbn [bind]. eauto.
  - intros f.
    rewrite <- (score_all_Aborts_iff options_ grid discrete_scans
                  (candidates_of h) 0 f).
    destruct (score_all options_ grid discrete_scans 0 (candidates_of h))
      as [r|f']; cbn [bind]; split; intros H; try discriminate;
      injection H as <-; reflexivity.
Qed.

Lemma ScoreCandidates_stops_at_first_failure_witness :
  ScoreCandidates scenario_options scenario_grid scenario_scans window_single
    {| candidates_of :=
         [scenario_candidate; stray_candidate; scenario_candidate];
       trace := [] |}
  = Aborts index_out_of_range.
Proof.
  apply (ScoreCandidates_stops_at_first_failure scenario_options
           scenario_grid scenario_scans window_single).
  exists [scenario_candidate], stray_candidate, [scenario_candidate].
  split; [reflexivity|]. split.
  - intros c' [<-|[]]. exists (6 / 10). exact scenario_raw_score.
  - reflexivity.
Defined.

(** * Further properties of GenerateExhaustiveSearchCandidates *)

Local Open Scope Z_scope.

Lemma GenerateExhaustiveSearchCandidates_eval search_parameters :
  scans_in_range search_parameters ->
  GenerateExhaustiveSearchCandidates search_parameters
  = if precomputed_total search_parameters <? 0 then Aborts length_error
    else if Z.of_nat (length (triples search_parameters))
            =? precomputed_total search_parameters
         then Returns (map (candidate_of_triple search_parameters)
                         (triples search_parameters))
         else Aborts CHECK_EQ_num_candidates.
Proof.
  intros Hr.
  destruct (GenerateExhaustiveSearchCandidates_cases search_parameters)
    as [[Hn _]|[(_ & Hneg & E)|[(_ & Hpos & Hne & E)|(_ & Hlen & E)]]];
    [contradiction| | |]; rewrite E; rewrite ?length_map in *.
  - apply Z.ltb_lt in Hneg. now rewrite Hneg.
  - apply Z.ltb_ge in Hpos. rewrite Hpos.
    apply Z.eqb_neq in Hne. now rewrite Hne.
  - rewrite <- Hlen.
    destruct (Z.of_nat (length (triples search_parameters)) <? 0) eqn:Hneg;
      [apply Z.ltb_lt in Hneg; lia|].
    now rewrite Z.eqb_refl.
Qed.

Lemma rotations_with_more_bounds search_parameters extra :
  scans_in_range search_parameters ->
  rotations (with_linear_bounds search_parameters
               (linear_bounds search_parameters ++ extra))
  = rotations search_parameters.
Proof.
  intros [H0 Hn]. unfold rotations, with_linear_bounds.
  cbn [num_scans linear_bounds]. f_equal.
  rewrite firstn_app.
  replace (Z.to_nat (num_scans search_parameters)
           - length (linear_bounds search_parameters))%nat
    with 0%nat by lia.
  cbn [firstn]. apply app_nil_r.
Qed.

(** X11.  [GenerateExhaustiveSearchCandidates] returns exactly when the
    vector of linear bounds has an entry for every rotation index
    (0 <= num_scans <= linear_bounds.size()) and the precomputed total is
    the number of triples within the bounds.  A negative [num_scans], or one
    beyond the size of the vector, makes the counting loop read past its
    end.  With [num_scans] 0 the result is the empty vector.  Bounds stored
    beyond the first [num_scans] entries are never read. *)
Theorem GenerateExhaustiveSearchCandidates_domain :
  forall search_parameters : SearchParameters,
    ((exists candidates,
         GenerateExhaustiveSearchCandidates search_parameters
         = Returns candidates) <->
     scans_in_range search_parameters /\
     Z.of_nat (length (triples search_parameters))
     = precomputed_total search_parameters) /\
    (num_scans search_parameters < 0 \/
     Z.of_nat (length (linear_bounds search_parameters))
     < num_scans search_parameters ->
     GenerateExhaustiveSearchCandidates search_parameters
     = Aborts index_out_of_range) /\
    (num_scans search_parameters = 0 ->
     GenerateExhaustiveSearchCandidates search_parameters = Returns []) /\
    (scans_in_range search_parameters ->
     forall extra,
       outcome_map (map index_triple)
         (GenerateExhaustiveSearchCandidates
            (with_linear_bounds search_parameters
               (linear_bounds search_parameters ++ extra)))
       = outcome_map (map index_triple)
           (GenerateExhaustiveSearchCandidates search_parameters)).
Proof.
  intros search_parameters.
  pose proof (GenerateExhaustiveSearchCandidates_cases search_parameters)
    as Hcases. cbv zeta in Hcases. rewrite length_map in Hcases.
  split; [|split; [|split]].
  - split.
    + intros [candidates H].
      destruct Hcases
        as [[_ E]|[(_ & _ & E)|[(_ & _ & _ & E)|(Hr & Hlen & _)]]];
        try (rewrite E in H; discriminate). now split.
    + intros [Hr Hlen].
      destruct Hcases
        as [[Hn _]|[(_ & Hneg & _)|[(_ & _ & Hne & _)|(_ & _ & E)]]];
        [contradiction | lia | contradiction | eauto].
  - intros Hout.
    destruct Hcases as [[_ E]|[(Hr & _)|[(Hr & _)|(Hr & _)]]];
      [exact E| | |]; unfold scans_in_range in Hr; lia.
  - intros Hzero.
    assert (Hr : scans_in_range search_parameters)
      by (unfold scans_in_range; lia).
    rewrite (GenerateExhaustiveSearchCandidates_eval _ Hr).
    unfold precomputed_total, triples, rotations. rewrite Hzero.
    reflexivity.
  - intros Hr extra.
    assert (Hr' : scans_in_range
                    (with_linear_bounds search_parameters
                       (linear_bounds search_parameters ++ extra))).
    { unfold scans_in_range, with_linear_bounds in *.
      cbn [num_scans linear_bounds]. rewrite length_app. lia. }
    rewrite (GenerateExhaustiveSearchCandidates_eval _ Hr).
    rewrite (GenerateExhaustiveSearchCandidates_eval _ Hr').
    unfold precomputed_total, triples.
    rewrite (rotations_with_more_bounds _ extra Hr).
    fold (triples search_parameters).
    fold (precomputed_total search_parameters).
    destruct (precomputed_total search_parameters <? 0); [reflexivity|].
    destruct (Z.of_nat (length (triples search_parameters))
              =? precomputed_total search_parameters); [|reflexivity].
    cbn [outcome_map]. rewrite !map_map. f_equal.
Qed.

Lemma GenerateExhaustiveSearchCandidates_domain_witness :
  (exists candidates,
      GenerateExhaustiveSearchCandidates window_three_rotations
      = Returns candidates) /\
  GenerateExhaustiveSearchCandidates window_short_of_bounds
  = Aborts index_out_of_range /\
  GenerateExhaustiveSearchCandidates
    (with_linear_bounds window_short_of_bounds
       [ {| min_x := 0; max_x := 1; min_y := 0; max_y := 0 |} ])
  = Aborts index_out_of_range.
Proof.
  split; [|split].
  - apply (GenerateExhaustiveSearchCandidates_domain window_three_rotations).
    split; [unfold scans_in_range; cbn; lia | reflexivity].
  - apply (GenerateExhaustiveSearchCandidates_domain window_short_of_bounds).
    right. cbn. lia.
  - apply (GenerateExhaustiveSearchCandidates_domain
             (with_linear_bounds window_short_of_bounds
                [ {| min_x := 0; max_x := 1; min_y := 0; max_y := 0 |} ])).
    right. cbn. lia.
Defined.

(** ** The same bounds for every rotation *)

Lemma indexed_length i l : length (indexed i l) = length l.
Proof.
  revert i. induction l as [|b l IH]; intros i; cbn [indexed length];
    [reflexivity | now rewrite IH].
Qed.

Lemma rotations_length search_parameters :
  scans_in_range search_parameters ->
  Z.of_nat (length (rotations search_parameters))
  = num_scans search_parameters.
Proof.
  intros [H0 Hn]. unfold rotations.
  rewrite indexed_length, length_firstn. lia.
Qed.

Lemma sum_of_constant {A} (f : A -> Z) (k : Z) (l : list A) :
  Forall (fun a => f a = k) l ->
  fold_right Z.add 0 (map f l) = Z.of_nat (length l) * k.
Proof.
  induction 1 as [|a l Ha _ IH]; cbn [map fold_right length]; [lia|].
  rewrite IH, Ha. lia.
Qed.

(** X12.  When every rotation index has the same linear bounds, the number
    of candidates is num_scans x (max_x - min_x + 1) x (max_y - min_y + 1),
    as the comment on the counting loop says: this is the precomputed total
    and, for ordered bounds, the size of the vector the call returns. *)
Theorem GenerateExhaustiveSearchCandidates_uniform_bounds :
  forall (search_parameters : SearchParameters) (b : LinearBounds),
    scans_in_range search_parameters ->
    (forall s b',
        0 <= s < num_scans search_parameters ->
        at_index (linear_bounds search_parameters) s = Some b' ->
        b' = b) ->
    precomputed_total search_parameters
    = num_scans search_parameters
      * ((max_x b - min_x b + 1) * (max_y b - min_y b + 1)) /\
    (bounds_ordered b ->
     exists candidates,
       GenerateExhaustiveSearchCandidates search_parameters
       = Returns candidates /\
       Z.of_nat (length candidates)
       = num_scans search_parameters
         * ((max_x b - min_x b + 1) * (max_y b - min_y b + 1))).
Proof.
  intros search_parameters b Hr Hsame.
  assert (Hall : Forall (fun p => snd p = b) (rotations search_parameters)).
  { apply Forall_forall. intros [s b'] Hin. apply rotations_In in Hin.
    cbn [snd]. destruct Hin as [Hs Hb]. exact (Hsame s b' Hs Hb). }
  assert (Htotal : precomputed_total search_parameters
                   = num_scans search_parameters
                     * ((max_x b - min_x b + 1) * (max_y b - min_y b + 1))).
  { unfold precomputed_total.
    rewrite (sum_of_constant _ (num_linear_candidates b)).
    - now rewrite (rotations_length _ Hr).
    - revert Hall. apply Forall_impl. now intros p ->. }
  split; [exact Htotal|]. intros Hord.
  assert (Hwf : window_well_formed search_parameters).
  { split; [exact Hr|]. revert Hall. apply Forall_impl. now intros p ->. }
  exists (map (candidate_of_triple search_parameters)
            (triples search_parameters)).
  split; [now apply GenerateExhaustiveSearchCandidates_returns|].
  rewrite length_map, <- Htotal.
  apply triples_length_ordered. apply Hwf.
Qed.

Lemma GenerateExhaustiveSearchCandidates_uniform_bounds_witness :
  exists candidates,
    GenerateExhaustiveSearchCandidates window_three_rotations
    = Returns candidates /\
    Z.of_nat (length candidates) = 27.
Proof.
  destruct (GenerateExhaustiveSearchCandidates_uniform_bounds
              window_three_rotations
              {| min_x := -1; max_x := 1; min_y := -1; max_y := 1 |})
    as [_ Hreturns].
  - unfold scans_in_range. cbn. lia.
  - intros s b' Hs Hb. cbn [window_three_rotations num_scans] in Hs.
    assert (Hcases : s = 0 \/ s = 1 \/ s = 2) by lia.
    destruct Hcases as [Hs0 | [Hs1 | Hs2]]; subst s;
      vm_compute in Hb; injection Hb as <-; reflexivity.
  - apply Hreturns. split; cbn; lia.
Defined.

Local Open Scope R_scope.

(** * Further properties of Match *)

Lemma max_element_loop_keeps largest largest_candidate rest :
  forall first,
    (forall c, In c rest -> score c <= score largest_candidate) ->
    max_element_loop largest largest_candidate first rest = largest.
Proof.
  induction rest as [|c rest IH]; intros first H; cbn [max_element_loop];
    [reflexivity|].
  destruct (Candidate2D_lt largest_candidate c) eqn:E.
  - apply Candidate2D_lt_spec in E.
    specialize (H c (or_introl eq_refl)). lra.
  - apply IH. intros c' Hc'. apply H. now right.
Qed.

Lemma max_element_first c0 rest :
  (forall c, In c rest -> score c <= score c0) ->
  max_element (c0 :: rest) = 0%nat.
Proof. intros H. unfold max_element. now apply max_element_loop_keeps. Qed.

Lemma Forall2_length_eq {A B} (P : A -> B -> Prop) l l' :
  Forall2 P l l' -> length l = length l'.
Proof. induction 1; cbn [length]; congruence. Qed.

Lemma Forall2_scored_map options_ grid discrete_scans (raw : R) l scored :
  (forall c, In c l -> raw_score grid discrete_scans c = Returns raw) ->
  Forall2 (scored_as options_ grid discrete_scans) l scored ->
  scored = map (fun c => set_score c (raw * penalty options_ c)) l.
Proof.
  intros Hraw H. induction H as [|c c' l l' (r & Hr & ->) _ IH];
    cbn [map]; [reflexivity|].
  rewrite (Hraw c (or_introl eq_refl)) in Hr. injection Hr as <-.
  f_equal. apply IH. intros c0 Hc0. apply Hraw. now right.
Qed.

Lemma scored_map_total options_ grid discrete_scans (raw : R) l :
  (forall c, In c l -> raw_score grid discrete_scans c = Returns raw) ->
  Forall2 (scored_as options_ grid discrete_scans) l
    (map (fun c => set_score c (raw * penalty options_ c)) l).
Proof.
  induction l as [|c l IH]; intros Hraw; cbn [map]; constructor.
  - exists raw. split; [apply Hraw; now left | reflexivity].
  - apply IH. intros c0 Hc0. apply Hraw. now right.
Qed.

Lemma raw_score_unobserved tsdf discrete_scans c :
  (forall xy_index, snd (GetTSDAndWeight tsdf xy_index) = 0) ->
  at_index discrete_scans (scan_index c) <> None ->
  raw_score (Grid2D_TSDF2D tsdf) discrete_scans c = Returns 0.
Proof.
  intros Hw Hscan. unfold raw_score.
  destruct (at_index discrete_scans (scan_index c)) as [scan|];
    [|contradiction]. cbn [lift_option bind].
  destruct (ComputeCandidateScore_TSDF2D_cases tsdf scan
              (x_index_offset c) (y_index_offset c))
    as [[_ E]|[(Hn & _)|(Hn & _)]]; [exact E| |]; exfalso; apply Hn;
    unfold summed_weight, tsdf_samples; rewrite map_map; cbn [snd];
    (rewrite (Rsum_constant 0);
     [apply Rmult_0_r | apply Forall_map, Forall_forall; intros; apply Hw]).
Qed.

Lemma raw_score_uniform probability_grid p
    (discrete_scans : list DiscreteScan2D) c :
  0 < p ->
  (forall xy_index, GetProbability probability_grid xy_index = p) ->
  (exists scan : DiscreteScan2D,
      at_index discrete_scans (scan_index c) = Some scan /\ scan <> []) ->
  raw_score (Grid2D_ProbabilityGrid probability_grid) discrete_scans c
  = Returns p.
Proof.
  intros Hp Hall (scan & Hscan & Hne). unfold raw_score.
  rewrite Hscan. cbn [lift_option bind].
  apply ComputeCandidateScore_ProbabilityGrid_constant; auto.
Qed.

Lemma raw_score_failure_by_grid grid discrete_scans c f :
  raw_score grid discrete_scans c = Aborts f ->
  f = index_out_of_range \/
  (f = CHECK_GT_candidate_score /\ GetGridType grid = PROBABILITY_GRID) \/
  (f = CHECK_GE_candidate_score /\ GetGridType grid = TSDF).
Proof.
  unfold raw_score. destruct grid as [g|g|l]; cbn [GetGridType].
  - destruct (at_index discrete_scans (scan_index c)) as [scan|];
      cbn [lift_option bind]; intros H.
    + destruct (ComputeCandidateScore_ProbabilityGrid_cases g scan
                  (x_index_offset c) (y_index_offset c))
        as [[_ E]|[_ E]]; rewrite E in H; try discriminate.
      injection H as <-. auto.
    + injection H as <-. auto.
  - destruct (at_index discrete_scans (scan_index c)) as [scan|];
      cbn [lift_option bind]; intros H.
    + destruct (ComputeCandidateScore_TSDF2D_cases g scan
                  (x_index_offset c) (y_index_offset c))
        as [[_ E]|[(_ & _ & E)|(_ & _ & E)]]; rewrite E in H;
        try discriminate.
      injection H as <-. auto.
    + injection H as <-. auto.
  - discriminate.
Qed.

Section MatchFurther.

Variable PointCloud : Type.
Variable TransformPointCloud : PointCloud -> R -> PointCloud.
Variable SearchParameters_new :
  R -> R -> PointCloud -> R -> option SearchParameters.
Variable GenerateRotatedScans :
  PointCloud -> SearchParameters -> list PointCloud.
Variable DiscretizeScans :
  MapLimits -> list PointCloud -> R * R -> list DiscreteScan2D.
Variable options_ : RealTimeCorrelativeScanMatcherOptions.

Lemma Match_steps initial_pose_estimate point_cloud grid old :
  Match TransformPointCloud SearchParameters_new GenerateRotatedScans
    DiscretizeScans options_ initial_pose_estimate point_cloud grid
    (Some old)
  = (search_parameters <-
       lift_option SearchParameters_precondition
         (Match_search_parameters TransformPointCloud SearchParameters_new
            options_ initial_pose_estimate point_cloud grid) ;;
     enumerated <- GenerateExhaustiveSearchCandidates search_parameters ;;
     scored <-
       scored_candidates
         (ScoreCandidates options_ grid
            (Match_discrete_scans TransformPointCloud GenerateRotatedScans
               DiscretizeScans initial_pose_estimate point_cloud grid
               search_parameters)
            search_parameters
            {| candidates_of := enumerated; trace := [] |}) ;;
     best_candidate <-
       lift_option dereference_end
         (nth_error scored (max_element scored)) ;;
     Returns (refined_pose initial_pose_estimate best_candidate,
              score best_candidate))%outcome.
Proof.
  unfold Match, Match_search_parameters, Match_discrete_scans.
  destruct (SearchParameters_new (linear_search_window options_)
              (angular_search_window options_)
              (TransformPointCloud point_cloud
                 (angle (rotation initial_pose_estimate)))
              (MapLimits_resolution (limits grid)))
    as [search_parameters|]; cbn [lift_option bind]; [|reflexivity].
  destruct (GenerateExhaustiveSearchCandidates search_parameters)
    as [enumerated|f]; cbn [bind]; [|reflexivity].
  match goal with
  | |- context [ScoreCandidates ?o ?g ?s ?p ?h] =>
      destruct (ScoreCandidates o g s p h) as [[u h']|f]
  end; reflexivity.
Qed.

(** X13.  With a non-null [pose_estimate], [Match] dereferences the end
    iterator returned by [std::max_element] exactly when the enumeration
    returns no candidate at all (for instance with [num_scans] 0): no CHECK
    guards the selection against an empty search window. *)
Theorem Match_empty_search_window :
  forall (initial_pose_estimate : Rigid2d) (point_cloud : PointCloud)
         (grid : Grid2D) (old : Rigid2d),
    Match TransformPointCloud SearchParameters_new GenerateRotatedScans
      DiscretizeScans options_ initial_pose_estimate point_cloud grid
      (Some old)
    = Aborts dereference_end <->
    exists search_parameters,
      Match_search_parameters TransformPointCloud SearchParameters_new
        options_ initial_pose_estimate point_cloud grid
      = Some search_parameters /\
      GenerateExhaustiveSearchCandidates search_parameters = Returns [].
Proof.
  intros initial_pose_estimate point_cloud grid old.
  rewrite Match_steps. split.
  - destruct (Match_search_parameters TransformPointCloud
                SearchParameters_new options_ initial_pose_estimate
                point_cloud grid) as [search_parameters|];
      cbn [lift_option bind]; [|discriminate].
    destruct (GenerateExhaustiveSearchCandidates search_parameters)
      as [enumerated|f] eqn:Egen; cbn [bind].
    + match goal with
      | |- context [ScoreCandidates ?o ?g ?s ?p ?h] =>
          destruct (ScoreCandidates o g s p h) as [[u h']|f] eqn:Escore
      end; cbn [scored_candidates outcome_map bind snd].
      * destruct (candidates_of h') as [|c l] eqn:Eh.
        -- intros _. exists search_parameters. split; [reflexivity|].
           apply ScoreCandidates_scored_as in Escore.
           apply Forall2_length_eq in Escore. rewrite Eh in Escore.
           cbn [candidates_of length] in Escore.
           destruct enumerated; [exact Egen | discriminate].
        -- destruct (max_element_spec (c :: l)) as (best & -> & _);
             discriminate.
      * intros H. injection H as ->.
        apply ScoreCandidates_failure in Escore.
        destruct Escore as [E|[E|E]]; discriminate.
    + intros H. injection H as ->.
      apply GenerateExhaustiveSearchCandidates_failure in Egen.
      destruct Egen as [E|[E|E]]; discriminate.
  - intros (search_parameters & Hsp & Hgen).
    rewrite Hsp. cbn [lift_option bind]. rewrite Hgen. reflexivity.
Qed.

(** X14.  On a probability grid all of whose cells hold the same
    probability p > 0, with non-empty discrete scans, when one of the
    enumerated candidates has no displacement (x = y = 0, orientation 0),
    [Match] returns the score p, and the pose it writes is the initial pose
    displaced by one of the enumerated candidates. *)
Theorem Match_uniform_probability_grid :
  forall (initial_pose_estimate : Rigid2d) (point_cloud : PointCloud)
         (probability_grid : ProbabilityGrid) (p : R) (old : Rigid2d)
         (search_parameters : SearchParameters)
         (enumerated : list Candidate2D),
    0 < p ->
    (forall xy_index, GetProbability probability_grid xy_index = p) ->
    Match_search_parameters TransformPointCloud SearchParameters_new
      options_ initial_pose_estimate point_cloud
      (Grid2D_ProbabilityGrid probability_grid)
    = Some search_parameters ->
    GenerateExhaustiveSearchCandidates search_parameters
    = Returns enumerated ->
    (forall c,
        In c enumerated ->
        exists scan : DiscreteScan2D,
          at_index
            (Match_discrete_scans TransformPointCloud GenerateRotatedScans
               DiscretizeScans initial_pose_estimate point_cloud
               (Grid2D_ProbabilityGrid probability_grid) search_parameters)
            (scan_index c) = Some scan /\
          scan <> []) ->
    (exists c0,
        In c0 enumerated /\ x c0 = 0 /\ y c0 = 0 /\ orientation c0 = 0) ->
    exists pose selected,
      Match TransformPointCloud SearchParameters_new GenerateRotatedScans
        DiscretizeScans options_ initial_pose_estimate point_cloud
        (Grid2D_ProbabilityGrid probability_grid) (Some old)
      = Returns (pose, p) /\
      In selected enumerated /\
      translation pose
      = (fst (translation initial_pose_estimate) + x selected,
         snd (translation initial_pose_estimate) + y selected) /\
      angle (rotation pose)
      = angle (rotation initial_pose_estimate) + orientation selected.
Proof.
  intros initial_pose_estimate point_cloud probability_grid p old
    search_parameters enumerated Hp Hall Hsp Hgen Hscans
    (c0 & Hc0 & Hx0 & Hy0 & Ho0).
  rewrite Match_steps, Hsp. cbn [lift_option bind].
  rewrite Hgen. cbn [bind].
  set (scans := Match_discrete_scans TransformPointCloud GenerateRotatedScans
                  DiscretizeScans initial_pose_estimate point_cloud
                  (Grid2D_ProbabilityGrid probability_grid)
                  search_parameters) in *.
  assert (Hraw : forall c, In c enumerated ->
                   raw_score (Grid2D_ProbabilityGrid probability_grid)
                     scans c = Returns p).
  { intros c Hc. apply raw_score_uniform; auto. }
  pose proof (scored_map_total options_ _ scans p enumerated Hraw) as Hscored.
  destruct (scored_as_ScoreCandidates options_ _ scans search_parameters
              {| candidates_of := enumerated; trace := [] |} _ Hscored)
    as (h' & -> & Eh').
  cbn [scored_candidates outcome_map bind snd]. rewrite Eh'.
  set (scored := map (fun c => set_score c (p * penalty options_ c))
                   enumerated).
  assert (Hne : scored <> []).
  { unfold scored. destruct enumerated; [destruct Hc0 | discriminate]. }
  destruct (max_element_spec scored Hne) as (best & Hnth & Hmax & _).
  rewrite Hnth. cbn [lift_option bind].
  assert (Hbest : In best scored) by (eapply nth_error_In; exact Hnth).
  apply in_map_iff in Hbest. destruct Hbest as (cb & Hcb & Hin).
  assert (H0 : In (set_score c0 (p * penalty options_ c0)) scored)
    by (apply in_map_iff; eauto).
  apply Hmax in H0. rewrite <- Hcb in H0. cbn [set_score score] in H0.
  rewrite (penalty_at_origin options_ c0 Hx0 Hy0 Ho0) in H0.
  pose proof (penalty_le_1 options_ cb) as Hle.
  assert (Hpen : p * penalty options_ cb = p) by nra.
  exists (refined_pose initial_pose_estimate best), cb.
  rewrite <- Hcb. cbn [set_score score]. rewrite Hpen.
  repeat split; [exact Hin].
Qed.

(** X15.  On a signed-distance grid all of whose weights are 0 (nothing
    observed yet) every candidate scores 0, and [Match] selects the first
    enumerated candidate: it returns the score 0 and writes the initial pose
    displaced by that candidate (scan index 0 and the smallest offsets of the
    window), not the initial pose. *)
Theorem Match_unobserved_tsdf :
  forall (initial_pose_estimate : Rigid2d) (point_cloud : PointCloud)
         (tsdf : TSDF2D) (old : Rigid2d)
         (search_parameters : SearchParameters)
         (first_candidate : Candidate2D) (others : list Candidate2D),
    (forall xy_index, snd (GetTSDAndWeight tsdf xy_index) = 0) ->
    Match_search_parameters TransformPointCloud SearchParameters_new
      options_ initial_pose_estimate point_cloud (Grid2D_TSDF2D tsdf)
    = Some search_parameters ->
    GenerateExhaustiveSearchCandidates search_parameters
    = Returns (first_candidate :: others) ->
    (forall c,
        In c (first_candidate :: others) ->
        at_index
          (Match_discrete_scans TransformPointCloud GenerateRotatedScans
             DiscretizeScans initial_pose_estimate point_cloud
             (Grid2D_TSDF2D tsdf) search_parameters)
          (scan_index c) <> None) ->
    Match TransformPointCloud SearchParameters_new GenerateRotatedScans
      DiscretizeScans options_ initial_pose_estimate point_cloud
      (Grid2D_TSDF2D tsdf) (Some old)
    = Returns (refined_pose initial_pose_estimate first_candidate, 0).
Proof.
  intros initial_pose_estimate point_cloud tsdf old search_parameters
    first_candidate others Hw Hsp Hgen Hscans.
  rewrite Match_steps, Hsp. cbn [lift_option bind].
  rewrite Hgen. cbn [bind].
  set (scans := Match_discrete_scans TransformPointCloud GenerateRotatedScans
                  DiscretizeScans initial_pose_estimate point_cloud
                  (Grid2D_TSDF2D tsdf) search_parameters) in *.
  assert (Hraw : forall c, In c (first_candidate :: others) ->
                   raw_score (Grid2D_TSDF2D tsdf) scans c = Returns 0).
  { intros c Hc. apply raw_score_unobserved; auto. }
  pose proof (scored_map_total options_ _ scans 0 _ Hraw) as Hscored.
  destruct (scored_as_ScoreCandidates options_ _ scans search_parameters
              {| candidates_of := first_candidate :: others; trace := [] |}
              _ Hscored)
    as (h' & -> & Eh').
  cbn [scored_candidates outcome_map bind snd]. rewrite Eh'. cbn [map].
  rewrite max_element_first.
  - cbn [nth_error lift_option bind set_score score].
    rewrite Rmult_0_l. reflexivity.
  - intros c Hc. apply in_map_iff in Hc. destruct Hc as (c' & <- & _).
    cbn [set_score score]. rewrite !Rmult_0_l. apply Rle_refl.
Qed.

Lemma ScoreCandidates_failure_by_grid grid discrete_scans search_parameters
    h f :
  ScoreCandidates options_ grid discrete_scans search_parameters h = Aborts f ->
  f = index_out_of_range \/
  (f = CHECK_GT_candidate_score /\ GetGridType grid = PROBABILITY_GRID) \/
  (f = CHECK_GE_candidate_score /\ GetGridType grid = TSDF).
Proof.
  rewrite ScoreCandidates_score_all. intros H.
  destruct (score_all options_ grid discrete_scans 0 (candidates_of h))
    as [r|f'] eqn:E; cbn [bind] in H; [discriminate|].
  injection H as <-. apply score_all_Aborts_iff in E.
  destruct E as (pre & c & post & _ & _ & Hc).
  exact (raw_score_failure_by_grid _ _ _ _ Hc).
Qed.

(** X16.  With a non-null [pose_estimate], [Match] can stop only in the
    constructor of the search parameters, in the enumeration (reading past
    the linear bounds, [reserve], CHECK_EQ), in the scoring (reading past the
    discrete scans, CHECK_GT, CHECK_GE) or at the dereference of the selected
    iterator.  It stops at CHECK_GT only on a probability grid and at
    CHECK_GE only on a signed-distance grid. *)
Theorem Match_stops :
  forall (initial_pose_estimate : Rigid2d) (point_cloud : PointCloud)
         (grid : Grid2D) (old : Rigid2d) (f : failure),
    Match TransformPointCloud SearchParameters_new GenerateRotatedScans
      DiscretizeScans options_ initial_pose_estimate point_cloud grid
      (Some old)
    = Aborts f ->
    Match_failure f /\
    (f = CHECK_GT_candidate_score -> GetGridType grid = PROBABILITY_GRID) /\
    (f = CHECK_GE_candidate_score -> GetGridType grid = TSDF).
Proof.
  intros initial_pose_estimate point_cloud grid old f.
  rewrite Match_steps. unfold Match_failure.
  destruct (Match_search_parameters TransformPointCloud
              SearchParameters_new options_ initial_pose_estimate
              point_cloud grid) as [search_parameters|];
    cbn [lift_option bind].
  - destruct (GenerateExhaustiveSearchCandidates search_parameters)
      as [enumerated|f'] eqn:Egen; cbn [bind].
    + match goal with
      | |- context [ScoreCandidates ?o ?g ?s ?p ?h] =>
          destruct (ScoreCandidates o g s p h) as [[u h']|f'] eqn:Escore
      end; cbn [scored_candidates outcome_map bind snd].
      * destruct (nth_error (candidates_of h')
                    (max_element (candidates_of h')));
          cbn [lift_option bind]; intros H; [discriminate|].
        injection H as <-. repeat split; auto; discriminate.
      * intros H. injection H as <-.
        pose proof (ScoreCandidates_failure _ _ _ _ _ _ Escore) as Hs.
        apply ScoreCandidates_failure_by_grid in Escore.
        split; [auto|].
        destruct Escore as [Hf|[[Hf Hg]|[Hf Hg]]]; subst;
          split; intros; try discriminate; assumption.
    + intros H. injection H as <-.
      apply GenerateExhaustiveSearchCandidates_failure in Egen.
      split; [auto|].
      destruct Egen as [Hf|[Hf|Hf]]; subst; split; discriminate.
  - intros H. injection H as <-. repeat split; auto; discriminate.
Qed.

End MatchFurther.

Lemma Match_empty_search_window_witness :
  Match scenario_TransformPointCloud no_rotation_SearchParameters_new
    scenario_GenerateRotatedScans scenario_DiscretizeScans scenario_options
    scenario_initial_pose [(0, 0)] scenario_grid (Some scenario_initial_pose)
  = Aborts dereference_end.
Proof.
  apply (Match_empty_search_window scenario_PointCloud
           scenario_TransformPointCloud no_rotation_SearchParameters_new
           scenario_GenerateRotatedScans scenario_DiscretizeScans
           scenario_options).
  exists window_no_rotation. split; reflexivity.
Defined.

Lemma Match_uniform_probability_grid_witness :
  exists pose selected,
    ridge_Match (Grid2D_ProbabilityGrid (uniform_grid (6 / 10)))
      (Some scenario_initial_pose)
    = Returns (pose, 6 / 10) /\
    In selected ridge_candidates /\
    translation pose = (1 / 10 + x selected, 2 / 10 + y selected) /\
    angle (rotation pose) = 3 / 10 + orientation selected.
Proof.
  apply (Match_uniform_probability_grid scenario_PointCloud
           scenario_TransformPointCloud ridge_SearchParameters_new
           ridge_GenerateRotatedScans ridge_DiscretizeScans
           scenario_options ridge_initial_pose [(0, 0)]
           (uniform_grid (6 / 10)) (6 / 10) scenario_initial_pose
           ridge_window ridge_candidates).
  - lra.
  - reflexivity.
  - reflexivity.
  - reflexivity.
  - intros c Hc.
    repeat (destruct Hc as [<-|Hc];
            [eexists; (split; [reflexivity | discriminate])|]).
    destruct Hc.
  - exists ridge_origin. split; [right; right; now left|].
    exact ridge_origin_at_origin.
Defined.

Lemma Match_unobserved_tsdf_witness :
  Match scenario_TransformPointCloud window_3x3_SearchParameters_new
    scenario_GenerateRotatedScans scenario_DiscretizeScans scenario_options
    scenario_initial_pose [(0, 0)] unobserved_tsdf
    (Some scenario_initial_pose)
  = Returns (refined_pose scenario_initial_pose
               (Candidate2D_new 0 (-1) (-1) window_3x3), 0).
Proof.
  apply (Match_unobserved_tsdf scenario_PointCloud
           scenario_TransformPointCloud window_3x3_SearchParameters_new
           scenario_GenerateRotatedScans scenario_DiscretizeScans
           scenario_options scenario_initial_pose [(0, 0)]
           (uniform_tsdf 1 0 0) scenario_initial_pose window_3x3
           (Candidate2D_new 0 (-1) (-1) window_3x3)
           (tl (map (candidate_of_triple window_3x3) (triples window_3x3)))).
  - reflexivity.
  - reflexivity.
  - reflexivity.
  - intros c Hc. cbn in Hc.
    repeat (destruct Hc as [<-|Hc]; [discriminate|]). destruct Hc.
Defined.

Lemma Match_stops_witness :
  Match_failure dereference_end /\
  (dereference_end = CHECK_GT_candidate_score ->
   GetGridType scenario_grid = PROBABILITY_GRID) /\
  (dereference_end = CHECK_GE_candidate_score ->
   GetGridType scenario_grid = TSDF).
Proof.
  apply (Match_stops scenario_PointCloud scenario_TransformPointCloud
           no_rotation_SearchParameters_new scenario_GenerateRotatedScans
           scenario_DiscretizeScans scenario_options scenario_initial_pose
           [(0, 0)] scenario_grid scenario_initial_pose dereference_end).
  reflexivity.
Defined.
